(** * WAV container probing and safe batch re-encoding

    A shallow embedding of the chunk-walking probes, the duration estimator
    and the backup / transcode / swap-or-restore loops of the conversion
    scripts, together with the properties the specification states about
    them.

    Files are byte lists, the file system is a finite map from path strings
    to files, Python exceptions are an explicit outcome, and the external
    transcoding tool is an arbitrary function that may only write to the
    output path it is given. *)

From Stdlib Require Import ZArith QArith Qabs Strings.Byte Ascii String.
From stdpp Require Import gmap strings list fin_maps sorting.

Local Open Scope Z_scope.

(** ** A small Python runtime: outcomes, file handles, [struct.unpack] *)

Module Py.

(** The exception classes the modelled code can raise. *)
Inductive exn : Type :=
  | StructError          (* struct.error: buffer of the wrong length *)
  | ZeroDivisionError
  | FileNotFoundError
  | SameFileError.

(** Result of running a piece of Python: a value, a propagating exception,
    or exhaustion of the loop budget of the model ([NoFuel] is shown below
    never to be produced by the probes). *)
Inductive outcome (A : Type) : Type :=
  | Done (a : A)
  | Raised (e : exn)
  | NoFuel.
Arguments Done {A} a.
Arguments Raised {A} e.
Arguments NoFuel {A}.

(** [try: body  except Exception: handler]. *)
Definition try_except {A} (body : outcome A) (handler : exn -> outcome A)
  : outcome A :=
  match body with
  | Raised e => handler e
  | o => o
  end.

Definition obind {A B} (m : outcome A) (k : A -> outcome B) : outcome B :=
  match m with
  | Done a => k a
  | Raised e => Raised e
  | NoFuel => NoFuel
  end.

(** Python's [a / b] on integers.  The float result is represented by the
    exact quotient, of which the float is the nearest double. *)
Definition truediv (x y : Z) : outcome Q :=
  if Z.eqb y 0 then Raised ZeroDivisionError
  else Done (inject_Z x / inject_Z y)%Q.

(** A binary file opened for reading.  The scripts only read forward and
    seek forward relative to the cursor, so the handle is the list of bytes
    not yet consumed: a cursor moved past end-of-file is the empty list,
    from which every read returns the empty byte string, as in Python. *)
Definition handle (A : Type) : Type := list byte -> outcome (A * list byte).

Definition ret {A} (a : A) : handle A := fun s => Done (a, s).

Definition bind {A B} (m : handle A) (k : A -> handle B) : handle B :=
  fun s =>
    match m s with
    | Done (a, s') => k a s'
    | Raised e => Raised e
    | NoFuel => NoFuel
    end.

Definition raise {A} (e : exn) : handle A := fun _ => Raised e.

(** A computation that does not touch the file. *)
Definition lift {A} (o : outcome A) : handle A :=
  fun s => obind o (fun a => Done (a, s)).

Definition out_of_fuel {A} : handle A := fun _ => NoFuel.

(** [f.read(n)]: up to [n] bytes, fewer at end-of-file. *)
Definition read (n : nat) : handle (list byte) :=
  fun s => Done (take n s, drop n s).

(** [f.seek(n, 1)] with [n >= 0]: never fails, may pass end-of-file. *)
Definition seek_cur (n : Z) : handle unit :=
  fun s => Done (tt, drop (Z.to_nat n) s).

(** Run the body of [with open(...) as f] on the content of the file. *)
Definition with_open {A} (content : list byte) (body : handle A) : outcome A :=
  match body content with
  | Done (a, _) => Done a
  | Raised e => Raised e
  | NoFuel => NoFuel
  end.

(** Little-endian value of a byte string. *)
Fixpoint le_value (b : list byte) : Z :=
  match b with
  | [] => 0
  | x :: b' => Z.of_N (Byte.to_N x) + 256 * le_value b'
  end.

(** [struct.unpack('<I', b)[0]] and [struct.unpack('<H', b)[0]]: the buffer
    must have exactly the size of the format. *)
Definition unpack (size : nat) (b : list byte) : handle Z :=
  if Nat.eqb (length b) size then ret (le_value b) else raise StructError.

Definition unpack_I : list byte -> handle Z := unpack 4.
Definition unpack_H : list byte -> handle Z := unpack 2.

(** Byte-string literals and comparison. *)
Definition bstr (s : string) : list byte := list_byte_of_string s.

#[global] Instance byte_eq_decision : EqDecision byte := Byte.byte_eq_dec.

Definition bytes_eqb (x y : list byte) : bool := bool_decide (x = y).

(** [not chunk_id] on a byte string. *)
Definition is_empty (x : list byte) : bool :=
  match x with [] => true | _ => false end.

(** Little-endian encoders, used to write test files down. *)
Definition byte_of_Z (z : Z) : byte :=
  match Byte.of_N (Z.to_N (z mod 256)) with
  | Some x => x
  | None => x00
  end.

Fixpoint pack (size : nat) (z : Z) : list byte :=
  match size with
  | O => []
  | S k => byte_of_Z z :: pack k (z / 256)
  end.

Definition pack_I : Z -> list byte := pack 4.
Definition pack_H : Z -> list byte := pack 2.

End Py.

Import Py.

Declare Scope handle_scope.
Delimit Scope handle_scope with handle.
Notation "x <~ m ;; k" := (bind m (fun x => k))
  (at level 100, m at next level, right associativity) : handle_scope.
Notation "m ;;; k" := (bind m (fun _ => k))
  (at level 100, right associativity) : handle_scope.
Local Open Scope handle_scope.

Declare Scope outcome_scope.
Delimit Scope outcome_scope with outcome.
Notation "x <~ m ;; k" := (obind m (fun x => k))
  (at level 100, m at next level, right associativity) : outcome_scope.

(** A file object with an explicit cursor, for the code that seeks to
    absolute offsets and asks for the position. *)
Module PyFile.

Definition cursor (A : Type) : Type := list byte -> nat -> outcome (A * nat).

Definition cret {A} (a : A) : cursor A := fun _ pos => Done (a, pos).

Definition cbind {A B} (m : cursor A) (k : A -> cursor B) : cursor B :=
  fun c pos =>
    match m c pos with
    | Done (a, pos') => k a c pos'
    | Raised e => Raised e
    | NoFuel => NoFuel
    end.

(** [f.read(n)]: the bytes from the cursor on, at most [n]; the cursor
    advances by what was read. *)
Definition fread (n : nat) : cursor (list byte) :=
  fun c pos =>
    let data := take n (drop pos c) in
    Done (data, (pos + length data)%nat).

(** [f.seek(offset)], [f.seek(offset, 2)] and [f.tell()]. *)
Definition fseek_set (offset : nat) : cursor unit :=
  fun _ _ => Done (tt, offset).

Definition fseek_end (offset : nat) : cursor unit :=
  fun c _ => Done (tt, (length c + offset)%nat).

Definition ftell : cursor nat := fun _ pos => Done (pos, pos).

Definition with_file {A} (content : list byte) (body : cursor A) : outcome A :=
  match body content 0%nat with
  | Done (a, _) => Done a
  | Raised e => Raised e
  | NoFuel => NoFuel
  end.

End PyFile.

Import PyFile.

Declare Scope cursor_scope.
Delimit Scope cursor_scope with cursor.
Notation "x <~ m ;; k" := (cbind m (fun x => k))
  (at level 100, m at next level, right associativity) : cursor_scope.
Notation "m ;;; k" := (cbind m (fun _ => k))
  (at level 100, right associativity) : cursor_scope.

(** The second component of what [verify_wav_header] returns: one of its
    two complaints, the size it reports, or the text of an exception. *)
Inductive verdict : Type :=
  | BadRiff
  | BadWave
  | Bytes (file_size : nat)
  | Failure (e : exn).

(** [verify_wav_header], the same in convert_all_ieee_formats.py and in
    convert_russian_wav_format.py. *)
Definition verify_wav_header (wav : list byte) : outcome (bool * verdict) :=
  try_except
    (with_file wav (
       riff <~ fread 4 ;;
       if negb (bytes_eqb riff (bstr "RIFF")) then cret (false, BadRiff)
       else
         fseek_set 8 ;;;
         wave <~ fread 4 ;;
         if negb (bytes_eqb wave (bstr "WAVE")) then cret (false, BadWave)
         else
           fseek_end 0 ;;;
           file_size <~ ftell ;;
           cret (true, Bytes file_size))%cursor)
    (fun e => Done (false, Failure e)).

(** The dictionary built from a format chunk: the six fields of the chunk
    and the size field of the outer header, which the scripts call
    [file_size]. *)
Record wav_format : Type := WavFormat {
  audio_format : Z;
  num_channels : Z;
  sample_rate : Z;
  byte_rate : Z;
  block_align : Z;
  bits_per_sample : Z;
  file_size : Z
}.

(** The six [struct.unpack] reads of a format chunk body. *)
Definition read_fmt_fields (file_size : Z) : handle wav_format :=
  raw <~ read 2 ;; audio_format <~ unpack_H raw ;;
  raw <~ read 2 ;; num_channels <~ unpack_H raw ;;
  raw <~ read 4 ;; sample_rate <~ unpack_I raw ;;
  raw <~ read 4 ;; byte_rate <~ unpack_I raw ;;
  raw <~ read 2 ;; block_align <~ unpack_H raw ;;
  raw <~ read 2 ;; bits_per_sample <~ unpack_H raw ;;
  ret (WavFormat audio_format num_channels sample_rate byte_rate
                 block_align bits_per_sample file_size).

(** ** Paths, the file system, [shutil] and the external tool *)

Module Fs.

(** A regular file: its bytes and its modification time. *)
Record file : Type := File {
  content : list byte;
  mtime : Z
}.

(** The file system: paths (as strings) to files.  Directories are not
    represented; [mkdir(exist_ok=True)] has no counterpart. *)
Abbreviation fs := (gmap string file).

(** Result of a script fragment: a value or a propagating exception, each
    with the file system it leaves behind. *)
Inductive result (A : Type) : Type :=
  | Returned (a : A) (m : fs)
  | Crashed (e : exn) (m : fs).
Arguments Returned {A} a m.
Arguments Crashed {A} e m.

Definition final_fs {A} (r : result A) : fs :=
  match r with
  | Returned _ m => m
  | Crashed _ m => m
  end.

Definition script (A : Type) : Type := fs -> result A.

Definition sret {A} (a : A) : script A := fun m => Returned a m.

Definition sbind {A B} (c : script A) (k : A -> script B) : script B :=
  fun m =>
    match c m with
    | Returned a m' => k a m'
    | Crashed e m' => Crashed e m'
    end.

(** [for name in files: t = body(name, t)]: the loop stops at the first
    exception. *)
Fixpoint for_each {T} (body : string -> T -> script T) (files : list string)
    (t : T) : script T :=
  match files with
  | [] => sret t
  | name :: rest => sbind (body name t) (for_each body rest)
  end.

(** [Path(dir) / name]. *)
Definition joinpath (dir name : string) : string :=
  (dir +:+ "/" +:+ name)%string.

(** [str.rfind(c)]: index of the last occurrence. *)
Fixpoint rfind (c : ascii) (s : string) : option nat :=
  match s with
  | EmptyString => None
  | String a s' =>
      match rfind c s' with
      | Some i => Some (S i)
      | None => if Ascii.eqb a c then Some O else None
      end
  end.

(** [PurePath.suffix] and [PurePath.stem] of a file name: the name is cut
    at its last dot unless that dot is the first or the last character. *)
Definition dot_index (name : string) : option nat :=
  match rfind "."%char name with
  | Some i =>
      if (0 <? i)%nat && (i <? String.length name - 1)%nat then Some i
      else None
  | None => None
  end.

Definition suffix (name : string) : string :=
  match dot_index name with
  | Some i => substring i (String.length name - i) name
  | None => ""
  end.

Definition stem (name : string) : string :=
  match dot_index name with
  | Some i => substring 0 i name
  | None => name
  end.

(** [PurePath.with_suffix] on the file name. *)
Definition with_suffix (name new_suffix : string) : string :=
  let old_suffix := suffix name in
  if String.eqb old_suffix "" then (name +:+ new_suffix)%string
  else (substring 0 (String.length name - String.length old_suffix) name
        +:+ new_suffix)%string.

(** [Path.exists], [Path.stat], [Path.unlink], [Path.rename]. *)
Definition path_exists (p : string) : script bool :=
  fun m => Returned (bool_decide (is_Some (m !! p))) m.

Definition stat (p : string) : script file :=
  fun m =>
    match m !! p with
    | Some f => Returned f m
    | None => Crashed FileNotFoundError m
    end.

Definition unlink (p : string) : script unit :=
  fun m =>
    match m !! p with
    | Some _ => Returned tt (delete p m)
    | None => Crashed FileNotFoundError m
    end.

Definition rename (src dst : string) : script unit :=
  fun m =>
    match m !! src with
    | Some f => Returned tt (<[dst := f]> (delete src m))
    | None => Crashed FileNotFoundError m
    end.

(** [shutil.copy2]: bytes and metadata; the source must exist and differ
    from the destination. *)
Definition copy2 (src dst : string) : script unit :=
  fun m =>
    match m !! src with
    | Some f =>
        if bool_decide (src = dst) then Crashed SameFileError m
        else Returned tt (<[dst := f]> m)
    | None => Crashed FileNotFoundError m
    end.

(** What one run of the external transcoder does: its exit status, its
    error text, and what it leaves at the output path.  It is otherwise
    unconstrained and may inspect the whole file system. *)
Inductive tool_effect : Type :=
  | Untouched
  | Written (f : file)
  | Removed.

Record tool_run : Type := ToolRun {
  exit_ok : bool;
  stderr : string;
  effect : tool_effect
}.

Definition transcoder : Type := fs -> string -> string -> tool_run.

Definition apply_effect (output : string) (e : tool_effect) (m : fs) : fs :=
  match e with
  | Untouched => m
  | Written f => <[output := f]> m
  | Removed => delete output m
  end.

(** [convert_wav_format(input_file, output_file)]: runs the tool and maps
    its exit status (or a failure to start it) to [(success, error)]. *)
Definition convert_wav_format (ffmpeg : transcoder)
    (input_file output_file : string) : script (bool * string) :=
  fun m =>
    let r := ffmpeg m input_file output_file in
    Returned (exit_ok r, stderr r) (apply_effect output_file (effect r) m).

End Fs.

Import Fs.

Declare Scope script_scope.
Delimit Scope script_scope with script.
Bind Scope script_scope with script.
Notation "x <~ m ;; k" := (sbind m (fun x => k))
  (at level 100, m at next level, right associativity) : script_scope.
Notation "m ;;; k" := (sbind m (fun _ => k))
  (at level 100, right associativity) : script_scope.

(** The body that the three conversion loops share word for word: back the
    file up, transcode into a temporary path, then either replace the
    original by the temporary file or discard it and restore the backup.
    The value is [(success, error)] as returned by [convert_wav_format]. *)
Definition backup_convert_swap (ffmpeg : transcoder)
    (wav_file backup_file temp_output : string) : script (bool * string) :=
  (copy2 wav_file backup_file ;;;
   r <~ convert_wav_format ffmpeg wav_file temp_output ;;
   if fst r then
     unlink wav_file ;;;
     rename temp_output wav_file ;;;
     sret r
   else
     present <~ path_exists temp_output ;;
     (if present then unlink temp_output else sret tt) ;;;
     copy2 backup_file wav_file ;;;
     sret r)%script.

(** The same body with the call [convert_wav_format(wav_file, temp_output)]
    left open: [convert] is any script fragment that returns
    [(success, error)], so nothing is assumed about the file system the
    conversion leaves behind, the original path included.
    [backup_convert_swap ffmpeg] is its instance at
    [convert_wav_format ffmpeg]. *)
Definition backup_convert_swap_with
    (convert : string -> string -> script (bool * string))
    (wav_file backup_file temp_output : string) : script (bool * string) :=
  (copy2 wav_file backup_file ;;;
   r <~ convert wav_file temp_output ;;
   if fst r then
     unlink wav_file ;;;
     rename temp_output wav_file ;;;
     sret r
   else
     present <~ path_exists temp_output ;;
     (if present then unlink temp_output else sret tt) ;;;
     copy2 backup_file wav_file ;;;
     sret r)%script.

(** The counters of a conversion loop. *)
Record tally : Type := Tally {
  success_count : nat;
  failed_count : nat;
  failed_files : list (string * string)
}.

Definition wavs_dir : string := "raw/wavs".

(** The path of the audio file called [name]. *)
Definition wav_path (name : string) : string := joinpath wavs_dir name.

(** ** convert_all_ieee_formats.py: the format probe and [main] *)

Module ConvertAllIeee.

(** The [while True] loop of [investigate_wav_format].  [None] is the
    implicit return value reached through [break]. *)
Fixpoint chunk_loop (fuel : nat) : handle (option Z) :=
  match fuel with
  | O => out_of_fuel
  | S fuel' =>
      chunk_id <~ read 4 ;;
      if is_empty chunk_id then ret None
      else
        raw <~ read 4 ;;
        chunk_size <~ unpack_I raw ;;
        if bytes_eqb chunk_id (bstr "fmt ") then
          raw <~ read 2 ;;
          audio_format <~ unpack_H raw ;;
          ret (Some audio_format)
        else
          seek_cur chunk_size ;;;
          chunk_loop fuel'
  end.

Definition investigate_wav_format (wav : list byte) : outcome (option Z) :=
  try_except
    (with_open wav (
       riff_header <~ read 4 ;;
       raw <~ read 4 ;;
       file_size <~ unpack_I raw ;;
       wave_header <~ read 4 ;;
       chunk_loop (S (length wav))))
    (fun _ => Done None).

(** The probe applied to a path: [open] raises inside the [try] block when
    the file is missing, and the handler returns [None]. *)
Definition probe (m : fs) (wav_file : string) : option Z :=
  match m !! wav_file with
  | Some f =>
      match investigate_wav_format (content f) with
      | Done audio_format => audio_format
      | _ => None
      end
  | None => None
  end.

Definition backup_dir : string := "backup_all_ieee_wavs".

(** The backup and temporary paths that the loop derives from a name, and
    the counting done at the end of an iteration. *)
Definition backup_path (name : string) : string := joinpath backup_dir name.
Definition temp_path (name : string) : string :=
  joinpath wavs_dir (stem name +:+ ".temp.wav").
Definition test_path (name : string) : string :=
  joinpath wavs_dir (stem name +:+ ".test.wav").
Definition count (name : string) (r : bool * string) (t : tally) : tally :=
  if fst r then
    Tally (S (success_count t)) (failed_count t) (failed_files t)
  else
    Tally (success_count t) (S (failed_count t))
          (failed_files t ++ [(name, snd r)]).

Definition ieee_files (m : fs) (wav_files : list string) : list string :=
  filter (fun w => probe m (joinpath wavs_dir w) = Some 3) wav_files.

Definition pcm_files (m : fs) (wav_files : list string) : list string :=
  filter (fun w => probe m (joinpath wavs_dir w) <> Some 3
                   /\ probe m (joinpath wavs_dir w) = Some 1) wav_files.

Definition other_files (m : fs) (wav_files : list string) : list string :=
  filter (fun w => probe m (joinpath wavs_dir w) <> Some 3
                   /\ probe m (joinpath wavs_dir w) <> Some 1) wav_files.

(** One iteration of the conversion loop; files are given by name. *)
Definition convert_one (ffmpeg : transcoder) (name : string) (t : tally)
  : script tally :=
  (let wav_file := joinpath wavs_dir name in
   let backup_file := joinpath backup_dir name in
   let temp_output := joinpath wavs_dir (stem name +:+ ".temp.wav") in
   r <~ backup_convert_swap ffmpeg wav_file backup_file temp_output ;;
   if fst r then
     sret (Tally (S (success_count t)) (failed_count t) (failed_files t))
   else
     sret (Tally (success_count t) (S (failed_count t))
                 (failed_files t ++ [(name, snd r)])))%script.

Definition convert_loop (ffmpeg : transcoder) (files : list string)
    (t : tally) : script tally :=
  for_each (convert_one ffmpeg) files t.

(** [main] on the listing [wav_files] of the audio directory (file names);
    [confirmed] says whether the answer typed at the prompt is [y].  The
    value is the final tally, or [None] on one of the early returns.
    Printing and the read-only header checks are left out. *)
Definition main (ffmpeg : transcoder) (wav_files : list string)
    (confirmed : bool) : script (option tally) :=
  fun m0 =>
    match wav_files with
    | [] => Returned None m0
    | _ =>
        let ieee := ieee_files m0 wav_files in
        match ieee with
        | [] => Returned None m0
        | test_name :: _ =>
            (let test_file := joinpath wavs_dir test_name in
             let test_backup := joinpath backup_dir test_name in
             let test_output :=
               joinpath wavs_dir (stem test_name +:+ ".test.wav") in
             copy2 test_file test_backup ;;;
             r <~ convert_wav_format ffmpeg test_file test_output ;;
             if fst r then
               stat test_file ;;;
               stat test_output ;;;
               unlink test_output ;;;
               if negb confirmed then sret None
               else
                 t <~ convert_loop ffmpeg ieee (Tally 0 0 []) ;;
                 sret (Some t)
             else sret None)%script m0
        end
    end.

End ConvertAllIeee.

(** ** convert_russian_wav_format.py *)

Module ConvertRussian.

Definition backup_dir : string := "backup_russian_wavs".

Definition backup_path (name : string) : string := joinpath backup_dir name.
Definition temp_path (name : string) : string :=
  joinpath wavs_dir (stem name +:+ ".temp.wav").
Definition test_path (name : string) : string :=
  joinpath wavs_dir (stem name +:+ ".test.wav").
Definition count (name : string) (r : bool * string) (t : tally) : tally :=
  if fst r then
    Tally (S (success_count t)) (failed_count t) (failed_files t)
  else
    Tally (success_count t) (S (failed_count t))
          (failed_files t ++ [(name, snd r)]).

Definition convert_one (ffmpeg : transcoder) (name : string) (t : tally)
  : script tally :=
  (let wav_file := joinpath wavs_dir name in
   let backup_file := joinpath backup_dir name in
   let temp_output := joinpath wavs_dir (stem name +:+ ".temp.wav") in
   r <~ backup_convert_swap ffmpeg wav_file backup_file temp_output ;;
   if fst r then
     sret (Tally (S (success_count t)) (failed_count t) (failed_files t))
   else
     sret (Tally (success_count t) (S (failed_count t))
                 (failed_files t ++ [(name, snd r)])))%script.

Definition convert_loop (ffmpeg : transcoder) (files : list string)
    (t : tally) : script tally :=
  for_each (convert_one ffmpeg) files t.

(** [main] on the listing [ru_files] of the files named [ru_*.wav]. *)
Definition main (ffmpeg : transcoder) (ru_files : list string)
    (confirmed : bool) : script (option tally) :=
  match ru_files with
  | [] => sret None
  | test_name :: _ =>
      (let test_file := joinpath wavs_dir test_name in
       let test_backup := joinpath backup_dir test_name in
       let test_output :=
         joinpath wavs_dir (stem test_name +:+ ".test.wav") in
       copy2 test_file test_backup ;;;
       r <~ convert_wav_format ffmpeg test_file test_output ;;
       if fst r then
         stat test_file ;;;
         stat test_output ;;;
         unlink test_output ;;;
         if negb confirmed then sret None
         else
           t <~ convert_loop ffmpeg ru_files (Tally 0 0 []) ;;
           sret (Some t)
       else sret None)%script
  end.

End ConvertRussian.

(** ** convert_chinese_wav_format.py *)

Module ConvertChinese.

Definition backup_dir : string := "backup_chinese_wavs".

Definition backup_path (name : string) : string := joinpath backup_dir name.
Definition temp_path (name : string) : string :=
  joinpath wavs_dir (with_suffix name ".tmp.wav").
Definition count (name : string) (r : bool * string) (t : nat * list string)
  : nat * list string :=
  if fst r then (S (fst t), snd t) else (fst t, snd t ++ [name]).

(** One iteration of the loop of [backup_and_convert]; the state is
    [(success_count, failed_files)]. *)
Definition convert_one (ffmpeg : transcoder) (name : string)
    (t : nat * list string) : script (nat * list string) :=
  (let wav_file := joinpath wavs_dir name in
   let backup_file := joinpath backup_dir name in
   let temp_file := joinpath wavs_dir (with_suffix name ".tmp.wav") in
   r <~ backup_convert_swap ffmpeg wav_file backup_file temp_file ;;
   if fst r then sret (S (fst t), snd t)
   else sret (fst t, snd t ++ [name]))%script.

Definition convert_loop (ffmpeg : transcoder) (files : list string)
    (t : nat * list string) : script (nat * list string) :=
  for_each (convert_one ffmpeg) files t.

(** [backup_and_convert] on the listing [chinese_files] of the files named
    [zh_*.wav]: every listed file is converted, without probing it. *)
Definition backup_and_convert (ffmpeg : transcoder)
    (chinese_files : list string) : script (option (nat * list string)) :=
  match chinese_files with
  | [] => sret None
  | _ =>
      (t <~ convert_loop ffmpeg chinese_files (O, []) ;; sret (Some t))%script
  end.

(** [test_conversion]: back up the first listed file, transcode it into a
    test path, look at the result and delete it.  The value is [None] when
    nothing is listed. *)
Definition test_path (name : string) : string :=
  joinpath wavs_dir (with_suffix name ".test.wav").



End ConvertChinese.

(** ** restore_original_formats.py *)

Module RestoreOriginal.

(** [restore_from_backup(backup_dir, target_dir)] on the listing
    [backup_files] of the backup directory (file names); [dir_exists] says
    whether that directory is there.  The value is [restored_count]. *)
Definition restore_one (backup_dir target_dir : string) (name : string)
    (restored_count : nat) : script nat :=
  (let backup_file := joinpath backup_dir name in
   let target_file := joinpath target_dir name in
   copy2 backup_file target_file ;;;
   sret (S restored_count))%script.

Definition restore_from_backup (backup_dir target_dir : string)
    (dir_exists : bool) (backup_files : list string) : script nat :=
  if negb dir_exists then sret O
  else for_each (restore_one backup_dir target_dir) backup_files O.

End RestoreOriginal.

(** ** investigate_all_formats.py: the detailed probe *)

Module InvestigateAll.

(** The two dictionaries the function can return: the format, or
    [{'error': str(e)}] (the message is represented by the exception). *)
Inductive info : Type :=
  | Format (f : wav_format)
  | Error (e : exn).

Fixpoint chunk_loop (fuel : nat) (file_size : Z) : handle (option info) :=
  match fuel with
  | O => out_of_fuel
  | S fuel' =>
      chunk_id <~ read 4 ;;
      if is_empty chunk_id then ret None
      else
        raw <~ read 4 ;;
        chunk_size <~ unpack_I raw ;;
        if bytes_eqb chunk_id (bstr "fmt ") then
          f <~ read_fmt_fields file_size ;;
          ret (Some (Format f))
        else
          seek_cur chunk_size ;;;
          chunk_loop fuel' file_size
  end.

Definition investigate_wav_format (wav : list byte) : outcome (option info) :=
  try_except
    (with_open wav (
       riff_header <~ read 4 ;;
       raw <~ read 4 ;;
       file_size <~ unpack_I raw ;;
       wave_header <~ read 4 ;;
       chunk_loop (S (length wav)) file_size))
    (fun e => Done (Some (Error e))).

End InvestigateAll.

(** ** create_audio_duration_csv.py: header reader and duration *)

Module CreateCsv.

(** The dictionary returned by [read_wav_header]: the format fields and,
    in the data-chunk branch only, the key ['duration']. *)
Record header_info : Type := HeaderInfo {
  format : wav_format;
  duration : option Q
}.

(** The [while True] loop.  [locals] holds the format variables when they
    have been assigned, which is what ['sample_rate' in locals()] tests;
    the only assignments are in the format branch, which returns, so every
    iteration passes [locals] on unchanged. *)
Fixpoint chunk_loop (fuel : nat) (file_size : Z) (locals : option wav_format)
  : handle (option header_info) :=
  match fuel with
  | O => out_of_fuel
  | S fuel' =>
      chunk_id <~ read 4 ;;
      if is_empty chunk_id then ret None
      else
        raw <~ read 4 ;;
        chunk_size <~ unpack_I raw ;;
        if bytes_eqb chunk_id (bstr "fmt ") then
          f <~ read_fmt_fields file_size ;;
          ret (Some (HeaderInfo f None))
        else if bytes_eqb chunk_id (bstr "data") then
          match locals with
          | Some f =>
              d <~ lift (truediv chunk_size
                           (sample_rate f * num_channels f
                            * (bits_per_sample f / 8))) ;;
              ret (Some (HeaderInfo f (Some d)))
          | None =>
              seek_cur chunk_size ;;;
              chunk_loop fuel' file_size locals
          end
        else
          seek_cur chunk_size ;;;
          chunk_loop fuel' file_size locals
  end.

Definition read_wav_header (wav : list byte) : outcome (option header_info) :=
  try_except
    (with_open wav (
       riff <~ read 4 ;;
       if negb (bytes_eqb riff (bstr "RIFF")) then ret None
       else
         raw <~ read 4 ;;
         file_size <~ unpack_I raw ;;
         wave <~ read 4 ;;
         if negb (bytes_eqb wave (bstr "WAVE")) then ret None
         else chunk_loop (S (length wav)) file_size None))
    (fun _ => Done None).

Definition get_audio_duration (wav : list byte) : outcome (option Q) :=
  try_except
    (header_info <~ read_wav_header wav ;;
     match header_info with
     | Some (HeaderInfo _ (Some d)) => Done (Some d)
     | _ =>
         header_info <~ read_wav_header wav ;;
         match header_info with
         | Some h =>
             let data_size := file_size (format h) - 44 in
             duration <~ truediv data_size (byte_rate (format h)) ;;
             Done (Some duration)
         | None => Done None
         end
     end)%outcome
    (fun _ => Done None).

(** [s.split('_')[0]]: what comes before the first underscore. *)
Fixpoint before_underscore (s : string) : string :=
  match s with
  | EmptyString => EmptyString
  | String c s' =>
      if Ascii.eqb c "_" then EmptyString
      else String c (before_underscore s')
  end.

(** [get_audio_duration] applied to a path: [open] raises inside the [try]
    block of the header reader when the file is missing. *)
Definition duration_at (m : fs) (wav_file : string) : option Q :=
  match m !! wav_file with
  | Some f =>
      match get_audio_duration (content f) with
      | Done d => d
      | _ => None
      end
  | None => None
  end.

(** What [create_audio_duration_csv] builds: the rows handed to the CSV
    writer, in order, and its statistics.  [show] stands for the
    formatting [f"{duration:.6f}"]. *)
Record report : Type := Report {
  rows : list (string * string * string);
  processed_files : nat;
  failed_files : nat;
  durations : list Q;
  lang_counts : gmap string nat
}.

Definition header_row : string * string * string :=
  ("file_id", "duration_seconds", "language").

Definition csv_row (show : Q -> string) (m : fs) (name : string) (r : report)
  : report :=
  let file_id := stem name in
  let language := before_underscore (stem name) in
  match duration_at m (wav_path name) with
  | Some d =>
      Report (rows r ++ [(file_id, show d, language)])
             (S (processed_files r)) (failed_files r)
             (durations r ++ [d])
             (<[language := (default O (lang_counts r !! language) + 1)%nat]>
                (lang_counts r))
  | None =>
      Report (rows r) (processed_files r) (S (failed_files r))
             (durations r) (lang_counts r)
  end.

(** The data row written for a name, if its duration is found. *)
Definition data_row (show : Q -> string) (m : fs) (name : string)
  : option (string * string * string) :=
  match duration_at m (wav_path name) with
  | Some d => Some (stem name, show d, before_underscore (stem name))
  | None => None
  end.

Definition create_audio_duration_csv (show : Q -> string) (m : fs)
    (wav_files : list string) : option report :=
  match wav_files with
  | [] => None
  | _ =>
      Some (fold_left (fun r name => csv_row show m name r) wav_files
              (Report [header_row] O O [] ∅))
  end.

End CreateCsv.

(** ** investigate_all_formats.py: [main] *)

Module InvestigateAllMain.

(** [main] has no handler of its own: an exception raised by one of its
    statements ends the program.  Beyond what a probe could let through,
    these are the membership test on [None], the first element of an empty
    list and a division by zero. *)
Inductive error : Type :=
  | TypeError
  | IndexError
  | DivisionByZero
  | Propagated (e : exn).

Inductive run (A : Type) : Type :=
  | Finished (a : A)
  | Stopped (e : error)
  | Unfinished.
Arguments Finished {A} a.
Arguments Stopped {A} e.
Arguments Unfinished {A}.

Definition rbind {A B : Type} (r : run A) (k : A -> run B) : run B :=
  match r with
  | Finished a => k a
  | Stopped e => Stopped e
  | Unfinished => Unfinished
  end.

(** The probe applied to a path: [open] raises inside the [try] block when
    the file is missing, and the handler returns the error dictionary. *)
Definition format_info_at (m : fs) (wav_file : string)
  : outcome (option InvestigateAll.info) :=
  match m !! wav_file with
  | Some f => InvestigateAll.investigate_wav_format (content f)
  | None => Done (Some (InvestigateAll.Error FileNotFoundError))
  end.

(** [format_info = investigate_wav_format(...)] followed by the test
    ['error' in format_info], which raises [TypeError] on [None]. *)
Definition in_error (format_info : outcome (option InvestigateAll.info))
  : run InvestigateAll.info :=
  match format_info with
  | Done (Some i) => Finished i
  | Done None => Stopped TypeError
  | Raised e => Stopped (Propagated e)
  | NoFuel => Unfinished
  end.

(** [wav_file.stem.split('_')[0]]. *)
Definition lang_code (name : string) : string :=
  CreateCsv.before_underscore (stem name).

(** [lang_files], a [defaultdict(list)]: the keys in insertion order, each
    with its list.  [append_to] is [lang_files[lang_code].append(wav_file)]
    and [get] is [lang_files[lang_code]], which yields the empty list for a
    missing key. *)
Fixpoint append_to (lang_code wav_file : string)
    (lang_files : list (string * list string)) : list (string * list string) :=
  match lang_files with
  | [] => [(lang_code, [wav_file])]
  | (l, files) :: rest =>
      if decide (l = lang_code) then (l, files ++ [wav_file]) :: rest
      else (l, files) :: append_to lang_code wav_file rest
  end.

Fixpoint get (lang_code : string) (lang_files : list (string * list string))
  : list string :=
  match lang_files with
  | [] => []
  | (l, files) :: rest =>
      if decide (l = lang_code) then files else get lang_code rest
  end.

Definition classify (wav_files : list string) : list (string * list string) :=
  fold_left (fun lang_files wav_file =>
               append_to (lang_code wav_file) wav_file lang_files)
            wav_files [].

(** [sorted(lang_files.keys())]: strings are ordered by their characters'
    codes. *)
Definition str_le (a b : string) : Prop := String.leb a b = true.

#[global] Instance str_le_dec : RelDecision str_le.
Proof. intros a b. unfold str_le. apply _. Defined.

Definition sorted_keys (lang_files : list (string * list string))
  : list string :=
  merge_sort str_le (lang_files.*1).

(** The loop over one sample file per language; its branches only print. *)
Fixpoint sample_loop (m : fs) (lang_files : list (string * list string))
    (langs : list string) : run unit :=
  match langs with
  | [] => Finished tt
  | lang_code :: rest =>
      match get lang_code lang_files with
      | [] => Stopped IndexError
      | sample_file :: _ =>
          rbind (in_error (format_info_at m (wav_path sample_file)))
                (fun _ => sample_loop m lang_files rest)
      end
  end.

(** [lang_format_counts], a [defaultdict] of [defaultdict(int)], and
    [lang_error_counts], a [defaultdict(int)].  Reading a missing key gives
    the default; that a read also stores the default is left out, a stored
    default reading back like a missing key. *)
Record counts : Type := Counts {
  lang_format_counts : gmap string (gmap Z nat);
  lang_error_counts : gmap string nat
}.

Definition format_count (c : counts) (lang_code : string) (audio_format : Z)
  : nat :=
  default O (default ∅ (lang_format_counts c !! lang_code) !! audio_format).

Definition error_count (c : counts) (lang_code : string) : nat :=
  default O (lang_error_counts c !! lang_code).

(** The two [+= 1] of the distribution loop. *)
Definition tally_one (lang_code : string) (format_info : InvestigateAll.info)
    (c : counts) : counts :=
  match format_info with
  | InvestigateAll.Error _ =>
      Counts (lang_format_counts c)
             (<[lang_code := S (error_count c lang_code)]>
                (lang_error_counts c))
  | InvestigateAll.Format f =>
      Counts (<[lang_code :=
                  <[audio_format f :=
                      S (format_count c lang_code (audio_format f))]>
                    (default ∅ (lang_format_counts c !! lang_code))]>
                (lang_format_counts c))
             (lang_error_counts c)
  end.

Fixpoint files_loop (m : fs) (lang_code : string) (files : list string)
    (c : counts) : run counts :=
  match files with
  | [] => Finished c
  | wav_file :: rest =>
      rbind (in_error (format_info_at m (wav_path wav_file)))
            (fun format_info =>
               files_loop m lang_code rest (tally_one lang_code format_info c))
  end.

(** [for lang_code, files in lang_files.items()]. *)
Fixpoint langs_loop (m : fs) (lang_files : list (string * list string))
    (c : counts) : run counts :=
  match lang_files with
  | [] => Finished c
  | (lang_code, files) :: rest =>
      rbind (files_loop m lang_code files c) (langs_loop m rest)
  end.

(** The summary loop prints; what can end it is [count / total_files], once
    for every format counted for the language. *)
Fixpoint percentages (total_files : nat) (items : list (Z * nat)) : run unit :=
  match items with
  | [] => Finished tt
  | _ :: rest =>
      match total_files with
      | O => Stopped DivisionByZero
      | S _ => percentages total_files rest
      end
  end.

Fixpoint summary_loop (lang_files : list (string * list string)) (c : counts)
    (langs : list string) : run unit :=
  match langs with
  | [] => Finished tt
  | lang_code :: rest =>
      let total_files := length (get lang_code lang_files) in
      rbind (percentages total_files
               (map_to_list (default ∅ (lang_format_counts c !! lang_code))))
            (fun _ => summary_loop lang_files c rest)
  end.

(** The three flags of the last loop. *)
Definition has_ieee (c : counts) (lang_code : string) : bool :=
  bool_decide (0 < format_count c lang_code 3)%nat.

Definition has_other (c : counts) (lang_code : string) : bool :=
  existsb (fun fmt => negb (fmt =? 1) && negb (fmt =? 3))
          (map fst (map_to_list
                      (default ∅ (lang_format_counts c !! lang_code)))).

Definition has_errors (c : counts) (lang_code : string) : bool :=
  bool_decide (0 < error_count c lang_code)%nat.

Definition problematic (c : counts) (langs : list string)
  : list (string * bool * bool * bool) :=
  omap (fun lang_code =>
          if has_ieee c lang_code || has_other c lang_code
             || has_errors c lang_code
          then Some (lang_code, has_ieee c lang_code, has_other c lang_code,
                     has_errors c lang_code)
          else None)
       langs.

(** The variables of [main] when it ends. *)
Record survey : Type := Survey {
  lang_files : list (string * list string);
  tallies : counts;
  problematic_langs : list (string * bool * bool * bool)
}.

Definition main (m : fs) (wav_files : list string) : run (option survey) :=
  match wav_files with
  | [] => Finished None
  | _ =>
      let lang_files := classify wav_files in
      rbind (sample_loop m lang_files (sorted_keys lang_files)) (fun _ =>
      rbind (langs_loop m lang_files (Counts ∅ ∅)) (fun c =>
      rbind (summary_loop lang_files c (sorted_keys lang_files)) (fun _ =>
      Finished
        (Some (Survey lang_files c
                 (problematic c (sorted_keys lang_files)))))))
  end.

(** What the probe finds for a listed name: the format tag, or an error
    dictionary. *)
Definition tag_at (m : fs) (name : string) : option Z :=
  match format_info_at m (wav_path name) with
  | Done (Some (InvestigateAll.Format f)) => Some (audio_format f)
  | _ => None
  end.

Definition error_at (m : fs) (name : string) : bool :=
  match format_info_at m (wav_path name) with
  | Done (Some (InvestigateAll.Error _)) => true
  | _ => false
  end.

End InvestigateAllMain.

(** ** Auxiliary notions used in the statements *)

(** Whether the two fields of a chunk header can be read in full, that is,
    whether at least eight bytes are left. *)
Definition header_read (s : list byte) : bool :=
  Nat.eqb (length (take 4 (drop 4 s))) 4.

(** Byte strings made of complete chunks that the walk skips: any tag but
    the format tag, a length field, and a payload of exactly that length. *)
Inductive skipped_chunks : list byte -> Prop :=
  | skipped_nil : skipped_chunks []
  | skipped_cons (id sz payload rest : list byte) :
      length id = 4%nat -> id <> bstr "fmt " ->
      length sz = 4%nat -> le_value sz = Z.of_nat (length payload) ->
      skipped_chunks rest ->
      skipped_chunks (id ++ sz ++ payload ++ rest).

(** The file system on which the tool runs: the backup has been made. *)
Definition backed_up (backup_file : string) (f : file) (m : gmap string file)
  : gmap string file :=
  <[backup_file := f]> m.

(** The exact duration as the specification words it:
    [data_chunk_len / (sample_rate * channel_count * (bits_per_sample / 8))]. *)
Definition exact_duration (data_chunk_len sample_rate channel_count
    bits_per_sample : Z) : Q :=
  (inject_Z data_chunk_len
   / inject_Z (sample_rate * channel_count * (bits_per_sample / 8)))%Q.

(** "A data chunk was located", in the words of the specification: walking
    the chunks behind the outer header by their declared lengths comes upon
    a chunk tagged [data]. *)
Fixpoint data_chunk_in (fuel : nat) (s : list byte) : bool :=
  match fuel with
  | O => false
  | S fuel' =>
      if header_read s then
        if bytes_eqb (take 4 s) (bstr "data") then true
        else data_chunk_in fuel'
               (drop (Z.to_nat (le_value (take 4 (drop 4 s)))) (drop 8 s))
      else false
  end.

Definition data_chunk_located (wav : list byte) : bool :=
  data_chunk_in (S (length wav)) (drop 12 wav).

(** The names listed in [failed_files]. *)
Definition failed_names (t : tally) : list string := map fst (failed_files t).

(** Every stored format count is positive: a key of a counter of
    [investigate_all_formats] has been counted at least once. *)
Definition positive_counts (c : InvestigateAllMain.counts) : Prop :=
  forall l per fmt k,
    InvestigateAllMain.lang_format_counts c !! l = Some per ->
    per !! fmt = Some k -> (0 < k)%nat.

(** ** Concrete files and tools *)

Definition riff_prefix (riff_size : Z) : list byte :=
  bstr "RIFF" ++ pack_I riff_size ++ bstr "WAVE".

Definition fmt_chunk (audio_format channels rate byte_rate align bits : Z)
  : list byte :=
  bstr "fmt " ++ pack_I 16 ++ pack_H audio_format ++ pack_H channels
    ++ pack_I rate ++ pack_I byte_rate ++ pack_H align ++ pack_H bits.

Definition data_chunk (payload : list byte) : list byte :=
  bstr "data" ++ pack_I (Z.of_nat (length payload)) ++ payload.

(** A canonical file: 16-bit mono PCM at 22050 Hz with 44 bytes of samples;
    the size field of its outer header is the file length minus 8. *)
Definition sample_wav : list byte :=
  riff_prefix 80 ++ fmt_chunk 1 1 22050 44100 2 16
    ++ data_chunk (replicate 44 x00).

(** A 32-bit IEEE float file. *)
Definition ieee_wav : list byte :=
  riff_prefix 44 ++ fmt_chunk 3 1 22050 88200 4 32
    ++ data_chunk (replicate 8 x00).

(** [sample_wav] cut off before its data chunk. *)
Definition truncated_wav : list byte :=
  riff_prefix 80 ++ fmt_chunk 1 1 22050 44100 2 16.




(** A file with neither magic tag, and a float format chunk at offset 12. *)
Definition bad_magic_wav : list byte :=
  bstr "XXXX" ++ pack_I 36 ++ bstr "YYYY" ++ fmt_chunk 3 1 22050 88200 4 32.

(** A stream cut three bytes into a chunk header. *)
Definition short_wav : list byte := riff_prefix 7 ++ bstr "LIS".

(** An unknown chunk announcing 1000 bytes of which 4 are present. *)
Definition oversized_wav : list byte :=
  riff_prefix 16 ++ bstr "LIST" ++ pack_I 1000 ++ bstr "abcd".

(** A complete unknown chunk. *)
Definition list_chunk : list byte := bstr "LIST" ++ pack_I 4 ++ bstr "abcd".

(** A tool that fails on [a.wav], leaving a partial output behind, and
    converts everything else. *)
Definition picky_tool : transcoder :=
  fun _ input _ =>
    if String.eqb input "raw/wavs/a.wav"
    then ToolRun false "boom" (Written (File (bstr "partial") 7))
    else ToolRun true "" (Written (File sample_wav 200)).

(** A tool that always exits with status zero and writes a float file. *)
Definition sloppy_tool : transcoder :=
  fun _ _ _ => ToolRun true "" (Written (File ieee_wav 200)).

(** A tool that reports success without writing anything. *)
Definition silent_tool : transcoder :=
  fun _ _ _ => ToolRun true "" Untouched.

(** A tool that always converts. *)
Definition good_tool : transcoder :=
  fun _ _ _ => ToolRun true "" (Written (File sample_wav 200)).

(** Two float files in the audio directory. *)
Definition two_floats : gmap string file :=
  <["raw/wavs/a.wav" := File ieee_wav 100]>
    (<["raw/wavs/b.wav" := File ieee_wav 101]> ∅).

(** A float file and a canonical file. *)
Definition float_and_pcm : gmap string file :=
  <["raw/wavs/a.wav" := File ieee_wav 100]>
    (<["raw/wavs/b.wav" := File sample_wav 101]> ∅).

(** A canonical file with a Chinese name. *)
Definition chinese_pcm : gmap string file :=
  <["raw/wavs/zh_1.wav" := File sample_wav 100]> ∅.

(** A tool that fails on [x.temp.wav] and converts everything else. *)
Definition fussy_tool : transcoder :=
  fun _ input _ =>
    if String.eqb input "raw/wavs/x.temp.wav"
    then ToolRun false "boom" Untouched
    else ToolRun true "" (Written (File sample_wav 200)).

(** A float file [x.wav] and, beside it, a float file that bears the name
    the loops give the temporary output of [x.wav]. *)
Definition two_takes : gmap string file :=
  <["raw/wavs/x.temp.wav" := File ieee_wav 100]>
    (<["raw/wavs/x.wav" := File ieee_wav 101]> ∅).

(** A conversion step that removes its input, leaves a partial output and
    reports failure. *)
Definition wrecking_step (input output : string) : script (bool * string) :=
  fun m =>
    Returned (false, "boom"%string)
      (<[output := File (bstr "partial") 7]> (delete input m)).

(** [float_and_pcm] with a file at the path of the test output of [a.wav]. *)
Definition with_test_name : gmap string file :=
  <["raw/wavs/a.test.wav" := File sample_wav 102]> float_and_pcm.


(** Three listed files in two languages: a canonical German file, a float
    Russian file and a Russian file cut inside a chunk header. *)
Definition mixed_languages : gmap string file :=
  <["raw/wavs/de_1.wav" := File sample_wav 100]>
    (<["raw/wavs/ru_1.wav" := File ieee_wav 101]>
       (<["raw/wavs/ru_2.wav" := File short_wav 102]> ∅)).

(** * Properties *)

(** ** The chunk walk always ends *)

Section Walk.

Lemma is_empty_take4 (s : list byte) : is_empty (take 4 s) = is_empty s.
Proof. destruct s; reflexivity. Qed.

Lemma drop4_drop4 (s : list byte) : drop 4 (drop 4 s) = drop 8 s.
Proof. rewrite drop_drop. reflexivity. Qed.

Lemma header_read_true (s : list byte) :
  header_read s = true <-> (8 <= length s)%nat.
Proof.
  unfold header_read. rewrite Nat.eqb_eq, length_take, length_drop. lia.
Qed.

Lemma ieee_step (k : nat) (s : list byte) :
  ConvertAllIeee.chunk_loop (S k) s =
  if is_empty s then Done (None, [])
  else if header_read s then
    if bytes_eqb (take 4 s) (bstr "fmt ") then
      (raw <~ read 2 ;; audio_format <~ unpack_H raw ;;
       ret (Some audio_format)) (drop 8 s)
    else
      ConvertAllIeee.chunk_loop k
        (drop (Z.to_nat (le_value (take 4 (drop 4 s)))) (drop 8 s))
  else Raised StructError.
Proof.
  unfold header_read. cbn [ConvertAllIeee.chunk_loop].
  unfold bind at 1, read at 1. rewrite is_empty_take4.
  destruct (is_empty s) eqn:He.
  { destruct s; [reflexivity | discriminate]. }
  unfold bind at 1, read at 1. unfold bind at 1, unpack_I, unpack.
  rewrite drop4_drop4.
  destruct (Nat.eqb (length (take 4 (drop 4 s))) 4); [|reflexivity].
  unfold ret at 1.
  destruct (bytes_eqb (take 4 s) (bstr "fmt ")); reflexivity.
Qed.

Lemma all_step (k : nat) (fsz : Z) (s : list byte) :
  InvestigateAll.chunk_loop (S k) fsz s =
  if is_empty s then Done (None, [])
  else if header_read s then
    if bytes_eqb (take 4 s) (bstr "fmt ") then
      (f <~ read_fmt_fields fsz ;; ret (Some (InvestigateAll.Format f)))
        (drop 8 s)
    else
      InvestigateAll.chunk_loop k fsz
        (drop (Z.to_nat (le_value (take 4 (drop 4 s)))) (drop 8 s))
  else Raised StructError.
Proof.
  unfold header_read. cbn [InvestigateAll.chunk_loop].
  unfold bind at 1, read at 1. rewrite is_empty_take4.
  destruct (is_empty s) eqn:He.
  { destruct s; [reflexivity | discriminate]. }
  unfold bind at 1, read at 1. unfold bind at 1, unpack_I, unpack.
  rewrite drop4_drop4.
  destruct (Nat.eqb (length (take 4 (drop 4 s))) 4); [|reflexivity].
  unfold ret at 1.
  destruct (bytes_eqb (take 4 s) (bstr "fmt ")); reflexivity.
Qed.

Lemma csv_step (k : nat) (fsz : Z) (locals : option wav_format)
    (s : list byte) :
  CreateCsv.chunk_loop (S k) fsz locals s =
  if is_empty s then Done (None, [])
  else if header_read s then
    let chunk_size := le_value (take 4 (drop 4 s)) in
    if bytes_eqb (take 4 s) (bstr "fmt ") then
      (f <~ read_fmt_fields fsz ;;
       ret (Some (CreateCsv.HeaderInfo f None))) (drop 8 s)
    else if bytes_eqb (take 4 s) (bstr "data") then
      match locals with
      | Some f =>
          (d <~ lift (truediv chunk_size
                        (sample_rate f * num_channels f
                         * (bits_per_sample f / 8))) ;;
           ret (Some (CreateCsv.HeaderInfo f (Some d)))) (drop 8 s)
      | None =>
          CreateCsv.chunk_loop k fsz locals
            (drop (Z.to_nat chunk_size) (drop 8 s))
      end
    else
      CreateCsv.chunk_loop k fsz locals
        (drop (Z.to_nat chunk_size) (drop 8 s))
  else Raised StructError.
Proof.
  unfold header_read. cbn [CreateCsv.chunk_loop].
  unfold bind at 1, read at 1. rewrite is_empty_take4.
  destruct (is_empty s) eqn:He.
  { destruct s; [reflexivity | discriminate]. }
  unfold bind at 1, read at 1. unfold bind at 1, unpack_I, unpack.
  rewrite drop4_drop4.
  destruct (Nat.eqb (length (take 4 (drop 4 s))) 4); [|reflexivity].
  unfold ret at 1. cbv zeta.
  destruct (bytes_eqb (take 4 s) (bstr "fmt ")); [reflexivity|].
  destruct (bytes_eqb (take 4 s) (bstr "data")); [|reflexivity].
  destruct locals; reflexivity.
Qed.

(** Reading a format chunk body either yields the record or raises. *)
Lemma read_fmt_fields_cases (fsz : Z) (s : list byte) :
  (exists f s', read_fmt_fields fsz s = Done (f, s') /\ file_size f = fsz)
  \/ read_fmt_fields fsz s = Raised StructError.
Proof.
  unfold read_fmt_fields, bind, read, unpack_H, unpack_I, unpack, ret, raise.
  repeat match goal with
         | |- context [Nat.eqb ?a ?b] => destruct (Nat.eqb a b)
         end; eauto.
Qed.

Lemma skip_shrinks (n : nat) (s : list byte) (k : nat) :
  (8 <= length s)%nat -> (length s < S k)%nat ->
  (length (drop n (drop 8 s)) < k)%nat.
Proof. rewrite !length_drop. lia. Qed.

Lemma ieee_fuel (k : nat) : forall s : list byte,
  (length s < k)%nat -> ConvertAllIeee.chunk_loop k s <> NoFuel.
Proof.
  induction k as [|k IH]; intros s Hk; [lia|].
  rewrite ieee_step. destruct (is_empty s); [discriminate|].
  destruct (header_read s) eqn:Hh; [|discriminate].
  apply header_read_true in Hh.
  destruct (bytes_eqb _ _).
  - unfold bind, read, unpack_H, unpack, ret, raise.
    destruct (Nat.eqb _ _); discriminate.
  - apply IH, skip_shrinks; assumption.
Qed.

Lemma all_fuel (k : nat) (fsz : Z) : forall s : list byte,
  (length s < k)%nat -> InvestigateAll.chunk_loop k fsz s <> NoFuel.
Proof.
  induction k as [|k IH]; intros s Hk; [lia|].
  rewrite all_step. destruct (is_empty s); [discriminate|].
  destruct (header_read s) eqn:Hh; [|discriminate].
  apply header_read_true in Hh.
  destruct (bytes_eqb _ _).
  - unfold bind at 1.
    destruct (read_fmt_fields_cases fsz (drop 8 s)) as [(f & s' & -> & _) | ->];
      discriminate.
  - apply IH, skip_shrinks; assumption.
Qed.

Lemma csv_fuel (k : nat) (fsz : Z) (locals : option wav_format) :
  forall s : list byte,
  (length s < k)%nat -> CreateCsv.chunk_loop k fsz locals s <> NoFuel.
Proof.
  induction k as [|k IH]; intros s Hk; [lia|].
  rewrite csv_step. destruct (is_empty s); [discriminate|].
  destruct (header_read s) eqn:Hh; [|discriminate].
  apply header_read_true in Hh. cbv zeta.
  destruct (bytes_eqb _ _).
  - unfold bind at 1.
    destruct (read_fmt_fields_cases fsz (drop 8 s)) as [(f & s' & -> & _) | ->];
      discriminate.
  - destruct (bytes_eqb _ _); [destruct locals|].
    + unfold bind, lift, truediv, obind, ret.
      destruct (Z.eqb _ _); discriminate.
    + apply IH, skip_shrinks; assumption.
    + apply IH, skip_shrinks; assumption.
Qed.

(** The probes, with the reads of the outer header carried out. *)
Lemma ieee_top (wav : list byte) :
  ConvertAllIeee.investigate_wav_format wav =
  if header_read wav then
    match ConvertAllIeee.chunk_loop (S (length wav)) (drop 12 wav) with
    | Done (r, _) => Done r
    | Raised _ => Done None
    | NoFuel => NoFuel
    end
  else Done None.
Proof.
  unfold ConvertAllIeee.investigate_wav_format, with_open, header_read.
  unfold bind at 1, read at 1. unfold bind at 1, read at 1.
  unfold bind at 1, unpack_I, unpack.
  destruct (Nat.eqb (length (take 4 (drop 4 wav))) 4); [|reflexivity].
  unfold ret at 1. unfold bind at 1, read at 1.
  rewrite !drop_drop. change (4 + (4 + 4))%nat with 12%nat.
  destruct (ConvertAllIeee.chunk_loop _ _) as [[r s']| |]; reflexivity.
Qed.

Lemma all_top (wav : list byte) :
  InvestigateAll.investigate_wav_format wav =
  if header_read wav then
    match InvestigateAll.chunk_loop (S (length wav))
            (le_value (take 4 (drop 4 wav))) (drop 12 wav) with
    | Done (r, _) => Done r
    | Raised e => Done (Some (InvestigateAll.Error e))
    | NoFuel => NoFuel
    end
  else Done (Some (InvestigateAll.Error StructError)).
Proof.
  unfold InvestigateAll.investigate_wav_format, with_open, header_read.
  unfold bind at 1, read at 1. unfold bind at 1, read at 1.
  unfold bind at 1, unpack_I, unpack.
  destruct (Nat.eqb (length (take 4 (drop 4 wav))) 4); [|reflexivity].
  unfold ret at 1. unfold bind at 1, read at 1.
  rewrite !drop_drop. change (4 + (4 + 4))%nat with 12%nat.
  destruct (InvestigateAll.chunk_loop _ _ _) as [[r s']| |]; reflexivity.
Qed.

Lemma csv_top (wav : list byte) :
  CreateCsv.read_wav_header wav =
  if negb (bytes_eqb (take 4 wav) (bstr "RIFF")) then Done None
  else if header_read wav then
    if negb (bytes_eqb (take 4 (drop 8 wav)) (bstr "WAVE")) then Done None
    else
      match CreateCsv.chunk_loop (S (length wav))
              (le_value (take 4 (drop 4 wav))) None (drop 12 wav) with
      | Done (r, _) => Done r
      | Raised _ => Done None
      | NoFuel => NoFuel
      end
  else Done None.
Proof.
  unfold CreateCsv.read_wav_header, with_open, header_read.
  unfold bind at 1, read at 1.
  destruct (negb (bytes_eqb (take 4 wav) (bstr "RIFF"))); [reflexivity|].
  unfold bind at 1, read at 1.
  unfold bind at 1, unpack_I, unpack.
  destruct (Nat.eqb (length (take 4 (drop 4 wav))) 4); [|reflexivity].
  unfold ret at 1. unfold bind at 1, read at 1.
  rewrite !drop_drop. change (4 + 4)%nat with 8%nat.
  destruct (negb (bytes_eqb (take 4 (drop 8 wav)) (bstr "WAVE")));
    [reflexivity|].
  change (4 + 8)%nat with 12%nat.
  destruct (CreateCsv.chunk_loop _ _ _ _) as [[r s']| |]; reflexivity.
Qed.

Lemma drop12_fuel (wav : list byte) :
  (length (drop 12 wav) < S (length wav))%nat.
Proof. rewrite length_drop. lia. Qed.

(** Once sufficient, the loop budget does not influence the result. *)
Lemma ieee_fuel_irrel (k1 : nat) : forall (k2 : nat) (s : list byte),
  (length s < k1)%nat -> (length s < k2)%nat ->
  ConvertAllIeee.chunk_loop k1 s = ConvertAllIeee.chunk_loop k2 s.
Proof.
  induction k1 as [|k1 IH]; intros k2 s H1 H2; [lia|].
  destruct k2 as [|k2]; [lia|].
  rewrite !ieee_step. destruct (is_empty s); [reflexivity|].
  destruct (header_read s) eqn:Hh; [|reflexivity].
  apply header_read_true in Hh.
  destruct (bytes_eqb _ _); [reflexivity|].
  apply IH; apply skip_shrinks; assumption.
Qed.

Lemma all_fuel_irrel (fsz : Z) (k1 : nat) : forall (k2 : nat) (s : list byte),
  (length s < k1)%nat -> (length s < k2)%nat ->
  InvestigateAll.chunk_loop k1 fsz s = InvestigateAll.chunk_loop k2 fsz s.
Proof.
  induction k1 as [|k1 IH]; intros k2 s H1 H2; [lia|].
  destruct k2 as [|k2]; [lia|].
  rewrite !all_step. destruct (is_empty s); [reflexivity|].
  destruct (header_read s) eqn:Hh; [|reflexivity].
  apply header_read_true in Hh.
  destruct (bytes_eqb _ _); [reflexivity|].
  apply IH; apply skip_shrinks; assumption.
Qed.

Lemma csv_fuel_irrel (fsz : Z) (locals : option wav_format) (k1 : nat) :
  forall (k2 : nat) (s : list byte),
  (length s < k1)%nat -> (length s < k2)%nat ->
  CreateCsv.chunk_loop k1 fsz locals s = CreateCsv.chunk_loop k2 fsz locals s.
Proof.
  induction k1 as [|k1 IH]; intros k2 s H1 H2; [lia|].
  destruct k2 as [|k2]; [lia|].
  rewrite !csv_step. destruct (is_empty s); [reflexivity|].
  destruct (header_read s) eqn:Hh; [|reflexivity].
  apply header_read_true in Hh. cbv zeta.
  destruct (bytes_eqb _ _); [reflexivity|].
  destruct (bytes_eqb _ _); [destruct locals; [reflexivity|]|];
    apply IH; apply skip_shrinks; assumption.
Qed.

(** A chunk header followed by the rest of the stream. *)
Lemma header_parts (id sz rest : list byte) :
  length id = 4%nat -> length sz = 4%nat ->
  is_empty (id ++ sz ++ rest) = false
  /\ header_read (id ++ sz ++ rest) = true
  /\ take 4 (id ++ sz ++ rest) = id
  /\ take 4 (drop 4 (id ++ sz ++ rest)) = sz
  /\ drop 8 (id ++ sz ++ rest) = rest.
Proof.
  intros Hid Hsz.
  assert (E4 : drop 4 (id ++ sz ++ rest) = sz ++ rest)
    by (apply drop_app_length'; congruence).
  assert (E8 : drop 8 (id ++ sz ++ rest) = rest).
  { change 8%nat with (4 + 4)%nat. rewrite <- drop_drop, E4.
    apply drop_app_length'; congruence. }
  repeat split.
  - destruct id; [discriminate | reflexivity].
  - apply header_read_true. rewrite !length_app. lia.
  - apply take_app_length'; congruence.
  - rewrite E4. apply take_app_length'; congruence.
  - exact E8.
Qed.

Lemma bytes_eqb_false (x y : list byte) : x <> y -> bytes_eqb x y = false.
Proof. intros H. unfold bytes_eqb. apply bool_decide_eq_false. exact H. Qed.

Lemma bytes_eqb_true (x y : list byte) : bytes_eqb x y = true <-> x = y.
Proof. unfold bytes_eqb. apply bool_decide_eq_true. Qed.

Lemma ieee_skip (pre : list byte) :
  skipped_chunks pre ->
  forall (tail : list byte) (k : nat),
  (length (pre ++ tail) < k)%nat ->
  ConvertAllIeee.chunk_loop k (pre ++ tail) = ConvertAllIeee.chunk_loop k tail.
Proof.
  induction 1 as [|id sz payload rest Hid Hne Hsz Hlen _ IH];
    intros tail k Hk; [reflexivity|].
  destruct k as [|k]; [lia|].
  rewrite <- !app_assoc.
  destruct (header_parts id sz (payload ++ rest ++ tail) Hid Hsz)
    as (He & Hh & Ht & Hs & Hd).
  rewrite ieee_step, He, Hh, Ht, Hs, Hd, (bytes_eqb_false _ _ Hne).
  rewrite Hlen, Nat2Z.id, drop_app_length.
  rewrite !length_app in Hk.
  rewrite IH by (rewrite length_app; lia).
  apply ieee_fuel_irrel; lia.
Qed.

Lemma all_skip (fsz : Z) (pre : list byte) :
  skipped_chunks pre ->
  forall (tail : list byte) (k : nat),
  (length (pre ++ tail) < k)%nat ->
  InvestigateAll.chunk_loop k fsz (pre ++ tail)
  = InvestigateAll.chunk_loop k fsz tail.
Proof.
  induction 1 as [|id sz payload rest Hid Hne Hsz Hlen _ IH];
    intros tail k Hk; [reflexivity|].
  destruct k as [|k]; [lia|].
  rewrite <- !app_assoc.
  destruct (header_parts id sz (payload ++ rest ++ tail) Hid Hsz)
    as (He & Hh & Ht & Hs & Hd).
  rewrite all_step, He, Hh, Ht, Hs, Hd, (bytes_eqb_false _ _ Hne).
  rewrite Hlen, Nat2Z.id, drop_app_length.
  rewrite !length_app in Hk.
  rewrite IH by (rewrite length_app; lia).
  apply all_fuel_irrel; lia.
Qed.

Lemma short_header (s : list byte) :
  (0 < length s < 8)%nat -> is_empty s = false /\ header_read s = false.
Proof.
  intros H. split.
  - destruct s; [simpl in H; lia | reflexivity].
  - destruct (header_read s) eqn:E; [|reflexivity].
    apply header_read_true in E. lia.
Qed.

Lemma ieee_short (k : nat) (s : list byte) :
  (0 < length s < 8)%nat ->
  ConvertAllIeee.chunk_loop (S k) s = Raised StructError.
Proof.
  intros H. destruct (short_header s H) as [He Hh].
  rewrite ieee_step, He, Hh. reflexivity.
Qed.

Lemma all_short (k : nat) (fsz : Z) (s : list byte) :
  (0 < length s < 8)%nat ->
  InvestigateAll.chunk_loop (S k) fsz s = Raised StructError.
Proof.
  intros H. destruct (short_header s H) as [He Hh].
  rewrite all_step, He, Hh. reflexivity.
Qed.

Lemma csv_short (k : nat) (fsz : Z) (locals : option wav_format)
    (s : list byte) :
  (0 < length s < 8)%nat ->
  CreateCsv.chunk_loop (S k) fsz locals s = Raised StructError.
Proof.
  intros H. destruct (short_header s H) as [He Hh].
  rewrite csv_step, He, Hh. reflexivity.
Qed.

(** A skipped chunk whose declared length is at least what is left: the
    seek lands at or past end-of-file and the next read is empty. *)
Lemma oversize_drop (sz payload : list byte) :
  Z.of_nat (length payload) <= le_value sz ->
  drop (Z.to_nat (le_value sz)) payload = [].
Proof. intros H. apply drop_ge. lia. Qed.

Lemma ieee_oversize (k : nat) (id sz payload : list byte) :
  length id = 4%nat -> id <> bstr "fmt " -> length sz = 4%nat ->
  Z.of_nat (length payload) <= le_value sz ->
  ConvertAllIeee.chunk_loop (S (S k)) (id ++ sz ++ payload) = Done (None, []).
Proof.
  intros Hid Hne Hsz Hlen.
  destruct (header_parts id sz payload Hid Hsz) as (He & Hh & Ht & Hs & Hd).
  rewrite ieee_step, He, Hh, Ht, Hs, Hd, (bytes_eqb_false _ _ Hne).
  rewrite oversize_drop by assumption. apply ieee_step.
Qed.

Lemma all_oversize (k : nat) (fsz : Z) (id sz payload : list byte) :
  length id = 4%nat -> id <> bstr "fmt " -> length sz = 4%nat ->
  Z.of_nat (length payload) <= le_value sz ->
  InvestigateAll.chunk_loop (S (S k)) fsz (id ++ sz ++ payload)
  = Done (None, []).
Proof.
  intros Hid Hne Hsz Hlen.
  destruct (header_parts id sz payload Hid Hsz) as (He & Hh & Ht & Hs & Hd).
  rewrite all_step, He, Hh, Ht, Hs, Hd, (bytes_eqb_false _ _ Hne).
  rewrite oversize_drop by assumption. apply all_step.
Qed.

Lemma csv_oversize (k : nat) (fsz : Z) (id sz payload : list byte) :
  length id = 4%nat -> id <> bstr "fmt " -> length sz = 4%nat ->
  Z.of_nat (length payload) <= le_value sz ->
  CreateCsv.chunk_loop (S (S k)) fsz None (id ++ sz ++ payload)
  = Done (None, []).
Proof.
  intros Hid Hne Hsz Hlen.
  destruct (header_parts id sz payload Hid Hsz) as (He & Hh & Ht & Hs & Hd).
  rewrite csv_step, He, Hh, Ht, Hs, Hd, (bytes_eqb_false _ _ Hne).
  cbv zeta. rewrite oversize_drop by assumption.
  destruct (bytes_eqb id (bstr "data")); apply csv_step.
Qed.

(** The outer header of a file of at least twelve bytes. *)
Lemma outer_header (hdr rest : list byte) :
  length hdr = 12%nat ->
  header_read (hdr ++ rest) = true
  /\ drop 12 (hdr ++ rest) = rest
  /\ (length rest < length (hdr ++ rest))%nat.
Proof.
  intros H. repeat split.
  - apply header_read_true. rewrite length_app. lia.
  - apply drop_app_length'. congruence.
  - rewrite length_app. lia.
Qed.

End Walk.

Example probe_pcm :
  ConvertAllIeee.investigate_wav_format sample_wav = Done (Some 1).
Proof. vm_compute. reflexivity. Qed.

(** C10: on every finite byte sequence each of the three chunk-walking
    probes terminates with a value and propagates no exception.  A short
    read where a chunk header is expected raises inside the loop and the
    handler turns it into the probe's failure value; a skipped chunk whose
    declared size reaches end-of-file or beyond makes the next read empty,
    which ends the walk with [None]. *)
Theorem probes_terminate (wav : list byte) :
  (exists r, ConvertAllIeee.investigate_wav_format wav = Done r)
  /\ (exists r, CreateCsv.read_wav_header wav = Done r)
  /\ (exists r, InvestigateAll.investigate_wav_format wav = Done r)
  /\ (forall hdr s : list byte,
        wav = hdr ++ s -> length hdr = 12%nat -> (0 < length s < 8)%nat ->
        ConvertAllIeee.chunk_loop (S (length wav)) s = Raised StructError
        /\ ConvertAllIeee.investigate_wav_format wav = Done None
        /\ CreateCsv.read_wav_header wav = Done None
        /\ InvestigateAll.investigate_wav_format wav
           = Done (Some (InvestigateAll.Error StructError)))
  /\ (forall hdr id sz payload : list byte,
        wav = hdr ++ id ++ sz ++ payload -> length hdr = 12%nat ->
        length id = 4%nat -> id <> bstr "fmt " -> length sz = 4%nat ->
        Z.of_nat (length payload) <= le_value sz ->
        ConvertAllIeee.chunk_loop (S (length wav)) (id ++ sz ++ payload)
        = Done (None, [])
        /\ ConvertAllIeee.investigate_wav_format wav = Done None
        /\ CreateCsv.read_wav_header wav = Done None
        /\ InvestigateAll.investigate_wav_format wav = Done None).
Proof.
  split; [|split; [|split; [|split]]].
  - rewrite ieee_top. destruct (header_read wav); [|eauto].
    pose proof (ieee_fuel _ _ (drop12_fuel wav)) as Hf.
    destruct (ConvertAllIeee.chunk_loop _ _) as [[r s']| |];
      [eauto | eauto | congruence].
  - rewrite csv_top.
    destruct (negb _); [eauto|]. destruct (header_read wav); [|eauto].
    destruct (negb _); [eauto|].
    pose proof (csv_fuel _ (le_value (take 4 (drop 4 wav))) None _
                  (drop12_fuel wav)) as Hf.
    destruct (CreateCsv.chunk_loop _ _ _ _) as [[r s']| |];
      [eauto | eauto | congruence].
  - rewrite all_top. destruct (header_read wav); [|eauto].
    pose proof (all_fuel _ (le_value (take 4 (drop 4 wav))) _
                  (drop12_fuel wav)) as Hf.
    destruct (InvestigateAll.chunk_loop _ _ _) as [[r s']| |];
      [eauto | eauto | congruence].
  - intros hdr s -> Hhdr Hs.
    destruct (outer_header hdr s Hhdr) as (Hh & Hd & _).
    rewrite ieee_top, csv_top, all_top, Hh, Hd.
    rewrite ieee_short, csv_short, all_short by assumption.
    repeat split; try reflexivity.
    destruct (negb _); [reflexivity|]. destruct (negb _); reflexivity.
  - intros hdr id sz payload -> Hhdr Hid Hne Hsz Hlen.
    destruct (outer_header hdr (id ++ sz ++ payload) Hhdr) as (Hh & Hd & Hl).
    rewrite ieee_top, csv_top, all_top, Hh, Hd.
    rewrite !length_app in Hl. rewrite !length_app.
    destruct (length hdr + (length id + (length sz + length payload)))%nat
      as [|k] eqn:Ek; [lia|].
    rewrite ieee_oversize, csv_oversize, all_oversize by assumption.
    repeat split; try reflexivity.
    destruct (negb _); [reflexivity|]. destruct (negb _); reflexivity.
Qed.

Lemma probes_terminate_witness :
  InvestigateAll.investigate_wav_format short_wav
  = Done (Some (InvestigateAll.Error StructError))
  /\ CreateCsv.read_wav_header oversized_wav = Done None.
Proof.
  split.
  - destruct (probes_terminate short_wav) as (_ & _ & _ & H & _).
    apply (H (riff_prefix 7) (bstr "LIS")); [reflexivity | reflexivity |].
    simpl. lia.
  - destruct (probes_terminate oversized_wav) as (_ & _ & _ & _ & H).
    apply (H (riff_prefix 16) (bstr "LIST") (pack_I 1000) (bstr "abcd"));
      try reflexivity.
    + discriminate.
    + vm_compute. discriminate.
Defined.

(** C7 (as the code has it): when between one and seven bytes are left
    where a chunk header is expected, the read raises and the handler
    reports it, as an error record in investigate_all_formats and as [None]
    in convert_all_ieee_formats.  A skipped chunk whose declared payload
    length reaches past end-of-file is not reported: the relative seek
    succeeds, the next read is empty, and both probes return [None]. *)
Theorem truncated_reported_oversized_silent (hdr pre : list byte) :
  length hdr = 12%nat -> skipped_chunks pre ->
  (forall tail : list byte, (0 < length tail < 8)%nat ->
     InvestigateAll.investigate_wav_format (hdr ++ pre ++ tail)
     = Done (Some (InvestigateAll.Error StructError))
     /\ ConvertAllIeee.investigate_wav_format (hdr ++ pre ++ tail)
        = Done None)
  /\ (forall id sz payload : list byte,
        length id = 4%nat -> id <> bstr "fmt " -> length sz = 4%nat ->
        Z.of_nat (length payload) < le_value sz ->
        InvestigateAll.investigate_wav_format
          (hdr ++ pre ++ id ++ sz ++ payload) = Done None
        /\ ConvertAllIeee.investigate_wav_format
             (hdr ++ pre ++ id ++ sz ++ payload) = Done None).
Proof.
  intros Hhdr Hpre. split.
  - intros tail Ht.
    destruct (outer_header hdr (pre ++ tail) Hhdr) as (Hh & Hd & Hl).
    rewrite all_top, ieee_top, Hh, Hd.
    rewrite all_skip, ieee_skip by (assumption || lia).
    rewrite all_short, ieee_short by assumption.
    split; reflexivity.
  - intros id sz payload Hid Hne Hsz Hlen.
    destruct (outer_header hdr (pre ++ id ++ sz ++ payload) Hhdr)
      as (Hh & Hd & Hl).
    rewrite all_top, ieee_top, Hh, Hd.
    rewrite all_skip, ieee_skip by (assumption || lia).
    rewrite !length_app in Hl. rewrite !length_app.
    destruct (length hdr + (length pre
                + (length id + (length sz + length payload))))%nat
      as [|k] eqn:Ek; [lia|].
    rewrite all_oversize, ieee_oversize by (assumption || lia).
    split; reflexivity.
Qed.

Lemma list_chunk_skipped : skipped_chunks list_chunk.
Proof.
  assert (E : list_chunk = bstr "LIST" ++ pack_I 4 ++ bstr "abcd" ++ [])
    by reflexivity.
  rewrite E. apply skipped_cons; try reflexivity; [discriminate | constructor].
Qed.

Lemma truncated_reported_oversized_silent_witness :
  InvestigateAll.investigate_wav_format
    (riff_prefix 19 ++ list_chunk ++ bstr "LIS")
  = Done (Some (InvestigateAll.Error StructError))
  /\ InvestigateAll.investigate_wav_format
       (riff_prefix 28 ++ list_chunk ++ bstr "LIST" ++ pack_I 1000
          ++ bstr "abcd")
     = Done None.
Proof.
  destruct (truncated_reported_oversized_silent (riff_prefix 19) list_chunk
              eq_refl list_chunk_skipped) as [H1 _].
  destruct (truncated_reported_oversized_silent (riff_prefix 28) list_chunk
              eq_refl list_chunk_skipped) as [_ H2].
  split.
  - apply (H1 (bstr "LIS")). simpl. lia.
  - apply (H2 (bstr "LIST") (pack_I 1000) (bstr "abcd")); try reflexivity.
    discriminate.
Defined.

(** C7, counterexample: a chunk header declaring 1000 payload bytes with
    four bytes left in the file is tolerated; the probe ends the walk and
    returns [None], not an error. *)
Lemma oversized_chunk_tolerated :
  (Z.of_nat (length (bstr "abcd")) < le_value (pack_I 1000))
  /\ oversized_wav
     = riff_prefix 16 ++ bstr "LIST" ++ pack_I 1000 ++ bstr "abcd"
  /\ InvestigateAll.investigate_wav_format oversized_wav = Done None
  /\ (forall e, InvestigateAll.investigate_wav_format oversized_wav
                <> Done (Some (InvestigateAll.Error e))).
Proof.
  repeat split; try (intros e; vm_compute; discriminate).
Qed.

(** ** The backup / transcode / swap-or-restore step *)

Section Step.

Variable ffmpeg : transcoder.
Variables wav_file backup_file temp_output : string.

Lemma step_missing (m : gmap string file) :
  m !! wav_file = None ->
  backup_convert_swap ffmpeg wav_file backup_file temp_output m
  = Crashed FileNotFoundError m.
Proof.
  intros H. unfold backup_convert_swap, sbind, copy2. rewrite H. reflexivity.
Qed.

Lemma apply_effect_other (p q : string) (e : tool_effect)
    (m : gmap string file) :
  q <> p -> apply_effect q e m !! p = m !! p.
Proof.
  intros H. destruct e; simpl.
  - reflexivity.
  - apply lookup_insert_ne. exact H.
  - apply lookup_delete_ne. exact H.
Qed.

(** The step with its file operations carried out. *)
Lemma step_unfold (m : gmap string file) (f : file) :
  m !! wav_file = Some f -> wav_file <> backup_file ->
  backup_convert_swap ffmpeg wav_file backup_file temp_output m =
  let r := ffmpeg (backed_up backup_file f m) wav_file temp_output in
  let m2 := apply_effect temp_output (effect r) (backed_up backup_file f m) in
  if exit_ok r then
    match m2 !! wav_file with
    | Some _ =>
        match delete wav_file m2 !! temp_output with
        | Some g =>
            Returned (true, stderr r)
              (<[wav_file := g]> (delete temp_output (delete wav_file m2)))
        | None => Crashed FileNotFoundError (delete wav_file m2)
        end
    | None => Crashed FileNotFoundError m2
    end
  else
    match delete temp_output m2 !! backup_file with
    | Some g =>
        Returned (false, stderr r) (<[wav_file := g]> (delete temp_output m2))
    | None => Crashed FileNotFoundError (delete temp_output m2)
    end.
Proof.
  intros Hf Hwb. cbv zeta.
  unfold backup_convert_swap, sbind, copy2 at 1. rewrite Hf.
  rewrite bool_decide_eq_false_2 by assumption.
  unfold convert_wav_format. fold (backed_up backup_file f m).
  destruct (exit_ok (ffmpeg (backed_up backup_file f m) wav_file temp_output)) eqn:Hexit;
    cbn [fst].
  - unfold unlink, rename, sret.
    destruct (apply_effect _ _ _ !! wav_file); [|reflexivity].
    destruct (delete wav_file _ !! temp_output); reflexivity.
  - unfold path_exists, unlink, copy2, sret.
    set (m2 := apply_effect _ _ _).
    set (e := stderr (ffmpeg (backed_up backup_file f m) wav_file temp_output)).
    assert (Hcopy : forall m3 : gmap string file, m3 = delete temp_output m2 ->
      match
        match m3 !! backup_file with
        | Some g =>
            if bool_decide (backup_file = wav_file)
            then Crashed SameFileError m3
            else Returned tt (<[wav_file := g]> m3)
        | None => Crashed FileNotFoundError m3
        end
      with
      | Returned _ m' => Returned (false, e) m'
      | Crashed x m' => Crashed x m'
      end =
      match delete temp_output m2 !! backup_file with
      | Some g => Returned (false, e) (<[wav_file := g]> (delete temp_output m2))
      | None => Crashed FileNotFoundError (delete temp_output m2)
      end).
    { intros m3 ->. destruct (delete temp_output m2 !! backup_file);
        [|reflexivity].
      rewrite bool_decide_eq_false_2 by congruence. reflexivity. }
    destruct (m2 !! temp_output) as [g|] eqn:Ht2.
    + rewrite bool_decide_eq_true_2 by eauto. rewrite Ht2.
      apply Hcopy. reflexivity.
    + rewrite bool_decide_eq_false_2 by (intros [x Hx]; congruence).
      apply Hcopy. symmetry. apply delete_id. exact Ht2.
Qed.

Hypothesis wav_not_backup : wav_file <> backup_file.
Hypothesis temp_not_backup : temp_output <> backup_file.

Lemma effect_keeps_backup (f : file) (m : gmap string file) (e : tool_effect) :
  apply_effect temp_output e (backed_up backup_file f m) !! backup_file = Some f.
Proof.
  rewrite apply_effect_other by assumption. apply lookup_insert_eq.
Qed.

(** Paths other than the three of the step keep their file, or absence of
    a file, whatever the tool does and however the step ends. *)
Lemma step_frame (m : gmap string file) (p : string) :
  p <> wav_file -> p <> backup_file -> p <> temp_output ->
  final_fs (backup_convert_swap ffmpeg wav_file backup_file temp_output m) !! p
  = m !! p.
Proof.
  intros Hw Hb Ht.
  destruct (m !! wav_file) as [f|] eqn:Hf;
    [|rewrite step_missing by assumption; reflexivity].
  rewrite (step_unfold m f Hf wav_not_backup). cbv zeta.
  set (r := ffmpeg (backed_up backup_file f m) wav_file temp_output).
  assert (H2 : apply_effect temp_output (effect r) (backed_up backup_file f m) !! p = m !! p).
  { rewrite apply_effect_other by congruence.
    unfold backed_up. apply lookup_insert_ne. congruence. }
  destruct (exit_ok r).
  - destruct (apply_effect _ _ _ !! wav_file); [|exact H2].
    destruct (delete wav_file _ !! temp_output); simpl.
    + rewrite lookup_insert_ne, !lookup_delete_ne by congruence. exact H2.
    + rewrite lookup_delete_ne by congruence. exact H2.
  - destruct (delete temp_output _ !! backup_file); simpl.
    + rewrite lookup_insert_ne, lookup_delete_ne by congruence. exact H2.
    + rewrite lookup_delete_ne by congruence. exact H2.
Qed.

(** The backup is made before anything else and survives every ending of
    the step: no branch deletes it. *)
Lemma step_keeps_backup (m : gmap string file) (f : file) :
  m !! wav_file = Some f ->
  final_fs (backup_convert_swap ffmpeg wav_file backup_file temp_output m)
    !! backup_file = Some f.
Proof.
  intros Hf. rewrite (step_unfold m f Hf wav_not_backup). cbv zeta.
  set (r := ffmpeg (backed_up backup_file f m) wav_file temp_output).
  pose proof (effect_keeps_backup f m (effect r)) as H2.
  destruct (exit_ok r).
  - destruct (apply_effect _ _ _ !! wav_file); [|exact H2].
    destruct (delete wav_file _ !! temp_output); simpl.
    + rewrite lookup_insert_ne, !lookup_delete_ne by congruence. exact H2.
    + rewrite lookup_delete_ne by congruence. exact H2.
  - destruct (delete temp_output _ !! backup_file); simpl.
    + rewrite lookup_insert_ne, lookup_delete_ne by congruence. exact H2.
    + rewrite lookup_delete_ne by congruence. exact H2.
Qed.

(** A step that completes and reports failure has put the bytes it found
    at the original path back there, keeps them in the backup, and leaves
    no temporary file. *)
Lemma step_failed (m m' : gmap string file) (e : string) :
  backup_convert_swap ffmpeg wav_file backup_file temp_output m
  = Returned (false, e) m' ->
  is_Some (m !! wav_file)
  /\ m' !! wav_file = m !! wav_file
  /\ m' !! backup_file = m !! wav_file
  /\ (temp_output <> wav_file -> m' !! temp_output = None).
Proof.
  destruct (m !! wav_file) as [f|] eqn:Hf;
    [|rewrite step_missing by assumption; discriminate].
  rewrite (step_unfold m f Hf wav_not_backup). cbv zeta.
  set (r := ffmpeg (backed_up backup_file f m) wav_file temp_output).
  pose proof (effect_keeps_backup f m (effect r)) as H2.
  destruct (exit_ok r).
  - destruct (apply_effect _ _ _ !! wav_file); [|discriminate].
    destruct (delete wav_file _ !! temp_output); discriminate.
  - rewrite lookup_delete_ne, H2 by assumption.
    intros [= _ <-]. split; [eauto|]. split; [apply lookup_insert_eq|].
    split.
    + rewrite lookup_insert_ne, lookup_delete_ne by congruence. exact H2.
    + intros Hne. rewrite lookup_insert_ne by congruence.
      apply lookup_delete_eq.
Qed.

(** The tool exits non-zero: the step completes on the failure branch. *)
Lemma step_tool_fails (m : gmap string file) (f : file) :
  m !! wav_file = Some f ->
  exit_ok (ffmpeg (backed_up backup_file f m) wav_file temp_output) = false ->
  exists m',
    backup_convert_swap ffmpeg wav_file backup_file temp_output m
    = Returned (false, stderr (ffmpeg (backed_up backup_file f m) wav_file temp_output)) m'.
Proof.
  intros Hf Hexit. rewrite (step_unfold m f Hf wav_not_backup). cbv zeta.
  rewrite Hexit, lookup_delete_ne, effect_keeps_backup by assumption.
  eauto.
Qed.

(** The tool exits with status zero and has written [g] at the temporary
    path: the step replaces the original by [g], whatever [g] contains. *)
Lemma step_tool_succeeds (m : gmap string file) (f g : file) :
  m !! wav_file = Some f -> temp_output <> wav_file ->
  exit_ok (ffmpeg (backed_up backup_file f m) wav_file temp_output) = true ->
  effect (ffmpeg (backed_up backup_file f m) wav_file temp_output) = Written g ->
  exists m',
    backup_convert_swap ffmpeg wav_file backup_file temp_output m
    = Returned (true, stderr (ffmpeg (backed_up backup_file f m) wav_file temp_output)) m'
    /\ m' !! wav_file = Some g
    /\ m' !! temp_output = None
    /\ m' !! backup_file = Some f.
Proof.
  intros Hf Htw Hexit Heff.
  rewrite (step_unfold m f Hf wav_not_backup). cbv zeta.
  rewrite Hexit, Heff. simpl apply_effect.
  rewrite lookup_insert_ne by assumption.
  unfold backed_up at 1. rewrite lookup_insert_ne by congruence.
  rewrite Hf, lookup_delete_ne, lookup_insert_eq by congruence.
  eexists; split; [reflexivity|]. split; [apply lookup_insert_eq|].
  split.
  - rewrite lookup_insert_ne by congruence. apply lookup_delete_eq.
  - rewrite lookup_insert_ne, !lookup_delete_ne, lookup_insert_ne by congruence.
    apply lookup_insert_eq.
Qed.

End Step.

(** ** File names and paths *)

Section Paths.

Lemma length_append (s1 s2 : string) :
  String.length (s1 +:+ s2) = (String.length s1 + String.length s2)%nat.
Proof.
  induction s1 as [|a s1 IH]; [reflexivity|].
  change (String a s1 +:+ s2)%string with (String a (s1 +:+ s2)).
  simpl. rewrite IH. reflexivity.
Qed.

Lemma append_empty_r (s : string) : (s +:+ "")%string = s.
Proof.
  induction s as [|a s IH]; [reflexivity|].
  change (String a s +:+ "")%string with (String a (s +:+ "")).
  rewrite IH. reflexivity.
Qed.

Lemma substring_0_0 (s : string) : substring 0 0 s = "".
Proof. destruct s; reflexivity. Qed.

Lemma substring_all (s : string) : substring 0 (String.length s) s = s.
Proof. induction s as [|a s IH]; simpl; [|rewrite IH]; reflexivity. Qed.

(** A name cut at position [i] is its two pieces put together. *)
Lemma substring_split (s : string) : forall i : nat,
  (i <= String.length s)%nat ->
  (substring 0 i s +:+ substring i (String.length s - i) s)%string = s.
Proof.
  induction s as [|a s IH]; intros i Hi.
  - simpl in Hi. assert (i = 0%nat) as -> by lia. reflexivity.
  - destruct i as [|i].
    + rewrite substring_0_0, Nat.sub_0_r, substring_all. reflexivity.
    + simpl in Hi. simpl substring. simpl String.length.
      change (String a ?x +:+ ?y)%string with (String a (x +:+ y)).
      rewrite IH by lia. reflexivity.
Qed.

Lemma length_substring (s : string) : forall i n : nat,
  (i + n <= String.length s)%nat -> String.length (substring i n s) = n.
Proof.
  induction s as [|a s IH]; intros i n H; simpl in H.
  - assert (i = 0%nat) as -> by lia. assert (n = 0%nat) as -> by lia.
    reflexivity.
  - destruct i as [|i]; simpl.
    + destruct n as [|n]; [reflexivity|]. simpl. rewrite IH by lia.
      reflexivity.
    + apply IH. lia.
Qed.

Lemma rfind_lt (c : ascii) (s : string) : forall i : nat,
  rfind c s = Some i -> (i < String.length s)%nat.
Proof.
  induction s as [|a s IH]; intros i H; simpl in H; [discriminate|].
  destruct (rfind c s) as [j|].
  - injection H as <-. specialize (IH j eq_refl). simpl. lia.
  - destruct (Ascii.eqb a c); [|discriminate].
    injection H as <-. simpl. lia.
Qed.

(** The piece from the last occurrence on has that occurrence first and no
    other. *)
Lemma rfind_tail (c : ascii) (s : string) : forall i : nat,
  rfind c s = Some i ->
  rfind c (substring i (String.length s - i) s) = Some 0%nat.
Proof.
  induction s as [|a s IH]; intros i H; simpl in H; [discriminate|].
  destruct (rfind c s) as [j|] eqn:Hj.
  - injection H as <-. simpl. apply IH. reflexivity.
  - destruct (Ascii.eqb a c) eqn:Hc; [|discriminate].
    injection H as <-. rewrite Nat.sub_0_r, substring_all.
    simpl. rewrite Hj, Hc. reflexivity.
Qed.

Lemma dot_index_bounds (name : string) (i : nat) :
  dot_index name = Some i ->
  rfind "."%char name = Some i /\ (0 < i)%nat
  /\ (i < String.length name - 1)%nat.
Proof.
  unfold dot_index. destruct (rfind "."%char name) as [j|]; [|discriminate].
  destruct (0 <? j)%nat eqn:H0; [|discriminate].
  destruct (j <? String.length name - 1)%nat eqn:H1; [|discriminate].
  simpl. intros [= <-].
  apply Nat.ltb_lt in H0. apply Nat.ltb_lt in H1. auto.
Qed.

Lemma stem_suffix (name : string) : (stem name +:+ suffix name)%string = name.
Proof.
  unfold stem, suffix. destruct (dot_index name) as [i|] eqn:Hi.
  - apply dot_index_bounds in Hi as (_ & _ & Hlt).
    apply substring_split. lia.
  - apply append_empty_r.
Qed.

(** [with_suffix] replaces the suffix, so it appends to the stem. *)
Lemma with_suffix_stem (name ext : string) :
  with_suffix name ext = (stem name +:+ ext)%string.
Proof.
  unfold with_suffix, stem, suffix.
  destruct (dot_index name) as [i|] eqn:Hi; [|reflexivity].
  apply dot_index_bounds in Hi as (_ & _ & Hlt).
  assert (Hlen : String.length (substring i (String.length name - i) name)
                 = (String.length name - i)%nat)
    by (apply length_substring; lia).
  destruct (String.eqb_spec (substring i (String.length name - i) name) "")
    as [E|_].
  - rewrite E in Hlen. simpl in Hlen. lia.
  - rewrite Hlen. f_equal. f_equal. lia.
Qed.

(** A temporary name differs from the name it is derived from: the suffix
    of a name has one dot, in front, and the extension has a later one. *)
Lemma stem_ext_fresh (name ext : string) (j : nat) :
  rfind "."%char ext = Some (S j) -> (stem name +:+ ext)%string <> name.
Proof.
  intros Hext E. rewrite <- (stem_suffix name) in E at 2.
  apply (inj (String.append (stem name))) in E.
  unfold suffix in E. destruct (dot_index name) as [i|] eqn:Hi.
  - apply dot_index_bounds in Hi as (Hr & _ & _).
    apply rfind_tail in Hr. rewrite <- E, Hext in Hr. discriminate.
  - rewrite E in Hext. discriminate.
Qed.

Lemma joinpath_inj (dir a c : string) :
  joinpath dir a = joinpath dir c -> a = c.
Proof.
  unfold joinpath. intros E.
  apply (inj (String.append dir)) in E.
  apply (inj (String.append "/")) in E. exact E.
Qed.

Lemma temp_fresh (name : string) :
  joinpath wavs_dir (stem name +:+ ".temp.wav") <> joinpath wavs_dir name.
Proof.
  intros E. apply joinpath_inj in E.
  revert E. apply (stem_ext_fresh name ".temp.wav" 4). reflexivity.
Qed.

Lemma tmp_fresh (name : string) :
  joinpath wavs_dir (with_suffix name ".tmp.wav") <> joinpath wavs_dir name.
Proof.
  intros E. apply joinpath_inj in E. rewrite with_suffix_stem in E.
  revert E. apply (stem_ext_fresh name ".tmp.wav" 3). reflexivity.
Qed.

(** The audio directory and the backup directories are different. *)
Lemma wavs_not_backup (dir a c : string) :
  dir = ConvertAllIeee.backup_dir \/ dir = ConvertRussian.backup_dir
  \/ dir = ConvertChinese.backup_dir ->
  joinpath wavs_dir a <> joinpath dir c.
Proof.
  intros [-> | [-> | ->]] E; vm_compute in E; discriminate E.
Qed.

End Paths.

(** ** The conversion loops *)

Section Loop.

Context {T : Type}.
Variable ffmpeg : transcoder.
Variables wavp backp tempp : string -> string.
Variable one : string -> T -> script T.
Variable upd : string -> bool * string -> T -> T.
Variable failed : T -> list string.

Hypothesis one_eq : forall (name : string) (t : T) (m : gmap string file),
  one name t m =
  match backup_convert_swap ffmpeg (wavp name) (backp name) (tempp name) m with
  | Returned r m' => Returned (upd name r t) m'
  | Crashed e m' => Crashed e m'
  end.
Hypothesis failed_upd : forall (name : string) (r : bool * string) (t : T),
  failed (upd name r t) = if fst r then failed t else failed t ++ [name].
Hypothesis wav_backup : forall a c : string, wavp a <> backp c.
Hypothesis temp_backup : forall a c : string, tempp a <> backp c.
Hypothesis wav_inj : forall a c : string, wavp a = wavp c -> a = c.

Lemma one_final (name : string) (t : T) (m : gmap string file) :
  final_fs (one name t m)
  = final_fs (backup_convert_swap ffmpeg (wavp name) (backp name)
                (tempp name) m).
Proof.
  rewrite one_eq. destruct (backup_convert_swap _ _ _ _ _); reflexivity.
Qed.

(** A path that is no file's original, backup or temporary path is left
    alone by the whole loop, however it ends. *)
Lemma loop_frame (p : string) (files : list string) :
  forall (t : T) (m : gmap string file),
  (forall n, n ∈ files -> p <> wavp n /\ p <> backp n /\ p <> tempp n) ->
  final_fs (for_each one files t m) !! p = m !! p.
Proof.
  induction files as [|n rest IH]; intros t m Hp; [reflexivity|].
  destruct (Hp n) as (Hw & Hb & Ht); [left|].
  pose proof (step_frame ffmpeg (wavp n) (backp n) (tempp n)
                (wav_backup n n) m p Hw Hb Ht) as Hstep.
  rewrite <- one_final with (t := t) in Hstep.
  simpl. unfold sbind. destruct (one n t m) as [t1 m1|e m1]; [|exact Hstep].
  rewrite IH; [exact Hstep|]. intros g Hg. apply Hp. right. exact Hg.
Qed.

(** A file at a path that is no file's original or temporary path is never
    removed by the loop. *)
Lemma loop_keeps (q : string) (files : list string) :
  forall (t : T) (m : gmap string file),
  (forall n, n ∈ files -> q <> wavp n /\ q <> tempp n) ->
  is_Some (m !! q) -> is_Some (final_fs (for_each one files t m) !! q).
Proof.
  induction files as [|n rest IH]; intros t m Hq Hm; [exact Hm|].
  destruct (Hq n) as (Hw & Ht); [left|].
  assert (Hstep : is_Some (final_fs (one n t m) !! q)).
  { rewrite one_final.
    destruct (decide (q = backp n)) as [->|Hb].
    - destruct (m !! wavp n) as [f|] eqn:Hf.
      + rewrite (step_keeps_backup ffmpeg _ _ _ (wav_backup n n)
                   (temp_backup n n) m f Hf). eauto.
      + rewrite step_missing by assumption. exact Hm.
    - rewrite step_frame by auto. exact Hm. }
  simpl. unfold sbind. destruct (one n t m) as [t1 m1|e m1]; [|exact Hstep].
  apply IH; [|exact Hstep]. intros g Hg. apply Hq. right. exact Hg.
Qed.

(** When the loop completes, every file it went through still has its
    backup, whichever branch its step took. *)
Lemma loop_backups (files : list string) :
  forall (t t' : T) (m m' : gmap string file),
  for_each one files t m = Returned t' m' ->
  forall n, n ∈ files -> is_Some (m' !! backp n).
Proof.
  induction files as [|n rest IH]; intros t t' m m' Hrun g Hg.
  { inversion Hg. }
  simpl in Hrun. unfold sbind in Hrun.
  destruct (one n t m) as [t1 m1|e m1] eqn:Hone; [|discriminate].
  apply elem_of_cons in Hg as [->|Hg]; [|eapply IH; eassumption].
  assert (H1 : is_Some (m1 !! backp n)).
  { change m1 with (final_fs (Returned t1 m1)). rewrite <- Hone, one_final.
    rewrite one_eq in Hone.
    destruct (m !! wavp n) as [f|] eqn:Hf.
    - rewrite (step_keeps_backup ffmpeg _ _ _ (wav_backup n n)
                 (temp_backup n n) m f Hf). eauto.
    - rewrite step_missing in Hone by assumption. discriminate. }
  change m' with (final_fs (Returned t' m')). rewrite <- Hrun.
  apply loop_keeps; [|exact H1].
  intros k _. split; apply not_eq_sym; [apply wav_backup | apply temp_backup].
Qed.

(** When the loop completes, every file newly listed as failed holds at
    its original path exactly the file it held before the loop. *)
Lemma loop_failed (files : list string) :
  forall (t t' : T) (m m' : gmap string file),
  for_each one files t m = Returned t' m' ->
  NoDup files ->
  (forall a c, a ∈ files -> c ∈ files -> a <> c -> wavp a <> tempp c) ->
  exists new,
    failed t' = failed t ++ new
    /\ forall n, n ∈ new ->
         n ∈ files /\ is_Some (m !! wavp n) /\ m' !! wavp n = m !! wavp n.
Proof.
  induction files as [|n rest IH]; intros t t' m m' Hrun Hnd Hcol.
  { injection Hrun as <- <-. exists []. rewrite app_nil_r.
    split; [reflexivity|]. intros k Hk. inversion Hk. }
  apply NoDup_cons in Hnd as [Hn Hnd].
  simpl in Hrun. unfold sbind in Hrun.
  destruct (one n t m) as [t1 m1|e m1] eqn:Hone; [|discriminate].
  destruct (IH t1 t' m1 m' Hrun Hnd) as (new & Hnew & Hall).
  { intros a c Ha Hc. apply Hcol; right; assumption. }
  (* paths of the first file are not touched by the rest of the loop *)
  assert (Hlater : m' !! wavp n = m1 !! wavp n).
  { change m' with (final_fs (Returned t' m')). rewrite <- Hrun.
    apply loop_frame. intros g Hg. repeat split.
    - intros E. apply wav_inj in E. subst g. contradiction.
    - apply wav_backup.
    - apply Hcol; [left | right; exact Hg | intros ->; contradiction]. }
  (* original paths of the rest are not touched by the first step *)
  assert (Hfirst : forall g, g ∈ rest -> m1 !! wavp g = m !! wavp g).
  { intros g Hg. change m1 with (final_fs (Returned t1 m1)).
    rewrite <- Hone, one_final. apply step_frame.
    - apply wav_backup.
    - intros E. apply wav_inj in E. subst g. contradiction.
    - apply wav_backup.
    - apply Hcol; [right; exact Hg | left | intros ->; contradiction]. }
  rewrite one_eq in Hone.
  destruct (backup_convert_swap _ _ _ _ _) as [[ok err] m1'|] eqn:Hstep;
    [|discriminate].
  injection Hone as <- <-.
  rewrite failed_upd in Hnew. simpl fst in Hnew.
  destruct ok.
  - exists new. split; [exact Hnew|]. intros g Hg.
    destruct (Hall g Hg) as (Hin & Hsome & Heq).
    rewrite Hfirst in Hsome, Heq by assumption.
    split; [right; exact Hin | split; assumption].
  - exists (n :: new). split; [rewrite Hnew, <- app_assoc; reflexivity|].
    intros g Hg. apply elem_of_cons in Hg as [->|Hg].
    + apply step_failed in Hstep as (Hsome & Heq & _);
        [|apply wav_backup | apply temp_backup].
      split; [left | split; [exact Hsome|]].
      rewrite Hlater. exact Heq.
    + destruct (Hall g Hg) as (Hin & Hsome & Heq).
      rewrite Hfirst in Hsome, Heq by assumption.
      split; [right; exact Hin | split; assumption].
Qed.

End Loop.

(** ** The three scripts as instances *)

Section Scripts.

Variable ffmpeg : transcoder.

Lemma ieee_one_eq (name : string) (t : tally) (m : gmap string file) :
  ConvertAllIeee.convert_one ffmpeg name t m =
  match backup_convert_swap ffmpeg (wav_path name)
          (ConvertAllIeee.backup_path name) (ConvertAllIeee.temp_path name) m
  with
  | Returned r m' => Returned (ConvertAllIeee.count name r t) m'
  | Crashed e m' => Crashed e m'
  end.
Proof.
  unfold ConvertAllIeee.convert_one, sbind, ConvertAllIeee.count.
  fold (wav_path name) (ConvertAllIeee.backup_path name)
       (ConvertAllIeee.temp_path name).
  destruct (backup_convert_swap _ _ _ _ _) as [[[|] e] m'|]; reflexivity.
Qed.

Lemma russian_one_eq (name : string) (t : tally) (m : gmap string file) :
  ConvertRussian.convert_one ffmpeg name t m =
  match backup_convert_swap ffmpeg (wav_path name)
          (ConvertRussian.backup_path name) (ConvertRussian.temp_path name) m
  with
  | Returned r m' => Returned (ConvertRussian.count name r t) m'
  | Crashed e m' => Crashed e m'
  end.
Proof.
  unfold ConvertRussian.convert_one, sbind, ConvertRussian.count.
  fold (wav_path name) (ConvertRussian.backup_path name)
       (ConvertRussian.temp_path name).
  destruct (backup_convert_swap _ _ _ _ _) as [[[|] e] m'|]; reflexivity.
Qed.

Lemma chinese_one_eq (name : string) (t : nat * list string)
    (m : gmap string file) :
  ConvertChinese.convert_one ffmpeg name t m =
  match backup_convert_swap ffmpeg (wav_path name)
          (ConvertChinese.backup_path name) (ConvertChinese.temp_path name) m
  with
  | Returned r m' => Returned (ConvertChinese.count name r t) m'
  | Crashed e m' => Crashed e m'
  end.
Proof.
  unfold ConvertChinese.convert_one, sbind, ConvertChinese.count.
  fold (wav_path name) (ConvertChinese.backup_path name)
       (ConvertChinese.temp_path name).
  destruct (backup_convert_swap _ _ _ _ _) as [[[|] e] m'|]; reflexivity.
Qed.

Lemma ieee_failed_count (name : string) (r : bool * string) (t : tally) :
  failed_names (ConvertAllIeee.count name r t)
  = if fst r then failed_names t else failed_names t ++ [name].
Proof.
  unfold failed_names, ConvertAllIeee.count.
  destruct (fst r); simpl; [reflexivity|]. rewrite map_app. reflexivity.
Qed.

Lemma chinese_failed_count (name : string) (r : bool * string)
    (t : nat * list string) :
  snd (ConvertChinese.count name r t)
  = if fst r then snd t else snd t ++ [name].
Proof. unfold ConvertChinese.count. destruct (fst r); reflexivity. Qed.

Lemma wav_path_inj (a c : string) : wav_path a = wav_path c -> a = c.
Proof. apply joinpath_inj. Qed.

Lemma ieee_wav_backup (a c : string) :
  wav_path a <> ConvertAllIeee.backup_path c.
Proof. apply wavs_not_backup. auto. Qed.

Lemma ieee_temp_backup (a c : string) :
  ConvertAllIeee.temp_path a <> ConvertAllIeee.backup_path c.
Proof. apply wavs_not_backup. auto. Qed.

Lemma ieee_test_backup (a c : string) :
  ConvertAllIeee.test_path a <> ConvertAllIeee.backup_path c.
Proof. apply wavs_not_backup. auto. Qed.

Lemma russian_wav_backup (a c : string) :
  wav_path a <> ConvertRussian.backup_path c.
Proof. apply wavs_not_backup. auto. Qed.

Lemma russian_temp_backup (a c : string) :
  ConvertRussian.temp_path a <> ConvertRussian.backup_path c.
Proof. apply wavs_not_backup. auto. Qed.

Lemma chinese_wav_backup (a c : string) :
  wav_path a <> ConvertChinese.backup_path c.
Proof. apply wavs_not_backup. auto. Qed.

Lemma chinese_temp_backup (a c : string) :
  ConvertChinese.temp_path a <> ConvertChinese.backup_path c.
Proof. apply wavs_not_backup. auto. Qed.

End Scripts.

(** ** Failure restores the original *)

(** The failure branch with nothing assumed about the conversion: whatever
    it left at the original and at the temporary path, the temporary file
    is removed and the backup is copied over the original path. *)
Lemma restore_after_any_conversion
    (convert : string -> string -> script (bool * string))
    (wav_file backup_file temp_output : string)
    (m m1 : gmap string file) (f : file) (e : string) :
  wav_file <> backup_file -> temp_output <> backup_file ->
  m !! wav_file = Some f ->
  convert wav_file temp_output (backed_up backup_file f m)
  = Returned (false, e) m1 ->
  m1 !! backup_file = Some f ->
  backup_convert_swap_with convert wav_file backup_file temp_output m
  = Returned (false, e) (<[wav_file := f]> (delete temp_output m1)).
Proof.
  intros Hwb Htb Hf Hconv Hb.
  unfold backup_convert_swap_with, sbind, copy2 at 1. rewrite Hf.
  rewrite bool_decide_eq_false_2 by assumption.
  fold (backed_up backup_file f m). rewrite Hconv. cbn [fst].
  unfold path_exists, unlink, copy2, sret.
  assert (Hd : delete temp_output m1 !! backup_file = Some f)
    by (rewrite lookup_delete_ne by assumption; exact Hb).
  destruct (m1 !! temp_output) as [g|] eqn:Ht.
  - rewrite bool_decide_eq_true_2 by eauto. rewrite Ht, Hd.
    rewrite bool_decide_eq_false_2 by congruence. reflexivity.
  - rewrite bool_decide_eq_false_2 by (intros [x Hx]; congruence).
    rewrite Hb, bool_decide_eq_false_2 by congruence.
    rewrite (delete_id m1 temp_output Ht). reflexivity.
Qed.

(** C1 (as the code has it): when the tool exits non-zero for a file, its
    iteration ends with the file recorded as failed, the temporary output
    gone, and the backup copied back, so that the original path holds the
    file it held before; this is the work of the failure branch itself,
    which puts the backup back over the original path whatever a failed
    conversion left there, be it a damaged file or none.  When the batch
    loop has finished, every file recorded as failed holds at its original
    path exactly the file (bytes and modification time) it held before the
    run, provided the batch is a list of distinct names none of which is
    the name another listed file's iteration gives its temporary output. *)
Theorem failed_conversion_restores_original (ffmpeg : transcoder) :
  (forall (name : string) (t : tally) (m : gmap string file) (f : file),
     m !! wav_path name = Some f ->
     exit_ok (ffmpeg (backed_up (ConvertAllIeee.backup_path name) f m)
                (wav_path name) (ConvertAllIeee.temp_path name)) = false ->
     exists t' m',
       ConvertAllIeee.convert_one ffmpeg name t m = Returned t' m'
       /\ failed_names t' = failed_names t ++ [name]
       /\ m' !! wav_path name = Some f
       /\ m' !! ConvertAllIeee.temp_path name = None
       /\ m' !! ConvertAllIeee.backup_path name = Some f)
  /\ (forall (name : string) (t : nat * list string) (m : gmap string file)
        (f : file),
     m !! wav_path name = Some f ->
     exit_ok (ffmpeg (backed_up (ConvertChinese.backup_path name) f m)
                (wav_path name) (ConvertChinese.temp_path name)) = false ->
     exists t' m',
       ConvertChinese.convert_one ffmpeg name t m = Returned t' m'
       /\ snd t' = snd t ++ [name]
       /\ m' !! wav_path name = Some f
       /\ m' !! ConvertChinese.temp_path name = None
       /\ m' !! ConvertChinese.backup_path name = Some f)
  /\ (forall (files : list string) (t' : tally) (m m' : gmap string file),
     ConvertAllIeee.convert_loop ffmpeg files (Tally 0 0 []) m
     = Returned t' m' ->
     NoDup files ->
     (forall a c, a ∈ files -> c ∈ files -> a <> c ->
        wav_path a <> ConvertAllIeee.temp_path c) ->
     forall name, name ∈ failed_names t' ->
       name ∈ files /\ is_Some (m !! wav_path name)
       /\ m' !! wav_path name = m !! wav_path name)
  /\ (forall (files : list string) (t' : nat * list string)
        (m m' : gmap string file),
     ConvertChinese.backup_and_convert ffmpeg files m
     = Returned (Some t') m' ->
     NoDup files ->
     (forall a c, a ∈ files -> c ∈ files -> a <> c ->
        wav_path a <> ConvertChinese.temp_path c) ->
     forall name, name ∈ snd t' ->
       name ∈ files /\ is_Some (m !! wav_path name)
       /\ m' !! wav_path name = m !! wav_path name)
  /\ (forall (convert : string -> string -> script (bool * string))
        (wav_file backup_file temp_output : string)
        (m m1 : gmap string file) (f : file) (e : string),
     wav_file <> backup_file -> temp_output <> backup_file ->
     temp_output <> wav_file ->
     m !! wav_file = Some f ->
     convert wav_file temp_output (backed_up backup_file f m)
     = Returned (false, e) m1 ->
     m1 !! backup_file = Some f ->
     exists m',
       backup_convert_swap_with convert wav_file backup_file temp_output m
       = Returned (false, e) m'
       /\ m' !! wav_file = Some f
       /\ m' !! temp_output = None
       /\ m' !! backup_file = Some f
       /\ forall p, p <> wav_file -> p <> temp_output -> m' !! p = m1 !! p)
  /\ (forall (wav_file backup_file temp_output : string)
        (m : gmap string file),
     backup_convert_swap ffmpeg wav_file backup_file temp_output m
     = backup_convert_swap_with (convert_wav_format ffmpeg)
         wav_file backup_file temp_output m).
Proof.
  split; [|split; [|split; [|split; [|split]]]].
  - intros name t m f Hf Hexit. rewrite ieee_one_eq.
    destruct (step_tool_fails ffmpeg _ _ _ (ieee_wav_backup name name)
                (ieee_temp_backup name name) m f Hf Hexit) as [m' Hstep].
    rewrite Hstep.
    apply step_failed in Hstep as (_ & Hw & Hb & Ht);
      [|apply ieee_wav_backup | apply ieee_temp_backup].
    eexists _, m'. split; [reflexivity|]. split.
    { rewrite ieee_failed_count. reflexivity. }
    rewrite Hw, Hb, Hf. repeat split. apply Ht, temp_fresh.
  - intros name t m f Hf Hexit. rewrite chinese_one_eq.
    destruct (step_tool_fails ffmpeg _ _ _ (chinese_wav_backup name name)
                (chinese_temp_backup name name) m f Hf Hexit) as [m' Hstep].
    rewrite Hstep.
    apply step_failed in Hstep as (_ & Hw & Hb & Ht);
      [|apply chinese_wav_backup | apply chinese_temp_backup].
    eexists _, m'. split; [reflexivity|]. split; [reflexivity|].
    rewrite Hw, Hb, Hf. repeat split. apply Ht, tmp_fresh.
  - intros files t' m m' Hrun Hnd Hcol name Hname.
    destruct (loop_failed ffmpeg wav_path ConvertAllIeee.backup_path
                ConvertAllIeee.temp_path (ConvertAllIeee.convert_one ffmpeg)
                ConvertAllIeee.count failed_names (ieee_one_eq ffmpeg)
                ieee_failed_count ieee_wav_backup ieee_temp_backup
                wav_path_inj files _ _ _ _ Hrun Hnd Hcol)
      as (new & Hnew & Hall).
    apply Hall. rewrite Hnew in Hname. exact Hname.
  - intros files t' m m' Hrun Hnd Hcol name Hname.
    unfold ConvertChinese.backup_and_convert in Hrun.
    destruct files as [|n0 rest] eqn:Hfiles; [discriminate|].
    rewrite <- Hfiles in *. unfold sbind in Hrun.
    destruct (ConvertChinese.convert_loop ffmpeg files (0%nat, []) m)
      as [t1 m1|] eqn:Hloop; [|discriminate].
    injection Hrun as <- <-.
    destruct (loop_failed ffmpeg wav_path ConvertChinese.backup_path
                ConvertChinese.temp_path (ConvertChinese.convert_one ffmpeg)
                ConvertChinese.count snd (chinese_one_eq ffmpeg)
                chinese_failed_count chinese_wav_backup chinese_temp_backup
                wav_path_inj files _ _ _ _ Hloop Hnd Hcol)
      as (new & Hnew & Hall).
    apply Hall. rewrite Hnew in Hname. exact Hname.
  - intros convert wav_file backup_file temp_output m m1 f e
      Hwb Htb Htw Hf Hconv Hb.
    eexists. split.
    { apply (restore_after_any_conversion convert _ _ _ m m1 f e);
        assumption. }
    split; [apply lookup_insert_eq|]. split.
    { rewrite lookup_insert_ne by congruence. apply lookup_delete_eq. }
    split.
    { rewrite lookup_insert_ne, lookup_delete_ne by congruence. exact Hb. }
    intros p Hpw Hpt.
    rewrite lookup_insert_ne, lookup_delete_ne by congruence. reflexivity.
  - reflexivity.
Qed.

Lemma failed_conversion_restores_original_witness :
  final_fs (ConvertAllIeee.convert_loop picky_tool ["a.wav"; "b.wav"]
              (Tally 0 0 []) two_floats) !! wav_path "a.wav"
  = two_floats !! wav_path "a.wav"
  /\ (exists t' m',
        ConvertAllIeee.convert_one picky_tool "a.wav" (Tally 0 0 []) two_floats
        = Returned t' m'
        /\ m' !! ConvertAllIeee.temp_path "a.wav" = None)
  /\ exists m1 m',
       wrecking_step (wav_path "a.wav") (ConvertAllIeee.temp_path "a.wav")
         (backed_up (ConvertAllIeee.backup_path "a.wav") (File ieee_wav 100)
            two_floats)
       = Returned (false, "boom"%string) m1
       /\ m1 !! wav_path "a.wav" = None
       /\ backup_convert_swap_with wrecking_step (wav_path "a.wav")
            (ConvertAllIeee.backup_path "a.wav")
            (ConvertAllIeee.temp_path "a.wav") two_floats
          = Returned (false, "boom"%string) m'
       /\ m' !! wav_path "a.wav" = Some (File ieee_wav 100)
       /\ m' !! ConvertAllIeee.temp_path "a.wav" = None.
Proof.
  destruct (failed_conversion_restores_original picky_tool)
    as (Hone & _ & Hloop & _ & Hany & _).
  split; [|split].
  - set (r := ConvertAllIeee.convert_loop picky_tool ["a.wav"; "b.wav"]
                (Tally 0 0 []) two_floats).
    assert (Hr : r = Returned (Tally 1 1 [("a.wav", "boom")]) (final_fs r))
      by (vm_compute; reflexivity).
    apply (Hloop ["a.wav"; "b.wav"] _ two_floats (final_fs r) Hr).
    + apply NoDup_cons. split; [|apply NoDup_singleton].
      rewrite list_elem_of_singleton. discriminate.
    + intros a c Ha Hc _ E. apply joinpath_inj in E.
      rewrite !elem_of_cons, elem_of_nil in Ha, Hc.
      destruct Ha as [->|[->|[]]], Hc as [->|[->|[]]];
        vm_compute in E; discriminate E.
    + vm_compute. left.
  - destruct (Hone "a.wav" (Tally 0 0 []) two_floats (File ieee_wav 100))
      as (t' & m' & Hrun & _ & _ & Htemp & _).
    + vm_compute. reflexivity.
    + vm_compute. reflexivity.
    + exists t', m'. split; assumption.
  - set (m1 := <[ConvertAllIeee.temp_path "a.wav" := File (bstr "partial") 7]>
                 (delete (wav_path "a.wav")
                    (backed_up (ConvertAllIeee.backup_path "a.wav")
                       (File ieee_wav 100) two_floats))).
    exists m1.
    destruct (Hany wrecking_step (wav_path "a.wav")
                (ConvertAllIeee.backup_path "a.wav")
                (ConvertAllIeee.temp_path "a.wav") two_floats m1
                (File ieee_wav 100) "boom"%string)
      as (m' & Hrun & Hw & Ht & _).
    + apply ieee_wav_backup.
    + apply ieee_temp_backup.
    + apply temp_fresh.
    + vm_compute. reflexivity.
    + reflexivity.
    + vm_compute. reflexivity.
    + exists m'. split; [reflexivity|]. split; [vm_compute; reflexivity|].
      split; [exact Hrun|]. split; assumption.
Defined.

(** C1, counterexample: the batch lists [x.wav] and a file named as the
    temporary output of [x.wav].  The tool exits non-zero for the latter,
    which is recorded as failed and restored; the iteration of [x.wav]
    then writes its output over it and renames it away, and the finished
    loop leaves nothing at the original path of the failed file. *)
Lemma temp_name_collision_loses_failed_file :
  exit_ok (fussy_tool
             (backed_up (ConvertAllIeee.backup_path "x.temp.wav")
                (File ieee_wav 100) two_takes)
             (wav_path "x.temp.wav") (ConvertAllIeee.temp_path "x.temp.wav"))
  = false
  /\ two_takes !! wav_path "x.temp.wav" = Some (File ieee_wav 100)
  /\ exists m',
       ConvertAllIeee.convert_loop fussy_tool ["x.temp.wav"; "x.wav"]
         (Tally 0 0 []) two_takes
       = Returned (Tally 1 1 [("x.temp.wav", "boom")]) m'
       /\ m' !! wav_path "x.temp.wav" = None.
Proof.
  split; [reflexivity|]. split; [reflexivity|].
  eexists. split; [vm_compute; reflexivity|]. vm_compute. reflexivity.
Qed.

(** ** The swap follows the exit status *)

Section Swap.

Variable ffmpeg : transcoder.
Variables wav_file backup_file temp_output : string.
Hypothesis wav_not_backup : wav_file <> backup_file.
Hypothesis temp_not_backup : temp_output <> backup_file.

(** A completed step leaves in the backup the file it found at the
    original path, and reports failure only after restoring it. *)
Lemma step_returned (m m' : gmap string file) (r : bool * string) :
  backup_convert_swap ffmpeg wav_file backup_file temp_output m
  = Returned r m' ->
  is_Some (m !! wav_file)
  /\ m' !! backup_file = m !! wav_file
  /\ (fst r = false -> m' !! wav_file = m !! wav_file).
Proof.
  intros Hrun.
  destruct (m !! wav_file) as [f|] eqn:Hf;
    [|rewrite step_missing in Hrun by assumption; discriminate].
  split; [eauto|]. split.
  - change m' with (final_fs (Returned r m')). rewrite <- Hrun.
    apply step_keeps_backup; assumption.
  - destruct r as [[|] e]; [discriminate|]. intros _.
    apply step_failed in Hrun as (_ & Hw & _); [|assumption..].
    rewrite Hw. exact Hf.
Qed.

End Swap.

(** C3 (as the code has it): when the tool reports success and has written
    the temporary output, the loops of convert_all_ieee_formats and of
    convert_russian_wav_format remove the original and rename the temporary
    file into place at once.  The output is not probed again: whatever file
    the tool wrote ends up at the original path and is counted as a
    success, so the exit status alone decides the swap. *)
Theorem swap_follows_exit_status (ffmpeg : transcoder) (name : string)
    (t : tally) (m : gmap string file) (f g : file) :
  m !! wav_path name = Some f ->
  (exit_ok (ffmpeg (backed_up (ConvertAllIeee.backup_path name) f m)
              (wav_path name) (ConvertAllIeee.temp_path name)) = true ->
   effect (ffmpeg (backed_up (ConvertAllIeee.backup_path name) f m)
             (wav_path name) (ConvertAllIeee.temp_path name)) = Written g ->
   exists t' m',
     ConvertAllIeee.convert_one ffmpeg name t m = Returned t' m'
     /\ success_count t' = S (success_count t)
     /\ failed_files t' = failed_files t
     /\ m' !! wav_path name = Some g
     /\ m' !! ConvertAllIeee.temp_path name = None)
  /\ (exit_ok (ffmpeg (backed_up (ConvertRussian.backup_path name) f m)
                 (wav_path name) (ConvertRussian.temp_path name)) = true ->
      effect (ffmpeg (backed_up (ConvertRussian.backup_path name) f m)
                (wav_path name) (ConvertRussian.temp_path name)) = Written g ->
      exists t' m',
        ConvertRussian.convert_one ffmpeg name t m = Returned t' m'
        /\ success_count t' = S (success_count t)
        /\ failed_files t' = failed_files t
        /\ m' !! wav_path name = Some g
        /\ m' !! ConvertRussian.temp_path name = None).
Proof.
  intros Hf. split; intros Hexit Heff.
  - rewrite ieee_one_eq.
    destruct (step_tool_succeeds ffmpeg _ _ _ (ieee_wav_backup name name)
                (ieee_temp_backup name name) m f g Hf (temp_fresh name)
                Hexit Heff) as (m' & -> & Hw & Ht & _).
    eexists _, m'. repeat split; assumption.
  - rewrite russian_one_eq.
    destruct (step_tool_succeeds ffmpeg _ _ _ (russian_wav_backup name name)
                (russian_temp_backup name name) m f g Hf (temp_fresh name)
                Hexit Heff) as (m' & -> & Hw & Ht & _).
    eexists _, m'. repeat split; assumption.
Qed.

Lemma swap_follows_exit_status_witness :
  exists t' m',
    ConvertAllIeee.convert_one sloppy_tool "a.wav" (Tally 0 0 []) two_floats
    = Returned t' m'
    /\ success_count t' = 1%nat
    /\ failed_files t' = []
    /\ m' !! wav_path "a.wav" = Some (File ieee_wav 200)
    /\ m' !! ConvertAllIeee.temp_path "a.wav" = None.
Proof.
  apply (swap_follows_exit_status sloppy_tool "a.wav" (Tally 0 0 [])
           two_floats (File ieee_wav 100) (File ieee_wav 200)).
  - vm_compute. reflexivity.
  - reflexivity.
  - reflexivity.
Defined.

(** C3, counterexample: the tool exits with status zero but its output is
    a float file, which a probe classifies as non-canonical (tag 3, not 1);
    the loop still swaps it into place and counts a success. *)
Lemma swap_without_reprobe :
  exit_ok (sloppy_tool two_floats (wav_path "a.wav")
             (ConvertAllIeee.temp_path "a.wav")) = true
  /\ ConvertAllIeee.investigate_wav_format ieee_wav = Done (Some 3)
  /\ exists m',
       ConvertAllIeee.convert_loop sloppy_tool ["a.wav"] (Tally 0 0 [])
         two_floats = Returned (Tally 1 0 []) m'
       /\ m' !! wav_path "a.wav" = Some (File ieee_wav 200)
       /\ ConvertAllIeee.probe m' (wav_path "a.wav") = Some 3.
Proof.
  split; [reflexivity|]. split; [vm_compute; reflexivity|].
  eexists. split; [vm_compute; reflexivity|].
  split; vm_compute; reflexivity.
Qed.

(** ** Backups are kept *)

(** C4 (as the code has it): no path through the loops deletes a backup.
    Every completed iteration leaves in the backup the file it found at
    the original path, and is either counted as a success or recorded as
    failed with the original path restored to that same file; and when a
    loop has finished, the backup of every file it went through is still
    present, whatever the outcome of that file. *)
Theorem backups_never_released (ffmpeg : transcoder) :
  (forall (name : string) (t t' : tally) (m m' : gmap string file),
     ConvertAllIeee.convert_one ffmpeg name t m = Returned t' m' ->
     is_Some (m !! wav_path name)
     /\ m' !! ConvertAllIeee.backup_path name = m !! wav_path name
     /\ ((success_count t' = S (success_count t)
          /\ failed_names t' = failed_names t)
         \/ (success_count t' = success_count t
             /\ failed_names t' = failed_names t ++ [name]
             /\ m' !! wav_path name = m' !! ConvertAllIeee.backup_path name)))
  /\ (forall (name : string) (t t' : nat * list string)
        (m m' : gmap string file),
     ConvertChinese.convert_one ffmpeg name t m = Returned t' m' ->
     is_Some (m !! wav_path name)
     /\ m' !! ConvertChinese.backup_path name = m !! wav_path name
     /\ ((fst t' = S (fst t) /\ snd t' = snd t)
         \/ (fst t' = fst t
             /\ snd t' = snd t ++ [name]
             /\ m' !! wav_path name = m' !! ConvertChinese.backup_path name)))
  /\ (forall (files : list string) (t t' : tally) (m m' : gmap string file),
     ConvertAllIeee.convert_loop ffmpeg files t m = Returned t' m' ->
     forall name, name ∈ files ->
       is_Some (m' !! ConvertAllIeee.backup_path name))
  /\ (forall (files : list string) (t' : nat * list string)
        (m m' : gmap string file),
     ConvertChinese.backup_and_convert ffmpeg files m
     = Returned (Some t') m' ->
     forall name, name ∈ files ->
       is_Some (m' !! ConvertChinese.backup_path name)).
Proof.
  split; [|split; [|split]].
  - intros name t t' m m' Hrun. rewrite ieee_one_eq in Hrun.
    destruct (backup_convert_swap _ _ _ _ _) as [r m1|] eqn:Hstep;
      [|discriminate].
    injection Hrun as <- <-.
    apply step_returned in Hstep as (Hsome & Hb & Hw);
      [|apply ieee_wav_backup | apply ieee_temp_backup].
    split; [exact Hsome|]. split; [exact Hb|].
    rewrite ieee_failed_count. unfold ConvertAllIeee.count.
    destruct (fst r); [left; split; reflexivity|].
    right. rewrite Hb, Hw by reflexivity. repeat split.
  - intros name t t' m m' Hrun. rewrite chinese_one_eq in Hrun.
    destruct (backup_convert_swap _ _ _ _ _) as [r m1|] eqn:Hstep;
      [|discriminate].
    injection Hrun as <- <-.
    apply step_returned in Hstep as (Hsome & Hb & Hw);
      [|apply chinese_wav_backup | apply chinese_temp_backup].
    split; [exact Hsome|]. split; [exact Hb|].
    unfold ConvertChinese.count.
    destruct (fst r); [left; split; reflexivity|].
    right. rewrite Hb, Hw by reflexivity. repeat split.
  - intros files t t' m m' Hrun.
    exact (loop_backups ffmpeg wav_path ConvertAllIeee.backup_path
             ConvertAllIeee.temp_path (ConvertAllIeee.convert_one ffmpeg)
             ConvertAllIeee.count (ieee_one_eq ffmpeg) ieee_wav_backup
             ieee_temp_backup files _ _ _ _ Hrun).
  - intros files t' m m' Hrun.
    unfold ConvertChinese.backup_and_convert in Hrun.
    destruct files as [|n0 rest] eqn:Hfiles; [discriminate|].
    rewrite <- Hfiles in *. unfold sbind in Hrun.
    destruct (ConvertChinese.convert_loop ffmpeg files (0%nat, []) m)
      as [t1 m1|] eqn:Hloop; [|discriminate].
    injection Hrun as <- <-.
    exact (loop_backups ffmpeg wav_path ConvertChinese.backup_path
             ConvertChinese.temp_path (ConvertChinese.convert_one ffmpeg)
             ConvertChinese.count (chinese_one_eq ffmpeg) chinese_wav_backup
             chinese_temp_backup files _ _ _ _ Hloop).
Qed.

Lemma backups_never_released_witness :
  is_Some (final_fs (ConvertAllIeee.convert_loop picky_tool
                       ["a.wav"; "b.wav"] (Tally 0 0 []) two_floats)
             !! ConvertAllIeee.backup_path "b.wav").
Proof.
  destruct (backups_never_released picky_tool) as (_ & _ & Hloop & _).
  set (r := ConvertAllIeee.convert_loop picky_tool ["a.wav"; "b.wav"]
              (Tally 0 0 []) two_floats).
  assert (Hr : r = Returned (Tally 1 1 [("a.wav", "boom")]) (final_fs r))
    by (vm_compute; reflexivity).
  apply (Hloop ["a.wav"; "b.wav"] _ _ two_floats (final_fs r) Hr).
  right. left.
Defined.

(** C4, counterexample: a file is converted (one success, no failure) and
    its backup is still there after the loop, holding the original. *)
Lemma backup_kept_after_conversion :
  exists m',
    ConvertAllIeee.convert_loop good_tool ["a.wav"] (Tally 0 0 []) two_floats
    = Returned (Tally 1 0 []) m'
    /\ m' !! wav_path "a.wav" = Some (File sample_wav 200)
    /\ m' !! ConvertAllIeee.backup_path "a.wav" = Some (File ieee_wav 100).
Proof.
  eexists. split; [vm_compute; reflexivity|].
  split; vm_compute; reflexivity.
Qed.

(** ** Canonical files are left alone by convert_all_ieee_formats *)

Lemma ieee_files_spec (m : gmap string file) (wav_files : list string)
    (name : string) :
  name ∈ ConvertAllIeee.ieee_files m wav_files <->
  ConvertAllIeee.probe m (wav_path name) = Some 3 /\ name ∈ wav_files.
Proof.
  exact (list_elem_of_filter
           (fun w => ConvertAllIeee.probe m (joinpath wavs_dir w) = Some 3)
           wav_files name).
Qed.

Lemma pcm_files_spec (m : gmap string file) (wav_files : list string)
    (name : string) :
  name ∈ ConvertAllIeee.pcm_files m wav_files <->
  (ConvertAllIeee.probe m (wav_path name) <> Some 3
   /\ ConvertAllIeee.probe m (wav_path name) = Some 1) /\ name ∈ wav_files.
Proof.
  exact (list_elem_of_filter
           (fun w => ConvertAllIeee.probe m (joinpath wavs_dir w) <> Some 3
                     /\ ConvertAllIeee.probe m (joinpath wavs_dir w) = Some 1)
           wav_files name).
Qed.

(** [main] writes only to the original, backup, temporary and test paths
    of the files it classifies as float. *)
Lemma ieee_main_frame (ffmpeg : transcoder) (wav_files : list string)
    (confirmed : bool) (m0 : gmap string file) (p : string) :
  (forall g, g ∈ ConvertAllIeee.ieee_files m0 wav_files ->
     p <> wav_path g /\ p <> ConvertAllIeee.backup_path g
     /\ p <> ConvertAllIeee.temp_path g /\ p <> ConvertAllIeee.test_path g) ->
  final_fs (ConvertAllIeee.main ffmpeg wav_files confirmed m0) !! p = m0 !! p.
Proof.
  intros Hp. unfold ConvertAllIeee.main.
  destruct wav_files as [|w ws]; [reflexivity|].
  destruct (ConvertAllIeee.ieee_files m0 (w :: ws)) as [|test rest] eqn:Hie;
    [reflexivity|].
  destruct (Hp test) as (Hw & Hb & _ & Ht); [left|].
  fold (wav_path test) (ConvertAllIeee.backup_path test)
       (ConvertAllIeee.test_path test).
  unfold sbind at 1, copy2.
  destruct (m0 !! wav_path test) as [f|]; [|reflexivity].
  destruct (bool_decide _); [reflexivity|].
  set (m1 := <[ConvertAllIeee.backup_path test := f]> m0).
  assert (H1 : m1 !! p = m0 !! p)
    by (unfold m1; apply lookup_insert_ne; congruence).
  unfold sbind at 1, convert_wav_format.
  set (r := ffmpeg m1 (wav_path test) (ConvertAllIeee.test_path test)).
  set (m2 := apply_effect (ConvertAllIeee.test_path test) (effect r) m1).
  assert (H2 : m2 !! p = m0 !! p)
    by (unfold m2; rewrite apply_effect_other by congruence; exact H1).
  cbn [fst]. destruct (exit_ok r); [|exact H2].
  unfold sbind at 1, stat.
  destruct (m2 !! wav_path test); [|exact H2].
  unfold sbind at 1.
  destruct (m2 !! ConvertAllIeee.test_path test); [|exact H2].
  unfold sbind at 1, unlink.
  destruct (m2 !! ConvertAllIeee.test_path test); [|exact H2].
  set (m3 := delete (ConvertAllIeee.test_path test) m2).
  assert (H3 : m3 !! p = m0 !! p)
    by (unfold m3; rewrite lookup_delete_ne by congruence; exact H2).
  destruct (negb confirmed); [exact H3|].
  unfold sbind, ConvertAllIeee.convert_loop.
  pose proof (loop_frame ffmpeg wav_path ConvertAllIeee.backup_path
                ConvertAllIeee.temp_path (ConvertAllIeee.convert_one ffmpeg)
                ConvertAllIeee.count (ieee_one_eq ffmpeg) ieee_wav_backup
                p (test :: rest) (Tally 0 0 []) m3) as Hloop.
  destruct (for_each _ _ _ _) as [t' m'|e m']; simpl in *;
    (rewrite Hloop; [exact H3|]);
    intros g Hg; destruct (Hp g Hg) as (? & ? & ? & ?); auto.
Qed.

(** C5 (as the code has it): convert_all_ieee_formats probes every listed
    file and converts only those with format tag 3.  A file whose probe
    returns tag 1 is put in the PCM list, is not in the conversion list,
    and is not written to by the run, however the run ends: the file at its
    path, bytes and modification time, is the one that was there before.
    No listed float file has that file's name as its temporary or test
    output name. *)
Theorem canonical_untouched_by_ieee_main (ffmpeg : transcoder)
    (wav_files : list string) (confirmed : bool) (m0 : gmap string file)
    (name : string) :
  name ∈ wav_files ->
  ConvertAllIeee.probe m0 (wav_path name) = Some 1 ->
  (forall g, g ∈ ConvertAllIeee.ieee_files m0 wav_files ->
     wav_path name <> ConvertAllIeee.temp_path g
     /\ wav_path name <> ConvertAllIeee.test_path g) ->
  name ∈ ConvertAllIeee.pcm_files m0 wav_files
  /\ (name ∉ ConvertAllIeee.ieee_files m0 wav_files)
  /\ final_fs (ConvertAllIeee.main ffmpeg wav_files confirmed m0)
       !! wav_path name = m0 !! wav_path name
  /\ final_fs (ConvertAllIeee.main ffmpeg wav_files confirmed m0)
       !! ConvertAllIeee.backup_path name
     = m0 !! ConvertAllIeee.backup_path name.
Proof.
  intros Hin Hprobe Hcol.
  assert (Hnot : name ∉ ConvertAllIeee.ieee_files m0 wav_files).
  { rewrite ieee_files_spec. intros [E _]. congruence. }
  split; [|split; [exact Hnot|split]].
  - apply pcm_files_spec. rewrite Hprobe. repeat split; [discriminate|exact Hin].
  - apply ieee_main_frame. intros g Hg. destruct (Hcol g Hg) as [Ht Hs].
    repeat split; try assumption.
    + intros E. apply wav_path_inj in E. subst g. contradiction.
    + apply ieee_wav_backup.
  - apply ieee_main_frame. intros g Hg. repeat split.
    + apply not_eq_sym, ieee_wav_backup.
    + intros E. apply joinpath_inj in E. subst g. contradiction.
    + apply not_eq_sym, ieee_temp_backup.
    + apply not_eq_sym, ieee_test_backup.
Qed.

Lemma canonical_untouched_by_ieee_main_witness :
  final_fs (ConvertAllIeee.main good_tool ["a.wav"; "b.wav"] true
              float_and_pcm) !! wav_path "b.wav"
  = Some (File sample_wav 101).
Proof.
  apply (canonical_untouched_by_ieee_main good_tool ["a.wav"; "b.wav"] true
           float_and_pcm "b.wav").
  - right. left.
  - vm_compute. reflexivity.
  - intros g Hg. apply ieee_files_spec in Hg as [_ Hg].
    rewrite !elem_of_cons, elem_of_nil in Hg.
    destruct Hg as [->|[->|[]]]; split; intros E; vm_compute in E;
      discriminate E.
Defined.

(** C5, counterexample: convert_chinese_wav_format does not probe.  A file
    that is already canonical (tag 1) is backed up, transcoded and replaced:
    the file at its path after the run is not the one before it. *)
Lemma chinese_converts_canonical :
  ConvertAllIeee.probe chinese_pcm (wav_path "zh_1.wav") = Some 1
  /\ chinese_pcm !! wav_path "zh_1.wav" = Some (File sample_wav 100)
  /\ chinese_pcm !! ConvertChinese.backup_path "zh_1.wav" = None
  /\ exists m',
       ConvertChinese.backup_and_convert good_tool ["zh_1.wav"] chinese_pcm
       = Returned (Some (1%nat, [])) m'
       /\ m' !! wav_path "zh_1.wav" = Some (File sample_wav 200)
       /\ m' !! wav_path "zh_1.wav" <> chinese_pcm !! wav_path "zh_1.wav"
       /\ m' !! ConvertChinese.backup_path "zh_1.wav"
          = Some (File sample_wav 100).
Proof.
  split; [vm_compute; reflexivity|]. split; [vm_compute; reflexivity|].
  split; [vm_compute; reflexivity|].
  eexists. split; [vm_compute; reflexivity|].
  split; [vm_compute; reflexivity|].
  split; [vm_compute; discriminate | vm_compute; reflexivity].
Qed.

(** ** The duration estimate *)

(** The data-chunk branch that computes the exact duration needs the format
    variables, and the format branch returns as soon as it has set them:
    the loop never reaches the one after the other. *)
Lemma csv_loop_no_duration (k : nat) (fsz : Z) :
  forall (s s' : list byte) (r : CreateCsv.header_info),
  CreateCsv.chunk_loop k fsz None s = Done (Some r, s') ->
  CreateCsv.duration r = None /\ file_size (CreateCsv.format r) = fsz.
Proof.
  induction k as [|k IH]; intros s s' r H; [discriminate|].
  rewrite csv_step in H. destruct (is_empty s); [discriminate|].
  destruct (header_read s); [|discriminate]. cbv zeta in H.
  destruct (bytes_eqb (take 4 s) (bstr "fmt ")).
  - unfold bind at 1 in H.
    destruct (read_fmt_fields_cases fsz (drop 8 s))
      as [(f & s1 & E & Hsz) | E]; rewrite E in H; [|discriminate].
    injection H as <- _. split; [reflexivity | exact Hsz].
  - destruct (bytes_eqb (take 4 s) (bstr "data")); eapply IH; exact H.
Qed.

Lemma read_wav_header_no_duration (wav : list byte)
    (r : CreateCsv.header_info) :
  CreateCsv.read_wav_header wav = Done (Some r) ->
  CreateCsv.duration r = None.
Proof.
  rewrite csv_top. destruct (negb _); [discriminate|].
  destruct (header_read wav); [|discriminate].
  destruct (negb _); [discriminate|].
  destruct (CreateCsv.chunk_loop _ _ _ _) as [[[r'|] s']| |] eqn:E;
    try discriminate.
  intros [= <-]. apply csv_loop_no_duration in E as [E _]. exact E.
Qed.


(** The header reader rejects a file whose magic tags are wrong. *)
Lemma read_wav_header_bad_magic (wav : list byte) :
  take 4 wav <> bstr "RIFF" \/ take 4 (drop 8 wav) <> bstr "WAVE" ->
  CreateCsv.read_wav_header wav = Done None.
Proof.
  intros H. rewrite csv_top.
  destruct (bytes_eqb (take 4 wav) (bstr "RIFF")) eqn:E1; [|reflexivity].
  simpl. destruct (header_read wav); [|reflexivity].
  destruct (bytes_eqb (take 4 (drop 8 wav)) (bstr "WAVE")) eqn:E2;
    [|reflexivity].
  apply bytes_eqb_true in E1, E2. destruct H; contradiction.
Qed.

(** What [get_audio_duration] returns, by the result of the header
    reader: always the estimate from the size field of the outer header. *)
Lemma get_audio_duration_found (wav : list byte) (h : CreateCsv.header_info) :
  CreateCsv.read_wav_header wav = Done (Some h) ->
  CreateCsv.get_audio_duration wav =
  if Z.eqb (byte_rate (CreateCsv.format h)) 0 then Done None
  else Done (Some (inject_Z (file_size (CreateCsv.format h) - 44)
                   / inject_Z (byte_rate (CreateCsv.format h)))%Q).
Proof.
  intros H. pose proof (read_wav_header_no_duration wav h H) as Hd.
  unfold CreateCsv.get_audio_duration. rewrite H. simpl obind.
  destruct h as [f d]. simpl in Hd. subst d. simpl obind.
  unfold truediv. simpl.
  destruct (Z.eqb (byte_rate f) 0); reflexivity.
Qed.


(** C2, at a file with a format chunk followed by a data chunk of 44 bytes
    (22050 Hz, mono, 16 bits): the header reader returns at the format
    chunk without a duration, and the estimator answers from the size field
    of the outer header, [(80 - 44) / 44100], which is farther than 1e-6
    from the exact [44 / (22050 * 1 * 2)]. *)
Theorem exact_duration_not_returned :
  sample_wav
  = riff_prefix 80 ++ fmt_chunk 1 1 22050 44100 2 16
      ++ data_chunk (replicate 44 x00)
  /\ data_chunk_located sample_wav = true
  /\ CreateCsv.read_wav_header sample_wav
     = Done (Some (CreateCsv.HeaderInfo
                     (WavFormat 1 1 22050 44100 2 16 80) None))
  /\ exists d : Q,
       CreateCsv.get_audio_duration sample_wav = Done (Some d)
       /\ (d == 36 # 44100)%Q
       /\ (1 # 1000000 < Qabs (d - exact_duration 44 22050 1 16))%Q.
Proof.
  split; [reflexivity|]. split; [vm_compute; reflexivity|].
  split; [vm_compute; reflexivity|].
  eexists. split; [vm_compute; reflexivity|].
  split; vm_compute; reflexivity.
Qed.

(** C6, at a file that starts with neither magic tag: the probe of
    convert_all_ieee_formats reads the twelve bytes without comparing them
    and returns the format tag found behind them, while the header reader
    of create_audio_duration_csv rejects the same file. *)
Theorem bad_magic_probed :
  take 4 bad_magic_wav <> bstr "RIFF"
  /\ take 4 (drop 8 bad_magic_wav) <> bstr "WAVE"
  /\ ConvertAllIeee.investigate_wav_format bad_magic_wav = Done (Some 3)
  /\ CreateCsv.read_wav_header bad_magic_wav = Done None.
Proof.
  split; [vm_compute; discriminate|]. split; [vm_compute; discriminate|].
  split; vm_compute; reflexivity.
Qed.







(** * Further properties of the scripts *)

(** ** The classification of convert_all_ieee_formats *)

(** X1: the three lists built by the classification loop of [main] split
    the listing: their lengths add up to its length, each list is made of
    listed names, and every listed name is in exactly one of them. *)
Theorem classification_partitions (m : gmap string file)
    (wav_files : list string) :
  (length (ConvertAllIeee.ieee_files m wav_files)
   + length (ConvertAllIeee.pcm_files m wav_files)
   + length (ConvertAllIeee.other_files m wav_files)
   = length wav_files)%nat
  /\ forall name : string,
       (name ∈ wav_files <->
        name ∈ ConvertAllIeee.ieee_files m wav_files
        \/ name ∈ ConvertAllIeee.pcm_files m wav_files
        \/ name ∈ ConvertAllIeee.other_files m wav_files)
       /\ ~ (name ∈ ConvertAllIeee.ieee_files m wav_files
             /\ name ∈ ConvertAllIeee.pcm_files m wav_files)
       /\ ~ (name ∈ ConvertAllIeee.ieee_files m wav_files
             /\ name ∈ ConvertAllIeee.other_files m wav_files)
       /\ ~ (name ∈ ConvertAllIeee.pcm_files m wav_files
             /\ name ∈ ConvertAllIeee.other_files m wav_files).
Proof.
  split.
  - unfold ConvertAllIeee.ieee_files, ConvertAllIeee.pcm_files,
      ConvertAllIeee.other_files.
    induction wav_files as [|w ws IH]; [reflexivity|].
    rewrite !filter_cons.
    destruct (decide (ConvertAllIeee.probe m (joinpath wavs_dir w) = Some 3))
      as [E3|N3].
    + rewrite !decide_False by (intros [H _]; contradiction).
      simpl. lia.
    + destruct (decide (ConvertAllIeee.probe m (joinpath wavs_dir w) = Some 1))
        as [E1|N1].
      * rewrite decide_True by auto.
        rewrite decide_False by (intros [_ H]; contradiction).
        simpl. lia.
      * rewrite decide_False by (intros [_ H]; contradiction).
        rewrite decide_True by auto.
        simpl. lia.
  - intros name.
    unfold ConvertAllIeee.ieee_files, ConvertAllIeee.pcm_files,
      ConvertAllIeee.other_files.
    rewrite !list_elem_of_filter.
    destruct (decide (ConvertAllIeee.probe m (joinpath wavs_dir name)
                      = Some 3)) as [E3|N3];
      destruct (decide (ConvertAllIeee.probe m (joinpath wavs_dir name)
                        = Some 1)) as [E1|N1];
      intuition congruence.
Qed.

(** X2: when no listed file probes as float (tag 3), [main] returns before
    the test conversion and leaves the whole file system as it was. *)
Theorem main_noop_without_float (ffmpeg : transcoder)
    (wav_files : list string) (confirmed : bool) (m0 : gmap string file) :
  (forall name, name ∈ wav_files ->
     ConvertAllIeee.probe m0 (wav_path name) <> Some 3) ->
  ConvertAllIeee.main ffmpeg wav_files confirmed m0 = Returned None m0.
Proof.
  intros Hno. unfold ConvertAllIeee.main.
  destruct wav_files as [|w ws]; [reflexivity|].
  destruct (ConvertAllIeee.ieee_files m0 (w :: ws)) as [|x rest] eqn:E;
    [reflexivity|].
  assert (Hx : x ∈ ConvertAllIeee.ieee_files m0 (w :: ws))
    by (rewrite E; left).
  apply ieee_files_spec in Hx as [H3 Hin].
  destruct (Hno x Hin H3).
Qed.

Lemma main_noop_without_float_witness :
  ConvertAllIeee.main sloppy_tool ["zh_1.wav"] true chinese_pcm
  = Returned None chinese_pcm.
Proof.
  apply main_noop_without_float.
  intros name Hin. apply list_elem_of_singleton in Hin. subst name.
  vm_compute. discriminate.
Defined.

(** ** What the counters of a finished loop say *)

Section Counting.

Context {T : Type}.
Variable body : string -> T -> script T.

Lemma for_each_count (mu : T -> nat) :
  (forall n t m t1 m1, body n t m = Returned t1 m1 -> mu t1 = S (mu t)) ->
  forall (files : list string) (t t' : T) (m m' : gmap string file),
  for_each body files t m = Returned t' m' ->
  mu t' = (mu t + length files)%nat.
Proof.
  intros Hstep files. induction files as [|n rest IH]; intros t t' m m' H.
  - injection H as <- _. simpl. lia.
  - simpl in H. unfold sbind in H.
    destruct (body n t m) as [t1 m1|] eqn:E; [|discriminate].
    rewrite (IH _ _ _ _ H), (Hstep _ _ _ _ _ E). simpl. lia.
Qed.

Lemma for_each_invariant (I : T -> Prop) :
  (forall n t m t1 m1, body n t m = Returned t1 m1 -> I t -> I t1) ->
  forall (files : list string) (t t' : T) (m m' : gmap string file),
  for_each body files t m = Returned t' m' -> I t -> I t'.
Proof.
  intros Hstep files. induction files as [|n rest IH]; intros t t' m m' H Ht.
  - injection H as <- _. exact Ht.
  - simpl in H. unfold sbind in H.
    destruct (body n t m) as [t1 m1|] eqn:E; [|discriminate].
    eapply IH; [exact H|]. eapply Hstep; eassumption.
Qed.

End Counting.

Lemma ieee_one_counts (ffmpeg : transcoder) (n : string) (t t1 : tally)
    (m m1 : gmap string file) :
  ConvertAllIeee.convert_one ffmpeg n t m = Returned t1 m1 ->
  (success_count t1 + failed_count t1 = S (success_count t + failed_count t))%nat
  /\ (length (failed_files t) = failed_count t ->
      length (failed_files t1) = failed_count t1).
Proof.
  rewrite ieee_one_eq.
  destruct (backup_convert_swap _ _ _ _ _) as [[[|] e] m'|]; [| |discriminate];
    intros [= <- _]; unfold ConvertAllIeee.count; simpl; split; try lia;
    intros H; try rewrite length_app; simpl; lia.
Qed.

Lemma russian_one_counts (ffmpeg : transcoder) (n : string) (t t1 : tally)
    (m m1 : gmap string file) :
  ConvertRussian.convert_one ffmpeg n t m = Returned t1 m1 ->
  (success_count t1 + failed_count t1 = S (success_count t + failed_count t))%nat
  /\ (length (failed_files t) = failed_count t ->
      length (failed_files t1) = failed_count t1).
Proof.
  rewrite russian_one_eq.
  destruct (backup_convert_swap _ _ _ _ _) as [[[|] e] m'|]; [| |discriminate];
    intros [= <- _]; unfold ConvertRussian.count; simpl; split; try lia;
    intros H; try rewrite length_app; simpl; lia.
Qed.

Lemma chinese_one_counts (ffmpeg : transcoder) (n : string)
    (t t1 : nat * list string) (m m1 : gmap string file) :
  ConvertChinese.convert_one ffmpeg n t m = Returned t1 m1 ->
  (fst t1 + length (snd t1) = S (fst t + length (snd t)))%nat.
Proof.
  rewrite chinese_one_eq.
  destruct (backup_convert_swap _ _ _ _ _) as [[[|] e] m'|]; [| |discriminate];
    intros [= <- _]; unfold ConvertChinese.count; simpl;
    try rewrite length_app; simpl; lia.
Qed.

(** X3: when a conversion loop has gone through its whole list, every
    listed file has been counted once, as a success or as a failure, and
    the list of failed files has one entry per failure.  This holds for
    the loops of the three scripts and for the tally [main] ends with. *)
Theorem finished_loop_counts_every_file (ffmpeg : transcoder)
    (files : list string) (m m' : gmap string file) :
  (forall t' : tally,
     ConvertAllIeee.convert_loop ffmpeg files (Tally 0 0 []) m
     = Returned t' m' ->
     (success_count t' + failed_count t' = length files)%nat
     /\ length (failed_files t') = failed_count t')
  /\ (forall t' : tally,
     ConvertRussian.convert_loop ffmpeg files (Tally 0 0 []) m
     = Returned t' m' ->
     (success_count t' + failed_count t' = length files)%nat
     /\ length (failed_files t') = failed_count t')
  /\ (forall t' : nat * list string,
     ConvertChinese.backup_and_convert ffmpeg files m = Returned (Some t') m' ->
     (fst t' + length (snd t') = length files)%nat)
  /\ (forall (confirmed : bool) (t' : tally),
     ConvertAllIeee.main ffmpeg files confirmed m = Returned (Some t') m' ->
     (success_count t' + failed_count t'
      = length (ConvertAllIeee.ieee_files m files))%nat
     /\ length (failed_files t') = failed_count t').
Proof.
  assert (Hieee : forall (l : list string) (m1 m2 : gmap string file) t',
            ConvertAllIeee.convert_loop ffmpeg l (Tally 0 0 []) m1
            = Returned t' m2 ->
            (success_count t' + failed_count t' = length l)%nat
            /\ length (failed_files t') = failed_count t').
  { intros l m1 m2 t' H. split.
    - apply (for_each_count (ConvertAllIeee.convert_one ffmpeg)
               (fun t => (success_count t + failed_count t)%nat)) in H;
        [exact H|].
      intros n t m3 t1 m4 E. apply ieee_one_counts in E as [E _]. exact E.
    - apply (for_each_invariant (ConvertAllIeee.convert_one ffmpeg)
               (fun t => length (failed_files t) = failed_count t)) in H;
        [exact H| |reflexivity].
      intros n t m3 t1 m4 E. apply ieee_one_counts in E as [_ E]. exact E. }
  split; [apply Hieee|]. split; [|split].
  - intros t' H. split.
    + apply (for_each_count (ConvertRussian.convert_one ffmpeg)
               (fun t => (success_count t + failed_count t)%nat)) in H;
        [exact H|].
      intros n t m3 t1 m4 E. apply russian_one_counts in E as [E _]. exact E.
    + apply (for_each_invariant (ConvertRussian.convert_one ffmpeg)
               (fun t => length (failed_files t) = failed_count t)) in H;
        [exact H| |reflexivity].
      intros n t m3 t1 m4 E. apply russian_one_counts in E as [_ E]. exact E.
  - intros t' H. unfold ConvertChinese.backup_and_convert in H.
    destruct files as [|n0 rest] eqn:Hfiles; [discriminate|].
    rewrite <- Hfiles in *. unfold sbind in H.
    destruct (ConvertChinese.convert_loop ffmpeg files (0%nat, []) m)
      as [t1 m1|] eqn:Hloop; [|discriminate].
    injection H as <- <-.
    apply (for_each_count (ConvertChinese.convert_one ffmpeg)
             (fun t => (fst t + length (snd t))%nat)) in Hloop;
      [exact Hloop|].
    intros n t m3 t2 m4 E. apply chinese_one_counts in E. exact E.
  - intros confirmed t' H. unfold ConvertAllIeee.main in H.
    destruct files as [|w ws] eqn:Hfiles; [discriminate|].
    rewrite <- Hfiles in *.
    destruct (ConvertAllIeee.ieee_files m files) as [|test rest] eqn:Hie;
      [discriminate|].
    unfold sbind at 1 in H.
    destruct (copy2 _ _ m) as [? mm1|]; [|discriminate].
    unfold sbind at 1 in H.
    destruct (convert_wav_format _ _ _ mm1) as [r mm2|]; [|discriminate].
    destruct (fst r); [|discriminate].
    unfold sbind at 1 in H. destruct (stat _ mm2) as [? mm3|]; [|discriminate].
    unfold sbind at 1 in H. destruct (stat _ mm3) as [? mm4|]; [|discriminate].
    unfold sbind at 1 in H. destruct (unlink _ mm4) as [? mm5|]; [|discriminate].
    destruct (negb confirmed); [discriminate|].
    unfold sbind in H.
    destruct (ConvertAllIeee.convert_loop ffmpeg _ _ mm5) as [t1 mm6|] eqn:El;
      [|discriminate].
    injection H as <- <-. eapply Hieee. exact El.
Qed.

Lemma finished_loop_counts_every_file_witness :
  exists t' m',
    ConvertAllIeee.convert_loop picky_tool ["a.wav"; "b.wav"] (Tally 0 0 [])
      two_floats = Returned t' m'
    /\ (success_count t' + failed_count t' = 2)%nat.
Proof.
  set (r := ConvertAllIeee.convert_loop picky_tool ["a.wav"; "b.wav"]
              (Tally 0 0 []) two_floats).
  assert (Hr : r = Returned (Tally 1 1 [("a.wav", "boom")]) (final_fs r))
    by (vm_compute; reflexivity).
  exists (Tally 1 1 [("a.wav", "boom")]), (final_fs r).
  split; [exact Hr|].
  destruct (finished_loop_counts_every_file picky_tool ["a.wav"; "b.wav"]
              two_floats (final_fs r)) as (H & _).
  apply (H _ Hr).
Defined.

(** ** Paths derived from a file name *)

Lemma test_fresh (name : string) :
  joinpath wavs_dir (stem name +:+ ".test.wav") <> joinpath wavs_dir name.
Proof.
  intros E. apply joinpath_inj in E.
  revert E. apply (stem_ext_fresh name ".test.wav" 4). reflexivity.
Qed.

Lemma chinese_test_fresh (name : string) :
  joinpath wavs_dir (with_suffix name ".test.wav") <> joinpath wavs_dir name.
Proof.
  intros E. apply joinpath_inj in E. rewrite with_suffix_stem in E.
  revert E. apply (stem_ext_fresh name ".test.wav" 4). reflexivity.
Qed.

(** X4: for every file name, the temporary and test output paths that the
    three scripts derive from it differ from the path of the file itself
    and from every backup path, and the backup path differs from the path
    of every audio file: the tool is never pointed at its own input or at
    a backup, and a backup never lands on an audio file. *)
Theorem derived_paths_are_fresh (name other : string) :
  (ConvertAllIeee.temp_path name <> wav_path name
   /\ ConvertAllIeee.test_path name <> wav_path name
   /\ ConvertAllIeee.temp_path name <> ConvertAllIeee.backup_path other
   /\ ConvertAllIeee.test_path name <> ConvertAllIeee.backup_path other
   /\ ConvertAllIeee.backup_path name <> wav_path other)
  /\ (ConvertRussian.temp_path name <> wav_path name
      /\ ConvertRussian.temp_path name <> ConvertRussian.backup_path other
      /\ ConvertRussian.backup_path name <> wav_path other)
  /\ (ConvertChinese.temp_path name <> wav_path name
      /\ ConvertChinese.test_path name <> wav_path name
      /\ ConvertChinese.temp_path name <> ConvertChinese.backup_path other
      /\ ConvertChinese.test_path name <> ConvertChinese.backup_path other
      /\ ConvertChinese.backup_path name <> wav_path other).
Proof.
  repeat split;
    try apply temp_fresh; try apply test_fresh; try apply tmp_fresh;
    try apply chinese_test_fresh;
    try (apply wavs_not_backup; auto);
    apply not_eq_sym, wavs_not_backup; auto.
Qed.

(** ** What a conversion loop never writes *)

(** X5: a path that is no listed file's original, backup or temporary path
    keeps its file, or its absence of a file, through the whole loop of
    each of the three scripts, whatever the tool does and whether the loop
    finishes or stops on an exception. *)
Theorem loops_write_only_their_paths (ffmpeg : transcoder)
    (files : list string) (m : gmap string file) (p : string) :
  ((forall n, n ∈ files ->
      p <> wav_path n /\ p <> ConvertAllIeee.backup_path n
      /\ p <> ConvertAllIeee.temp_path n) ->
   forall t, final_fs (ConvertAllIeee.convert_loop ffmpeg files t m) !! p
             = m !! p)
  /\ ((forall n, n ∈ files ->
         p <> wav_path n /\ p <> ConvertRussian.backup_path n
         /\ p <> ConvertRussian.temp_path n) ->
      forall t, final_fs (ConvertRussian.convert_loop ffmpeg files t m) !! p
                = m !! p)
  /\ ((forall n, n ∈ files ->
         p <> wav_path n /\ p <> ConvertChinese.backup_path n
         /\ p <> ConvertChinese.temp_path n) ->
      final_fs (ConvertChinese.backup_and_convert ffmpeg files m) !! p
      = m !! p).
Proof.
  split; [|split].
  - intros Hp t.
    exact (loop_frame ffmpeg wav_path ConvertAllIeee.backup_path
             ConvertAllIeee.temp_path (ConvertAllIeee.convert_one ffmpeg)
             ConvertAllIeee.count (ieee_one_eq ffmpeg) ieee_wav_backup
             p files t m Hp).
  - intros Hp t.
    exact (loop_frame ffmpeg wav_path ConvertRussian.backup_path
             ConvertRussian.temp_path (ConvertRussian.convert_one ffmpeg)
             ConvertRussian.count (russian_one_eq ffmpeg) russian_wav_backup
             p files t m Hp).
  - intros Hp. unfold ConvertChinese.backup_and_convert.
    destruct files as [|n0 rest] eqn:Hfiles; [reflexivity|].
    rewrite <- Hfiles in *. unfold sbind.
    pose proof (loop_frame ffmpeg wav_path ConvertChinese.backup_path
                  ConvertChinese.temp_path (ConvertChinese.convert_one ffmpeg)
                  ConvertChinese.count (chinese_one_eq ffmpeg)
                  chinese_wav_backup p files (0%nat, []) m Hp) as H.
    unfold ConvertChinese.convert_loop.
    destruct (for_each _ _ _ _) as [t1 m1|e m1]; exact H.
Qed.

Lemma loops_write_only_their_paths_witness :
  final_fs (ConvertChinese.backup_and_convert good_tool ["zh_1.wav"]
              (<["raw/wavs/other.wav" := File ieee_wav 5]> chinese_pcm))
    !! "raw/wavs/other.wav"
  = Some (File ieee_wav 5).
Proof.
  destruct (loops_write_only_their_paths good_tool ["zh_1.wav"]
              (<["raw/wavs/other.wav" := File ieee_wav 5]> chinese_pcm)
              "raw/wavs/other.wav") as (_ & _ & H).
  rewrite H; [vm_compute; reflexivity|].
  intros n Hn. apply list_elem_of_singleton in Hn. subst n.
  repeat split; intros E; vm_compute in E; discriminate E.
Defined.

(** ** A zero exit status with no output file *)

Section NoOutput.

Variable ffmpeg : transcoder.
Variables wav_file backup_file temp_output : string.
Hypothesis wav_not_backup : wav_file <> backup_file.
Hypothesis temp_not_backup : temp_output <> backup_file.
Hypothesis temp_not_wav : temp_output <> wav_file.

(** The original is unlinked before the rename is attempted. *)
Lemma step_success_no_output (m : gmap string file) (f : file) :
  m !! wav_file = Some f -> m !! temp_output = None ->
  exit_ok (ffmpeg (backed_up backup_file f m) wav_file temp_output) = true ->
  (forall g, effect (ffmpeg (backed_up backup_file f m) wav_file temp_output)
             <> Written g) ->
  exists m',
    backup_convert_swap ffmpeg wav_file backup_file temp_output m
    = Crashed FileNotFoundError m'
    /\ m' !! wav_file = None
    /\ m' !! backup_file = Some f
    /\ m' !! temp_output = None.
Proof.
  intros Hf Ht Hexit Heff.
  rewrite (step_unfold ffmpeg _ _ _ m f Hf wav_not_backup). cbv zeta.
  rewrite Hexit.
  set (m2 := apply_effect temp_output _ (backed_up backup_file f m)).
  assert (Hw2 : m2 !! wav_file = Some f).
  { unfold m2. rewrite apply_effect_other by assumption.
    unfold backed_up. rewrite lookup_insert_ne by congruence. exact Hf. }
  assert (Hb2 : m2 !! backup_file = Some f)
    by (apply effect_keeps_backup; assumption).
  assert (Ht2 : m2 !! temp_output = None).
  { unfold m2.
    destruct (effect (ffmpeg (backed_up backup_file f m) wav_file temp_output))
      as [|g|] eqn:E; simpl.
    - unfold backed_up. rewrite lookup_insert_ne by congruence. exact Ht.
    - destruct (Heff g eq_refl).
    - apply lookup_delete_eq. }
  rewrite Hw2, lookup_delete_ne, Ht2 by congruence.
  eexists. split; [reflexivity|]. split; [apply lookup_delete_eq|].
  split; rewrite lookup_delete_ne by congruence; assumption.
Qed.

End NoOutput.

(** X6: when the tool exits with status zero but leaves no file at the
    temporary path, the iteration deletes the original and then fails to
    rename: [FileNotFoundError] propagates and stops the loop, the
    original path is empty, and the file survives in the backup only. *)
Theorem success_without_output_loses_original (ffmpeg : transcoder)
    (name : string) (rest : list string) (t : tally)
    (m : gmap string file) (f : file) :
  m !! wav_path name = Some f ->
  m !! ConvertAllIeee.temp_path name = None ->
  exit_ok (ffmpeg (backed_up (ConvertAllIeee.backup_path name) f m)
             (wav_path name) (ConvertAllIeee.temp_path name)) = true ->
  (forall g,
     effect (ffmpeg (backed_up (ConvertAllIeee.backup_path name) f m)
               (wav_path name) (ConvertAllIeee.temp_path name))
     <> Written g) ->
  exists m',
    ConvertAllIeee.convert_loop ffmpeg (name :: rest) t m
    = Crashed FileNotFoundError m'
    /\ m' !! wav_path name = None
    /\ m' !! ConvertAllIeee.backup_path name = Some f.
Proof.
  intros Hf Ht Hexit Heff.
  destruct (step_success_no_output ffmpeg _ _ _ (ieee_wav_backup name name)
              (ieee_temp_backup name name) (temp_fresh name) m f Hf Ht
              Hexit Heff) as (m' & Hstep & Hw & Hb & _).
  exists m'. split; [|split; assumption].
  unfold ConvertAllIeee.convert_loop. simpl. unfold sbind.
  rewrite ieee_one_eq, Hstep. reflexivity.
Qed.

Lemma success_without_output_loses_original_witness :
  exists m',
    ConvertAllIeee.convert_loop silent_tool ["a.wav"; "b.wav"] (Tally 0 0 [])
      two_floats = Crashed FileNotFoundError m'
    /\ m' !! wav_path "a.wav" = None
    /\ m' !! ConvertAllIeee.backup_path "a.wav" = Some (File ieee_wav 100).
Proof.
  apply (success_without_output_loses_original silent_tool "a.wav" ["b.wav"]
           (Tally 0 0 []) two_floats (File ieee_wav 100)).
  - vm_compute. reflexivity.
  - vm_compute. reflexivity.
  - reflexivity.
  - intros g E. discriminate E.
Defined.

(** ** Backups and their restoration *)

Section Restore.

Variables backup_dir target_dir : string.
Hypothesis dirs_apart :
  forall a c : string, joinpath backup_dir a <> joinpath target_dir c.

(** The restoring loop: every listed backup must be there; each target
    then holds its backup and nothing else changes. *)
Lemma restore_loop (backup_files : list string) :
  forall (k : nat) (m : gmap string file),
  (forall n, n ∈ backup_files -> is_Some (m !! joinpath backup_dir n)) ->
  exists m',
    for_each (RestoreOriginal.restore_one backup_dir target_dir)
      backup_files k m = Returned (k + length backup_files)%nat m'
    /\ (forall n, n ∈ backup_files ->
          m' !! joinpath target_dir n = m !! joinpath backup_dir n)
    /\ (forall p, (forall n, n ∈ backup_files -> p <> joinpath target_dir n) ->
          m' !! p = m !! p).
Proof.
  induction backup_files as [|n rest IH]; intros k m Hall.
  { exists m. split; [simpl; rewrite Nat.add_0_r; reflexivity|].
    split; [intros n Hn; inversion Hn | reflexivity]. }
  destruct (Hall n) as [f Hf]; [left|].
  set (m1 := <[joinpath target_dir n := f]> m).
  assert (Hone : RestoreOriginal.restore_one backup_dir target_dir n k m
                 = Returned (S k) m1).
  { unfold RestoreOriginal.restore_one, sbind, copy2. rewrite Hf.
    rewrite bool_decide_eq_false_2 by apply dirs_apart. reflexivity. }
  assert (Hb1 : forall c, m1 !! joinpath backup_dir c
                          = m !! joinpath backup_dir c).
  { intros c. unfold m1. apply lookup_insert_ne.
    apply not_eq_sym, dirs_apart. }
  destruct (IH (S k) m1) as (m' & Hrun & Htargets & Hframe).
  { intros c Hc. rewrite Hb1. apply Hall. right. exact Hc. }
  exists m'. split; [|split].
  - simpl. unfold sbind. rewrite Hone, Hrun. f_equal. lia.
  - intros c Hc. destruct (decide (c ∈ rest)) as [Hin|Hout].
    + rewrite Htargets, Hb1 by assumption. reflexivity.
    + apply elem_of_cons in Hc as [->|Hc]; [|contradiction].
      rewrite Hframe.
      * unfold m1. rewrite lookup_insert_eq. symmetry. exact Hf.
      * intros c Hc E. apply joinpath_inj in E. subst c. contradiction.
  - intros p Hp. rewrite Hframe.
    + unfold m1. apply lookup_insert_ne. apply not_eq_sym, Hp. left.
    + intros c Hc. apply Hp. right. exact Hc.
Qed.

End Restore.

(** X7: [restore_from_backup] returns 0 and changes nothing when the
    backup directory is missing.  Otherwise, with every listed backup in
    place, it returns the number of listed files, each target path then
    holds the file of its backup, and every other path, the backups
    included, is as before. *)
Theorem restore_copies_every_backup (backup_dir target_dir : string)
    (backup_files : list string) (m : gmap string file) :
  (forall a c : string, joinpath backup_dir a <> joinpath target_dir c) ->
  RestoreOriginal.restore_from_backup backup_dir target_dir false
    backup_files m = Returned 0%nat m
  /\ ((forall n, n ∈ backup_files -> is_Some (m !! joinpath backup_dir n)) ->
      exists m',
        RestoreOriginal.restore_from_backup backup_dir target_dir true
          backup_files m = Returned (length backup_files) m'
        /\ (forall n, n ∈ backup_files ->
              m' !! joinpath target_dir n = m !! joinpath backup_dir n)
        /\ (forall p,
              (forall n, n ∈ backup_files -> p <> joinpath target_dir n) ->
              m' !! p = m !! p)).
Proof.
  intros Hdirs. split; [reflexivity|]. intros Hall.
  apply (restore_loop backup_dir target_dir Hdirs backup_files 0%nat m Hall).
Qed.

Lemma restore_copies_every_backup_witness :
  exists m',
    RestoreOriginal.restore_from_backup ConvertAllIeee.backup_dir wavs_dir
      true ["a.wav"]
      (<["backup_all_ieee_wavs/a.wav" := File ieee_wav 100]> chinese_pcm)
    = Returned 1%nat m'
    /\ m' !! wav_path "a.wav" = Some (File ieee_wav 100).
Proof.
  destruct (restore_copies_every_backup ConvertAllIeee.backup_dir wavs_dir
              ["a.wav"]
              (<["backup_all_ieee_wavs/a.wav" := File ieee_wav 100]>
                 chinese_pcm)) as [_ H].
  - intros a c. apply not_eq_sym, wavs_not_backup. auto.
  - destruct H as (m' & Hrun & Htarget & _).
    + intros n Hn. apply list_elem_of_singleton in Hn. subst n.
      vm_compute. eauto.
    + exists m'. split; [exact Hrun|].
      change (wav_path "a.wav") with (joinpath wavs_dir "a.wav").
      rewrite Htarget by left. vm_compute. reflexivity.
Defined.

Section Backups.

Context {T : Type}.
Variable ffmpeg : transcoder.
Variables wavp backp tempp : string -> string.
Variable one : string -> T -> script T.
Variable upd : string -> bool * string -> T -> T.

Hypothesis one_eq : forall (name : string) (t : T) (m : gmap string file),
  one name t m =
  match backup_convert_swap ffmpeg (wavp name) (backp name) (tempp name) m with
  | Returned r m' => Returned (upd name r t) m'
  | Crashed e m' => Crashed e m'
  end.
Hypothesis wav_backup : forall a c : string, wavp a <> backp c.
Hypothesis temp_backup : forall a c : string, tempp a <> backp c.
Hypothesis wav_inj : forall a c : string, wavp a = wavp c -> a = c.
Hypothesis back_inj : forall a c : string, backp a = backp c -> a = c.

(** When the loop completes, each backup holds the file that was at the
    original path before the loop. *)
Lemma loop_backup_content (files : list string) :
  forall (t t' : T) (m m' : gmap string file),
  for_each one files t m = Returned t' m' ->
  NoDup files ->
  (forall a c, a ∈ files -> c ∈ files -> a <> c -> wavp a <> tempp c) ->
  forall n, n ∈ files ->
    is_Some (m !! wavp n) /\ m' !! backp n = m !! wavp n.
Proof.
  induction files as [|n rest IH]; intros t t' m m' Hrun Hnd Hcol g Hg.
  { inversion Hg. }
  apply NoDup_cons in Hnd as [Hn Hnd].
  simpl in Hrun. unfold sbind in Hrun.
  destruct (one n t m) as [t1 m1|e m1] eqn:Hone; [|discriminate].
  assert (Hstep : exists r,
             backup_convert_swap ffmpeg (wavp n) (backp n) (tempp n) m
             = Returned r m1).
  { rewrite one_eq in Hone.
    destruct (backup_convert_swap _ _ _ _ _) as [r mm|]; [|discriminate].
    injection Hone as _ <-. eauto. }
  destruct Hstep as [r Hstep].
  apply elem_of_cons in Hg as [->|Hg].
  - apply step_returned in Hstep as (Hsome & Hb & _);
      [|apply wav_backup | apply temp_backup].
    split; [exact Hsome|]. rewrite <- Hb.
    change m' with (final_fs (Returned t' m')). rewrite <- Hrun.
    apply (loop_frame ffmpeg wavp backp tempp one upd one_eq wav_backup).
    intros c Hc. repeat split.
    + apply not_eq_sym, wav_backup.
    + intros E. apply back_inj in E. subst c. contradiction.
    + apply not_eq_sym, temp_backup.
  - destruct (IH t1 t' m1 m' Hrun Hnd) with (n := g) as [Hsome Hb];
      [intros a c Ha Hc; apply Hcol; right; assumption | exact Hg |].
    assert (Hfirst : m1 !! wavp g = m !! wavp g).
    { change m1 with (final_fs (Returned r m1)). rewrite <- Hstep.
      apply step_frame.
      - apply wav_backup.
      - intros E. apply wav_inj in E. subst g. contradiction.
      - apply wav_backup.
      - apply Hcol; [right; exact Hg | left | intros ->; contradiction]. }
    rewrite Hfirst in Hsome, Hb. split; assumption.
Qed.

End Backups.

Lemma ieee_loop_backups (ffmpeg : transcoder) (files : list string)
    (t t' : tally) (m m' : gmap string file) :
  ConvertAllIeee.convert_loop ffmpeg files t m = Returned t' m' ->
  NoDup files ->
  (forall a c, a ∈ files -> c ∈ files -> a <> c ->
     wav_path a <> ConvertAllIeee.temp_path c) ->
  forall n, n ∈ files ->
    is_Some (m !! wav_path n)
    /\ m' !! ConvertAllIeee.backup_path n = m !! wav_path n.
Proof.
  apply (loop_backup_content ffmpeg wav_path ConvertAllIeee.backup_path
           ConvertAllIeee.temp_path (ConvertAllIeee.convert_one ffmpeg)
           ConvertAllIeee.count (ieee_one_eq ffmpeg) ieee_wav_backup
           ieee_temp_backup wav_path_inj).
  intros a c. apply joinpath_inj.
Qed.

Lemma russian_loop_backups (ffmpeg : transcoder) (files : list string)
    (t t' : tally) (m m' : gmap string file) :
  ConvertRussian.convert_loop ffmpeg files t m = Returned t' m' ->
  NoDup files ->
  (forall a c, a ∈ files -> c ∈ files -> a <> c ->
     wav_path a <> ConvertRussian.temp_path c) ->
  forall n, n ∈ files ->
    is_Some (m !! wav_path n)
    /\ m' !! ConvertRussian.backup_path n = m !! wav_path n.
Proof.
  apply (loop_backup_content ffmpeg wav_path ConvertRussian.backup_path
           ConvertRussian.temp_path (ConvertRussian.convert_one ffmpeg)
           ConvertRussian.count (russian_one_eq ffmpeg) russian_wav_backup
           russian_temp_backup wav_path_inj).
  intros a c. apply joinpath_inj.
Qed.

Lemma chinese_loop_backups (ffmpeg : transcoder) (files : list string)
    (t' : nat * list string) (m m' : gmap string file) :
  ConvertChinese.backup_and_convert ffmpeg files m = Returned (Some t') m' ->
  NoDup files ->
  (forall a c, a ∈ files -> c ∈ files -> a <> c ->
     wav_path a <> ConvertChinese.temp_path c) ->
  forall n, n ∈ files ->
    is_Some (m !! wav_path n)
    /\ m' !! ConvertChinese.backup_path n = m !! wav_path n.
Proof.
  intros Hrun. unfold ConvertChinese.backup_and_convert in Hrun.
  destruct files as [|n0 rest] eqn:Hfiles; [discriminate|].
  rewrite <- Hfiles in *. unfold sbind in Hrun.
  destruct (ConvertChinese.convert_loop ffmpeg files (0%nat, []) m)
    as [t1 m1|] eqn:Hloop; [|discriminate].
  injection Hrun as <- <-. revert Hloop.
  apply (loop_backup_content ffmpeg wav_path ConvertChinese.backup_path
           ConvertChinese.temp_path (ConvertChinese.convert_one ffmpeg)
           ConvertChinese.count (chinese_one_eq ffmpeg) chinese_wav_backup
           chinese_temp_backup wav_path_inj).
  intros a c. apply joinpath_inj.
Qed.

(** X8: when a conversion loop has gone through a list of distinct names,
    none of which is the temporary name of another, every listed file was
    there before the run and its backup now holds exactly that file, bytes
    and modification time, whether the file was converted or restored. *)
Theorem finished_loop_backups_hold_originals (ffmpeg : transcoder)
    (files : list string) (m m' : gmap string file) :
  NoDup files ->
  (forall t',
     ConvertAllIeee.convert_loop ffmpeg files (Tally 0 0 []) m
     = Returned t' m' ->
     (forall a c, a ∈ files -> c ∈ files -> a <> c ->
        wav_path a <> ConvertAllIeee.temp_path c) ->
     forall n, n ∈ files ->
       is_Some (m !! wav_path n)
       /\ m' !! ConvertAllIeee.backup_path n = m !! wav_path n)
  /\ (forall t',
     ConvertRussian.convert_loop ffmpeg files (Tally 0 0 []) m
     = Returned t' m' ->
     (forall a c, a ∈ files -> c ∈ files -> a <> c ->
        wav_path a <> ConvertRussian.temp_path c) ->
     forall n, n ∈ files ->
       is_Some (m !! wav_path n)
       /\ m' !! ConvertRussian.backup_path n = m !! wav_path n)
  /\ (forall t',
     ConvertChinese.backup_and_convert ffmpeg files m = Returned (Some t') m' ->
     (forall a c, a ∈ files -> c ∈ files -> a <> c ->
        wav_path a <> ConvertChinese.temp_path c) ->
     forall n, n ∈ files ->
       is_Some (m !! wav_path n)
       /\ m' !! ConvertChinese.backup_path n = m !! wav_path n).
Proof.
  intros Hnd. split; [|split].
  - intros t' Hrun Hcol. eapply ieee_loop_backups; eassumption.
  - intros t' Hrun Hcol. eapply russian_loop_backups; eassumption.
  - intros t' Hrun Hcol. eapply chinese_loop_backups; eassumption.
Qed.

Lemma two_names_distinct : NoDup ["a.wav"; "b.wav"].
Proof.
  apply NoDup_cons. split; [|apply NoDup_singleton].
  rewrite list_elem_of_singleton. discriminate.
Qed.

Lemma two_names_no_collision (a c : string) :
  a ∈ ["a.wav"; "b.wav"] -> c ∈ ["a.wav"; "b.wav"] -> a <> c ->
  wav_path a <> ConvertAllIeee.temp_path c.
Proof.
  intros Ha Hc _ E. apply joinpath_inj in E.
  rewrite !elem_of_cons, elem_of_nil in Ha, Hc.
  destruct Ha as [->|[->|[]]], Hc as [->|[->|[]]];
    vm_compute in E; discriminate E.
Qed.

Lemma finished_loop_backups_hold_originals_witness :
  final_fs (ConvertAllIeee.convert_loop picky_tool ["a.wav"; "b.wav"]
              (Tally 0 0 []) two_floats)
    !! ConvertAllIeee.backup_path "b.wav"
  = two_floats !! wav_path "b.wav".
Proof.
  set (r := ConvertAllIeee.convert_loop picky_tool ["a.wav"; "b.wav"]
              (Tally 0 0 []) two_floats).
  assert (Hr : r = Returned (Tally 1 1 [("a.wav", "boom")]) (final_fs r))
    by (vm_compute; reflexivity).
  destruct (finished_loop_backups_hold_originals picky_tool ["a.wav"; "b.wav"]
              two_floats (final_fs r) two_names_distinct) as (H & _).
  apply (H _ Hr two_names_no_collision). right. left.
Defined.

(** X9: converting and then restoring gives the originals back.  After a
    conversion loop has gone through a list of distinct names, none of
    which is the temporary name of another, [restore_from_backup] on the
    script's backup directory and the same names completes, counts every
    name, and leaves at each original path the file that was there before
    the conversion. *)
Theorem convert_then_restore_gives_originals (ffmpeg : transcoder)
    (files : list string) (m m' : gmap string file) :
  NoDup files ->
  (forall t',
     ConvertAllIeee.convert_loop ffmpeg files (Tally 0 0 []) m
     = Returned t' m' ->
     (forall a c, a ∈ files -> c ∈ files -> a <> c ->
        wav_path a <> ConvertAllIeee.temp_path c) ->
     exists m'',
       RestoreOriginal.restore_from_backup ConvertAllIeee.backup_dir wavs_dir
         true files m' = Returned (length files) m''
       /\ forall n, n ∈ files -> m'' !! wav_path n = m !! wav_path n)
  /\ (forall t',
     ConvertRussian.convert_loop ffmpeg files (Tally 0 0 []) m
     = Returned t' m' ->
     (forall a c, a ∈ files -> c ∈ files -> a <> c ->
        wav_path a <> ConvertRussian.temp_path c) ->
     exists m'',
       RestoreOriginal.restore_from_backup ConvertRussian.backup_dir wavs_dir
         true files m' = Returned (length files) m''
       /\ forall n, n ∈ files -> m'' !! wav_path n = m !! wav_path n)
  /\ (forall t',
     ConvertChinese.backup_and_convert ffmpeg files m = Returned (Some t') m' ->
     (forall a c, a ∈ files -> c ∈ files -> a <> c ->
        wav_path a <> ConvertChinese.temp_path c) ->
     exists m'',
       RestoreOriginal.restore_from_backup ConvertChinese.backup_dir wavs_dir
         true files m' = Returned (length files) m''
       /\ forall n, n ∈ files -> m'' !! wav_path n = m !! wav_path n).
Proof.
  intros Hnd.
  assert (Hgen : forall dir : string,
            dir = ConvertAllIeee.backup_dir \/ dir = ConvertRussian.backup_dir
            \/ dir = ConvertChinese.backup_dir ->
            (forall n, n ∈ files ->
               is_Some (m !! wav_path n)
               /\ m' !! joinpath dir n = m !! wav_path n) ->
            exists m'',
              RestoreOriginal.restore_from_backup dir wavs_dir true files m'
              = Returned (length files) m''
              /\ forall n, n ∈ files -> m'' !! wav_path n = m !! wav_path n).
  { intros dir Hdir Hb.
    destruct (restore_loop dir wavs_dir) with (backup_files := files)
      (k := 0%nat) (m := m') as (m'' & Hrun & Ht & _).
    - intros a c. apply not_eq_sym, wavs_not_backup. exact Hdir.
    - intros n Hn. destruct (Hb n Hn) as [Hs E]. rewrite E. exact Hs.
    - exists m''. split; [exact Hrun|]. intros n Hn.
      unfold wav_path at 1. rewrite (Ht n Hn). apply Hb. exact Hn. }
  split; [|split]; intros t' Hrun Hcol; apply Hgen; auto.
  - eapply ieee_loop_backups; eassumption.
  - eapply russian_loop_backups; eassumption.
  - eapply chinese_loop_backups; eassumption.
Qed.

Lemma convert_then_restore_gives_originals_witness :
  exists m'',
    RestoreOriginal.restore_from_backup ConvertAllIeee.backup_dir wavs_dir
      true ["a.wav"; "b.wav"]
      (final_fs (ConvertAllIeee.convert_loop picky_tool ["a.wav"; "b.wav"]
                   (Tally 0 0 []) two_floats))
    = Returned 2%nat m''
    /\ m'' !! wav_path "b.wav" = two_floats !! wav_path "b.wav".
Proof.
  set (r := ConvertAllIeee.convert_loop picky_tool ["a.wav"; "b.wav"]
              (Tally 0 0 []) two_floats).
  assert (Hr : r = Returned (Tally 1 1 [("a.wav", "boom")]) (final_fs r))
    by (vm_compute; reflexivity).
  destruct (convert_then_restore_gives_originals picky_tool ["a.wav"; "b.wav"]
              two_floats (final_fs r) two_names_distinct) as (H & _).
  destruct (H _ Hr two_names_no_collision) as (m'' & Hrun & Hall).
  exists m''. split; [exact Hrun|]. apply Hall. right. left.
Defined.

(** ** The test conversion and the prompt *)

Section TestPhase.

Context {A : Type}.
Variable ffmpeg : transcoder.
Variables test_file test_backup test_output : string.
Variables on_success on_failure : script A.
Hypothesis file_not_backup : test_file <> test_backup.

(** The test conversion as the scripts write it, followed by what they do
    next in either case. *)
Lemma test_phase_fails (m : gmap string file) (f : file) :
  m !! test_file = Some f ->
  exit_ok (ffmpeg (backed_up test_backup f m) test_file test_output) = false ->
  (copy2 test_file test_backup ;;;
   r <~ convert_wav_format ffmpeg test_file test_output ;;
   if fst r then
     stat test_file ;;;
     stat test_output ;;;
     unlink test_output ;;;
     on_success
   else on_failure)%script m =
  on_failure
    (apply_effect test_output
       (effect (ffmpeg (backed_up test_backup f m) test_file test_output))
       (backed_up test_backup f m)).
Proof.
  intros Hf Hexit. unfold sbind, copy2. rewrite Hf.
  rewrite bool_decide_eq_false_2 by assumption.
  unfold convert_wav_format. fold (backed_up test_backup f m).
  rewrite Hexit. reflexivity.
Qed.

Lemma test_phase_succeeds (m : gmap string file) (f g : file) :
  m !! test_file = Some f ->
  test_output <> test_backup -> test_output <> test_file ->
  exit_ok (ffmpeg (backed_up test_backup f m) test_file test_output) = true ->
  effect (ffmpeg (backed_up test_backup f m) test_file test_output)
  = Written g ->
  (copy2 test_file test_backup ;;;
   r <~ convert_wav_format ffmpeg test_file test_output ;;
   if fst r then
     stat test_file ;;;
     stat test_output ;;;
     unlink test_output ;;;
     on_success
   else on_failure)%script m =
  on_success (delete test_output (backed_up test_backup f m)).
Proof.
  intros Hf Hob Hof Hexit Heff. unfold sbind, copy2. rewrite Hf.
  rewrite bool_decide_eq_false_2 by assumption.
  unfold convert_wav_format. fold (backed_up test_backup f m).
  rewrite Hexit, Heff. simpl. unfold stat, unlink.
  assert (Hbf : backed_up test_backup f m !! test_file = Some f)
    by (unfold backed_up; rewrite lookup_insert_ne by congruence; exact Hf).
  rewrite lookup_insert_ne, Hbf, !lookup_insert_eq by assumption.
  rewrite delete_insert_eq. reflexivity.
Qed.

End TestPhase.

(** X10: [main] of convert_all_ieee_formats.py and of
    convert_russian_wav_format.py runs no conversion loop without a
    successful test and a [y].  When the tool exits non-zero on the test
    conversion of the first file, [main] returns with the file system as
    the tool left it after the test backup was made.  When the tool exits
    with status zero having written the test output and the answer is not
    [y], [main] returns with the initial file system plus the backup of
    the test file and with nothing at the test output path: a file that
    was there before the run, such as a listed [x.test.wav] beside
    [x.wav], has been overwritten by the test and deleted with it. *)
Theorem unconfirmed_run_stops_after_test (ffmpeg : transcoder)
    (test : string) (rest : list string) (m0 : gmap string file) (f : file) :
  m0 !! wav_path test = Some f ->
  (forall wav_files : list string,
     ConvertAllIeee.ieee_files m0 wav_files = test :: rest ->
     (forall confirmed,
        exit_ok (ffmpeg (backed_up (ConvertAllIeee.backup_path test) f m0)
                   (wav_path test) (ConvertAllIeee.test_path test)) = false ->
        ConvertAllIeee.main ffmpeg wav_files confirmed m0
        = Returned None
            (apply_effect (ConvertAllIeee.test_path test)
               (effect (ffmpeg
                          (backed_up (ConvertAllIeee.backup_path test) f m0)
                          (wav_path test) (ConvertAllIeee.test_path test)))
               (backed_up (ConvertAllIeee.backup_path test) f m0)))
     /\ (forall g,
           exit_ok (ffmpeg (backed_up (ConvertAllIeee.backup_path test) f m0)
                      (wav_path test) (ConvertAllIeee.test_path test)) = true ->
           effect (ffmpeg (backed_up (ConvertAllIeee.backup_path test) f m0)
                     (wav_path test) (ConvertAllIeee.test_path test))
           = Written g ->
           ConvertAllIeee.main ffmpeg wav_files false m0
           = Returned None
               (delete (ConvertAllIeee.test_path test)
                  (backed_up (ConvertAllIeee.backup_path test) f m0))))
  /\ ((forall confirmed,
         exit_ok (ffmpeg (backed_up (ConvertRussian.backup_path test) f m0)
                    (wav_path test) (ConvertRussian.test_path test)) = false ->
         ConvertRussian.main ffmpeg (test :: rest) confirmed m0
         = Returned None
             (apply_effect (ConvertRussian.test_path test)
                (effect (ffmpeg
                           (backed_up (ConvertRussian.backup_path test) f m0)
                           (wav_path test) (ConvertRussian.test_path test)))
                (backed_up (ConvertRussian.backup_path test) f m0)))
      /\ (forall g,
            exit_ok (ffmpeg (backed_up (ConvertRussian.backup_path test) f m0)
                       (wav_path test) (ConvertRussian.test_path test)) = true ->
            effect (ffmpeg (backed_up (ConvertRussian.backup_path test) f m0)
                      (wav_path test) (ConvertRussian.test_path test))
            = Written g ->
            ConvertRussian.main ffmpeg (test :: rest) false m0
            = Returned None
                (delete (ConvertRussian.test_path test)
                   (backed_up (ConvertRussian.backup_path test) f m0)))).
Proof.
  intros Hf. split.
  - intros wav_files Hie.
    assert (Hmain : forall confirmed,
              ConvertAllIeee.main ffmpeg wav_files confirmed m0 =
              (copy2 (wav_path test) (ConvertAllIeee.backup_path test) ;;;
               r <~ convert_wav_format ffmpeg (wav_path test)
                      (ConvertAllIeee.test_path test) ;;
               if fst r then
                 stat (wav_path test) ;;;
                 stat (ConvertAllIeee.test_path test) ;;;
                 unlink (ConvertAllIeee.test_path test) ;;;
                 (if negb confirmed then sret None
                  else
                    t <~ ConvertAllIeee.convert_loop ffmpeg (test :: rest)
                           (Tally 0 0 []) ;;
                    sret (Some t))
               else sret None)%script m0).
    { intros confirmed. unfold ConvertAllIeee.main.
      destruct wav_files as [|w ws]; [discriminate Hie|].
      rewrite Hie. reflexivity. }
    split.
    + intros confirmed Hexit. rewrite Hmain.
      rewrite (test_phase_fails ffmpeg _ _ _ _ _ (ieee_wav_backup test test)
                 m0 f Hf Hexit). reflexivity.
    + intros g Hexit Heff. rewrite Hmain.
      rewrite (test_phase_succeeds ffmpeg _ _ _ _ _
                 (ieee_wav_backup test test) m0 f g Hf
                 (ieee_test_backup test test) (test_fresh test) Hexit Heff).
      reflexivity.
  - split.
    + intros confirmed Hexit. unfold ConvertRussian.main.
      fold (wav_path test) (ConvertRussian.backup_path test)
           (ConvertRussian.test_path test).
      rewrite (test_phase_fails ffmpeg _ _ _ _ _
                 (russian_wav_backup test test) m0 f Hf Hexit). reflexivity.
    + intros g Hexit Heff. unfold ConvertRussian.main.
      fold (wav_path test) (ConvertRussian.backup_path test)
           (ConvertRussian.test_path test).
      rewrite (test_phase_succeeds ffmpeg _ _ _ _ _
                 (russian_wav_backup test test) m0 f g Hf).
      * reflexivity.
      * apply wavs_not_backup. auto.
      * apply test_fresh.
      * exact Hexit.
      * exact Heff.
Qed.

Lemma unconfirmed_run_stops_after_test_witness :
  with_test_name !! ConvertAllIeee.test_path "a.wav"
  = Some (File sample_wav 102)
  /\ ConvertAllIeee.main good_tool ["a.wav"; "b.wav"; "a.test.wav"] false
       with_test_name
     = Returned None
         (delete (ConvertAllIeee.test_path "a.wav")
            (backed_up (ConvertAllIeee.backup_path "a.wav") (File ieee_wav 100)
               with_test_name)).
Proof.
  split; [reflexivity|].
  destruct (unconfirmed_run_stops_after_test good_tool "a.wav" []
              with_test_name (File ieee_wav 100)) as [H _].
  - vm_compute. reflexivity.
  - destruct (H ["a.wav"; "b.wav"; "a.test.wav"]) as [_ Hok].
    + vm_compute. reflexivity.
    + apply (Hok (File sample_wav 200)).
      * reflexivity.
      * reflexivity.
Defined.



(** ** The header check applied to tool output *)

Lemma verify_wav_header_unfold (wav : list byte) :
  verify_wav_header wav =
  Done (if bytes_eqb (take 4 wav) (bstr "RIFF") then
          if bytes_eqb (take 4 (drop 8 wav)) (bstr "WAVE") then
            (true, Bytes (length wav))
          else (false, BadWave)
        else (false, BadRiff)).
Proof.
  unfold verify_wav_header, with_file, cbind, fread, fseek_set, fseek_end,
    ftell, cret, try_except.
  change (drop 0 wav) with wav.
  destruct (bytes_eqb (take 4 wav) (bstr "RIFF"));
    cbv beta iota delta [negb]; [|reflexivity].
  destruct (bytes_eqb (take 4 (drop 8 wav)) (bstr "WAVE"));
    cbv beta iota delta [negb]; [|reflexivity].
  rewrite Nat.add_0_r. reflexivity.
Qed.

(** X12: [verify_wav_header] always returns.  It answers [True] exactly
    when the first four bytes are [RIFF] and bytes 8 to 11 are [WAVE],
    and then reports the true length of the file; whenever it answers
    [False], [read_wav_header] returns [None] for the same bytes. *)
Theorem verify_wav_header_checks_magic (wav : list byte) :
  exists (ok : bool) (v : verdict),
    verify_wav_header wav = Done (ok, v)
    /\ (ok = true <->
        take 4 wav = bstr "RIFF" /\ take 4 (drop 8 wav) = bstr "WAVE")
    /\ (ok = true -> v = Bytes (length wav))
    /\ (ok = false -> CreateCsv.read_wav_header wav = Done None).
Proof.
  rewrite verify_wav_header_unfold.
  destruct (bytes_eqb (take 4 wav) (bstr "RIFF")) eqn:E1.
  - destruct (bytes_eqb (take 4 (drop 8 wav)) (bstr "WAVE")) eqn:E2.
    + apply bytes_eqb_true in E1, E2.
      exists true, (Bytes (length wav)). split; [reflexivity|].
      split; [tauto|]. split; [reflexivity | discriminate].
    + exists false, BadWave. split; [reflexivity|].
      split; [|split; [discriminate|]].
      * split; [discriminate|]. intros [_ H]. apply bytes_eqb_true in H.
        congruence.
      * intros _. apply read_wav_header_bad_magic. right.
        intros H. apply bytes_eqb_true in H. congruence.
  - exists false, BadRiff. split; [reflexivity|].
    split; [|split; [discriminate|]].
    + split; [discriminate|]. intros [H _]. apply bytes_eqb_true in H.
      congruence.
    + intros _. apply read_wav_header_bad_magic. left.
      intros H. apply bytes_eqb_true in H. congruence.
Qed.

(** ** The three parsers side by side *)

Lemma read_fmt_first (fsz : Z) (s s1 : list byte) (f : wav_format) :
  read_fmt_fields fsz s = Done (f, s1) ->
  (raw <~ read 2 ;; audio_format <~ unpack_H raw ;; ret (Some audio_format)) s
  = Done (Some (audio_format f), drop 2 s).
Proof.
  unfold read_fmt_fields, bind, read, unpack_H, unpack_I, unpack, ret, raise.
  destruct (Nat.eqb (length (take 2 s)) 2); [|discriminate].
  repeat match goal with
         | |- context [Nat.eqb ?a ?b] => destruct (Nat.eqb a b)
         end; try discriminate.
  intros [= <- _]. reflexivity.
Qed.

Lemma csv_loop_all_loop (k : nat) (fsz : Z) :
  forall (s s' : list byte) (f : wav_format),
  CreateCsv.chunk_loop k fsz None s
  = Done (Some (CreateCsv.HeaderInfo f None), s') <->
  InvestigateAll.chunk_loop k fsz s = Done (Some (InvestigateAll.Format f), s').
Proof.
  induction k as [|k IH]; intros s s' f; [split; discriminate|].
  rewrite csv_step, all_step. destruct (is_empty s); [split; discriminate|].
  destruct (header_read s); [|split; discriminate]. cbv zeta.
  destruct (bytes_eqb (take 4 s) (bstr "fmt ")).
  - unfold bind, ret.
    destruct (read_fmt_fields fsz (drop 8 s)) as [[g s1]| |];
      split; intros H; try discriminate;
      injection H as <- <-; reflexivity.
  - destruct (bytes_eqb (take 4 s) (bstr "data")); apply IH.
Qed.

Lemma all_loop_ieee_loop (k : nat) (fsz : Z) :
  forall (s s' : list byte) (f : wav_format),
  InvestigateAll.chunk_loop k fsz s
  = Done (Some (InvestigateAll.Format f), s') ->
  exists s'',
    ConvertAllIeee.chunk_loop k s = Done (Some (audio_format f), s'').
Proof.
  induction k as [|k IH]; intros s s' f H; [discriminate|].
  rewrite all_step in H. rewrite ieee_step.
  destruct (is_empty s); [discriminate|].
  destruct (header_read s); [|discriminate].
  destruct (bytes_eqb (take 4 s) (bstr "fmt ")).
  - unfold bind at 1, ret in H.
    destruct (read_fmt_fields fsz (drop 8 s)) as [[g s1]| |] eqn:E;
      try discriminate.
    injection H as <- _. rewrite (read_fmt_first _ _ _ _ E). eauto.
  - eapply IH. exact H.
Qed.

(** X13: the three copies of the parser agree on what they find.  If
    [read_wav_header] returns a format, the probe of
    investigate_all_formats returns the same format; if that probe
    returns a format, the probe of convert_all_ieee_formats returns its
    tag; and if that probe returns a format for bytes with both magic
    tags, [read_wav_header] returns the same format, without a duration. *)
Theorem parsers_agree (wav : list byte) (f : wav_format) :
  (forall d, CreateCsv.read_wav_header wav
             = Done (Some (CreateCsv.HeaderInfo f d)) ->
     InvestigateAll.investigate_wav_format wav
     = Done (Some (InvestigateAll.Format f)))
  /\ (InvestigateAll.investigate_wav_format wav
      = Done (Some (InvestigateAll.Format f)) ->
      ConvertAllIeee.investigate_wav_format wav
      = Done (Some (audio_format f)))
  /\ (InvestigateAll.investigate_wav_format wav
      = Done (Some (InvestigateAll.Format f)) ->
      take 4 wav = bstr "RIFF" -> take 4 (drop 8 wav) = bstr "WAVE" ->
      CreateCsv.read_wav_header wav
      = Done (Some (CreateCsv.HeaderInfo f None))).
Proof.
  split; [|split].
  - intros d H.
    pose proof (read_wav_header_no_duration wav _ H) as Hd. simpl in Hd.
    subst d. rewrite csv_top in H. rewrite all_top.
    destruct (negb _); [discriminate|].
    destruct (header_read wav); [|discriminate].
    destruct (negb _); [discriminate|].
    destruct (CreateCsv.chunk_loop _ _ _ _) as [[[r|] s']| |] eqn:E;
      try discriminate.
    injection H as ->. apply csv_loop_all_loop in E. rewrite E. reflexivity.
  - intros H. rewrite all_top in H. rewrite ieee_top.
    destruct (header_read wav); [|discriminate].
    destruct (InvestigateAll.chunk_loop _ _ _) as [[[r|] s']| |] eqn:E;
      try discriminate.
    injection H as ->. apply all_loop_ieee_loop in E as [s'' E].
    rewrite E. reflexivity.
  - intros H Hriff Hwave. rewrite all_top in H. rewrite csv_top.
    rewrite Hriff, Hwave.
    replace (bytes_eqb (bstr "RIFF") (bstr "RIFF")) with true by reflexivity.
    replace (bytes_eqb (bstr "WAVE") (bstr "WAVE")) with true by reflexivity.
    simpl negb. cbv iota.
    destruct (header_read wav); [|discriminate].
    destruct (InvestigateAll.chunk_loop _ _ _) as [[[r|] s']| |] eqn:E;
      try discriminate.
    injection H as ->. apply csv_loop_all_loop in E. rewrite E. reflexivity.
Qed.

Lemma parsers_agree_witness :
  InvestigateAll.investigate_wav_format sample_wav
  = Done (Some (InvestigateAll.Format (WavFormat 1 1 22050 44100 2 16 80)))
  /\ ConvertAllIeee.investigate_wav_format bad_magic_wav = Done (Some 3).
Proof.
  split.
  - destruct (parsers_agree sample_wav (WavFormat 1 1 22050 44100 2 16 80))
      as [H _].
    apply (H None). vm_compute. reflexivity.
  - destruct (parsers_agree bad_magic_wav
                (WavFormat 3 1 22050 88200 4 32 36)) as (_ & H & _).
    apply H. vm_compute. reflexivity.
Defined.

(** ** Bytes behind the format chunk *)

Section Trailing.

Variable extra : list byte.

Lemma read_unpack_app {A} (n : nat) (k : Z -> handle A) (s s' : list byte)
    (a : A) :
  (forall v s0 a0 s0', k v s0 = Done (a0, s0') ->
                       k v (s0 ++ extra) = Done (a0, s0' ++ extra)) ->
  (raw <~ read n ;; v <~ unpack n raw ;; k v) s = Done (a, s') ->
  (raw <~ read n ;; v <~ unpack n raw ;; k v) (s ++ extra)
  = Done (a, s' ++ extra).
Proof.
  intros Hk. unfold bind, read, unpack.
  destruct (Nat.eqb (length (take n s)) n) eqn:E; [|discriminate].
  apply Nat.eqb_eq in E. rewrite length_take in E.
  assert (Hn : (n <= length s)%nat) by lia.
  rewrite take_app_le, drop_app_le by exact Hn.
  rewrite length_take, Nat.min_l, Nat.eqb_refl by exact Hn.
  unfold ret. apply Hk.
Qed.

Lemma read_fmt_fields_app (fsz : Z) (s s1 : list byte) (f : wav_format) :
  read_fmt_fields fsz s = Done (f, s1) ->
  read_fmt_fields fsz (s ++ extra) = Done (f, s1 ++ extra).
Proof.
  unfold read_fmt_fields, unpack_H, unpack_I.
  repeat (apply read_unpack_app; intros ? ? ? ?).
  unfold ret. intros [= <- <-]. reflexivity.
Qed.

(** A stream with a complete chunk header in front, extended. *)
Lemma header_app (s : list byte) :
  header_read s = true ->
  is_empty (s ++ extra) = false
  /\ header_read (s ++ extra) = true
  /\ take 4 (s ++ extra) = take 4 s
  /\ take 4 (drop 4 (s ++ extra)) = take 4 (drop 4 s)
  /\ drop 8 (s ++ extra) = drop 8 s ++ extra.
Proof.
  intros H. apply header_read_true in H.
  repeat split.
  - destruct s; [simpl in H; lia | reflexivity].
  - apply header_read_true. rewrite length_app. lia.
  - apply take_app_le. lia.
  - rewrite drop_app_le by lia. apply take_app_le. rewrite length_drop. lia.
  - apply drop_app_le. lia.
Qed.

Lemma skip_app (n : nat) (s : list byte) :
  drop n s <> [] -> drop n (s ++ extra) = drop n s ++ extra.
Proof.
  intros H. apply drop_app_le.
  destruct (Nat.le_gt_cases n (length s)) as [Hle|Hgt]; [exact Hle|].
  rewrite drop_ge in H by lia. contradiction.
Qed.

Lemma csv_loop_app (k : nat) (fsz : Z) :
  forall (s s' : list byte) (r : CreateCsv.header_info),
  CreateCsv.chunk_loop k fsz None s = Done (Some r, s') ->
  CreateCsv.chunk_loop k fsz None (s ++ extra) = Done (Some r, s' ++ extra).
Proof.
  induction k as [|k IH]; intros s s' r H; [discriminate|].
  rewrite csv_step in H. rewrite csv_step.
  destruct (is_empty s); [discriminate|].
  destruct (header_read s) eqn:Hh; [|discriminate].
  destruct (header_app s Hh) as (-> & -> & -> & -> & ->).
  cbv zeta in *.
  assert (Hskip : forall n,
            CreateCsv.chunk_loop k fsz None (drop n (drop 8 s))
            = Done (Some r, s') ->
            CreateCsv.chunk_loop k fsz None (drop n (drop 8 s ++ extra))
            = Done (Some r, s' ++ extra)).
  { intros n Hn. rewrite skip_app; [apply IH; exact Hn|].
    intros E. rewrite E in Hn. destruct k; [discriminate|].
    rewrite csv_step in Hn. discriminate. }
  destruct (bytes_eqb (take 4 s) (bstr "fmt ")).
  - unfold bind at 1 in H. unfold bind at 1.
    destruct (read_fmt_fields fsz (drop 8 s)) as [[f s1]| |] eqn:E;
      try discriminate.
    rewrite (read_fmt_fields_app _ _ _ _ E).
    unfold ret in *. injection H as <- <-. reflexivity.
  - destruct (bytes_eqb (take 4 s) (bstr "data")); apply Hskip; exact H.
Qed.

Lemma all_loop_app (k : nat) (fsz : Z) :
  forall (s s' : list byte) (r : InvestigateAll.info),
  InvestigateAll.chunk_loop k fsz s = Done (Some r, s') ->
  InvestigateAll.chunk_loop k fsz (s ++ extra) = Done (Some r, s' ++ extra).
Proof.
  induction k as [|k IH]; intros s s' r H; [discriminate|].
  rewrite all_step in H. rewrite all_step.
  destruct (is_empty s); [discriminate|].
  destruct (header_read s) eqn:Hh; [|discriminate].
  destruct (header_app s Hh) as (-> & -> & -> & -> & ->).
  destruct (bytes_eqb (take 4 s) (bstr "fmt ")).
  - unfold bind at 1 in H. unfold bind at 1.
    destruct (read_fmt_fields fsz (drop 8 s)) as [[f s1]| |] eqn:E;
      try discriminate.
    rewrite (read_fmt_fields_app _ _ _ _ E).
    unfold ret in *. injection H as <- <-. reflexivity.
  - rewrite skip_app; [apply IH; exact H|].
    intros E. rewrite E in H. destruct k; [discriminate|].
    rewrite all_step in H. discriminate.
Qed.

Lemma ieee_loop_app (k : nat) :
  forall (s s' : list byte) (a : Z),
  ConvertAllIeee.chunk_loop k s = Done (Some a, s') ->
  ConvertAllIeee.chunk_loop k (s ++ extra) = Done (Some a, s' ++ extra).
Proof.
  induction k as [|k IH]; intros s s' a H; [discriminate|].
  rewrite ieee_step in H. rewrite ieee_step.
  destruct (is_empty s); [discriminate|].
  destruct (header_read s) eqn:Hh; [|discriminate].
  destruct (header_app s Hh) as (-> & -> & -> & -> & ->).
  destruct (bytes_eqb (take 4 s) (bstr "fmt ")).
  - revert H. unfold unpack_H.
    apply (read_unpack_app 2 (fun v => ret (Some v))).
    intros v s0 a0 s0'. unfold ret. intros [= <- <-]. reflexivity.
  - rewrite skip_app; [apply IH; exact H|].
    intros E. rewrite E in H. destruct k; [discriminate|].
    rewrite ieee_step in H. discriminate.
Qed.

(** The reads of the outer header, on a file whose chunk stream is not
    empty, extended. *)
Lemma outer_app (wav : list byte) :
  header_read wav = true -> drop 12 wav <> [] ->
  header_read (wav ++ extra) = true
  /\ take 4 (wav ++ extra) = take 4 wav
  /\ take 4 (drop 4 (wav ++ extra)) = take 4 (drop 4 wav)
  /\ take 4 (drop 8 (wav ++ extra)) = take 4 (drop 8 wav)
  /\ drop 12 (wav ++ extra) = drop 12 wav ++ extra.
Proof.
  intros Hh Hne. destruct (header_app wav Hh) as (_ & H1 & H2 & H3 & H4).
  assert (Hlen : (12 < length wav)%nat).
  { destruct (Nat.le_gt_cases (length wav) 12) as [Hle|Hgt]; [|exact Hgt].
    rewrite drop_ge in Hne by lia. contradiction. }
  repeat split; try assumption.
  - rewrite H4. apply take_app_le. rewrite length_drop. lia.
  - apply drop_app_le. lia.
Qed.

End Trailing.

(** X14: once a parser has found the format chunk, nothing behind the
    chunk body matters.  If a probe returns a format for some bytes, it
    returns the same for those bytes followed by anything; the duration
    estimate is therefore the same whatever data follows the header. *)
Theorem parsers_ignore_what_follows (wav extra : list byte) :
  (forall h, CreateCsv.read_wav_header wav = Done (Some h) ->
     CreateCsv.read_wav_header (wav ++ extra) = Done (Some h)
     /\ CreateCsv.get_audio_duration (wav ++ extra)
        = CreateCsv.get_audio_duration wav)
  /\ (forall f,
        InvestigateAll.investigate_wav_format wav
        = Done (Some (InvestigateAll.Format f)) ->
        InvestigateAll.investigate_wav_format (wav ++ extra)
        = Done (Some (InvestigateAll.Format f)))
  /\ (forall a, ConvertAllIeee.investigate_wav_format wav = Done (Some a) ->
        ConvertAllIeee.investigate_wav_format (wav ++ extra) = Done (Some a)).
Proof.
  split; [|split].
  - intros h H.
    assert (Hx : CreateCsv.read_wav_header (wav ++ extra) = Done (Some h)).
    { rewrite csv_top in H. rewrite csv_top.
      destruct (negb (bytes_eqb (take 4 wav) _)) eqn:E1; [discriminate|].
      destruct (header_read wav) eqn:Hh; [|discriminate].
      destruct (negb (bytes_eqb (take 4 (drop 8 wav)) _)) eqn:E2;
        [discriminate|].
      destruct (CreateCsv.chunk_loop _ _ _ _) as [[[r|] s']| |] eqn:E;
        try discriminate.
      injection H as ->.
      assert (Hne : drop 12 wav <> []).
      { intros E0. rewrite E0, csv_step in E. discriminate. }
      destruct (outer_app extra wav Hh Hne) as (-> & -> & -> & -> & ->).
      rewrite E1, E2.
      rewrite (csv_fuel_irrel _ None _ (S (length (wav ++ extra))))
        in E by (rewrite ?length_app, length_drop; lia).
      rewrite (csv_loop_app extra _ _ _ _ _ E). reflexivity. }
    split; [exact Hx|].
    rewrite (get_audio_duration_found _ _ Hx),
      (get_audio_duration_found _ _ H). reflexivity.
  - intros f H. rewrite all_top in H. rewrite all_top.
    destruct (header_read wav) eqn:Hh; [|discriminate].
    destruct (InvestigateAll.chunk_loop _ _ _) as [[[r|] s']| |] eqn:E;
      try discriminate.
    injection H as ->.
    assert (Hne : drop 12 wav <> []).
    { intros E0. rewrite E0, all_step in E. discriminate. }
    destruct (outer_app extra wav Hh Hne) as (-> & _ & -> & _ & ->).
    rewrite (all_fuel_irrel _ _ (S (length (wav ++ extra))))
      in E by (rewrite ?length_app, length_drop; lia).
    rewrite (all_loop_app extra _ _ _ _ _ E). reflexivity.
  - intros a H. rewrite ieee_top in H. rewrite ieee_top.
    destruct (header_read wav) eqn:Hh; [|discriminate].
    destruct (ConvertAllIeee.chunk_loop _ _) as [[[r|] s']| |] eqn:E;
      try discriminate.
    injection H as ->.
    assert (Hne : drop 12 wav <> []).
    { intros E0. rewrite E0, ieee_step in E. discriminate. }
    destruct (outer_app extra wav Hh Hne) as (-> & _ & _ & _ & ->).
    rewrite (ieee_fuel_irrel _ (S (length (wav ++ extra))))
      in E by (rewrite ?length_app, length_drop; lia).
    rewrite (ieee_loop_app extra _ _ _ _ E). reflexivity.
Qed.

Lemma parsers_ignore_what_follows_witness :
  CreateCsv.get_audio_duration (truncated_wav ++ data_chunk (replicate 44 x00))
  = CreateCsv.get_audio_duration truncated_wav.
Proof.
  destruct (parsers_ignore_what_follows truncated_wav
              (data_chunk (replicate 44 x00))) as [H _].
  destruct (H (CreateCsv.HeaderInfo (WavFormat 1 1 22050 44100 2 16 80) None))
    as [_ Hd].
  - vm_compute. reflexivity.
  - exact Hd.
Defined.

(** ** The sign of the estimate *)

(** X15: the estimate follows the size field of the outer header, not the
    file.  With a format chunk found and a positive byte rate, the
    estimator returns a negative duration exactly when the size field is
    below 44, and zero exactly when it is 44; it returns a number in
    either case, not [None]. *)
Theorem estimate_sign_follows_size_field (wav : list byte)
    (h : CreateCsv.header_info) :
  CreateCsv.read_wav_header wav = Done (Some h) ->
  0 < byte_rate (CreateCsv.format h) ->
  exists d : Q,
    CreateCsv.get_audio_duration wav = Done (Some d)
    /\ ((d < 0)%Q <-> file_size (CreateCsv.format h) < 44)
    /\ ((d == 0)%Q <-> file_size (CreateCsv.format h) = 44).
Proof.
  intros H Hrate. rewrite (get_audio_duration_found wav h H).
  destruct (Z.eqb_spec (byte_rate (CreateCsv.format h)) 0) as [E|_]; [lia|].
  eexists. split; [reflexivity|].
  destruct (byte_rate (CreateCsv.format h)) as [|p|p]; try lia.
  unfold Qlt, Qeq, Qdiv, Qmult, Qinv, inject_Z. simpl. split; lia.
Qed.

Lemma estimate_sign_follows_size_field_witness :
  exists d : Q,
    CreateCsv.get_audio_duration
      (riff_prefix 0 ++ fmt_chunk 1 1 22050 44100 2 16) = Done (Some d)
    /\ (d < 0)%Q.
Proof.
  destruct (estimate_sign_follows_size_field
              (riff_prefix 0 ++ fmt_chunk 1 1 22050 44100 2 16)
              (CreateCsv.HeaderInfo (WavFormat 1 1 22050 44100 2 16 0) None))
    as (d & Hd & Hneg & _).
  - vm_compute. reflexivity.
  - reflexivity.
  - exists d. split; [exact Hd|]. apply Hneg. reflexivity.
Defined.

(** ** The rows and counters of the duration report *)

Section Report.

Variable show : Q -> string.
Variable m : gmap string file.

Lemma csv_fold (wav_files : list string) :
  forall r0 : CreateCsv.report,
  CreateCsv.rows
    (fold_left (fun r name => CreateCsv.csv_row show m name r) wav_files r0)
  = CreateCsv.rows r0 ++ omap (CreateCsv.data_row show m) wav_files
  /\ (CreateCsv.processed_files
        (fold_left (fun r name => CreateCsv.csv_row show m name r)
           wav_files r0)
      = CreateCsv.processed_files r0
        + length (omap (CreateCsv.data_row show m) wav_files))%nat
  /\ (CreateCsv.processed_files
        (fold_left (fun r name => CreateCsv.csv_row show m name r)
           wav_files r0)
      + CreateCsv.failed_files
          (fold_left (fun r name => CreateCsv.csv_row show m name r)
             wav_files r0)
      = CreateCsv.processed_files r0 + CreateCsv.failed_files r0
        + length wav_files)%nat
  /\ (length (CreateCsv.durations
                (fold_left (fun r name => CreateCsv.csv_row show m name r)
                   wav_files r0))
      = length (CreateCsv.durations r0)
        + length (omap (CreateCsv.data_row show m) wav_files))%nat
  /\ forall l : string,
       default O
         (CreateCsv.lang_counts
            (fold_left (fun r name => CreateCsv.csv_row show m name r)
               wav_files r0) !! l)
       = (default O (CreateCsv.lang_counts r0 !! l)
          + length (filter (fun row => snd row = l)
                      (omap (CreateCsv.data_row show m) wav_files)))%nat.
Proof.
  induction wav_files as [|n rest IH]; intros r0.
  { simpl. rewrite app_nil_r.
    split; [reflexivity|]. split; [lia|]. split; [lia|]. split; [lia|].
    intros l. lia. }
  simpl fold_left.
  destruct (IH (CreateCsv.csv_row show m n r0)) as (Hr & Hp & Ht & Hd & Hl).
  rewrite Hr. clear Hr.
  assert (Ho : omap (CreateCsv.data_row show m) (n :: rest)
               = match CreateCsv.data_row show m n with
                 | Some y => y :: omap (CreateCsv.data_row show m) rest
                 | None => omap (CreateCsv.data_row show m) rest
                 end) by reflexivity.
  rewrite Ho. clear Ho IH.
  set (later := omap (CreateCsv.data_row show m) rest) in *.
  destruct (CreateCsv.duration_at m (wav_path n)) as [d|] eqn:Ed.
  - assert (Hrow : CreateCsv.data_row show m n
                   = Some (stem n, show d,
                           CreateCsv.before_underscore (stem n)))
      by (unfold CreateCsv.data_row; rewrite Ed; reflexivity).
    assert (Hc : CreateCsv.csv_row show m n r0
                 = CreateCsv.Report
                     (CreateCsv.rows r0
                      ++ [(stem n, show d,
                           CreateCsv.before_underscore (stem n))])
                     (S (CreateCsv.processed_files r0))
                     (CreateCsv.failed_files r0)
                     (CreateCsv.durations r0 ++ [d])
                     (<[CreateCsv.before_underscore (stem n) :=
                          (default 0%nat
                             (CreateCsv.lang_counts r0
                              !! CreateCsv.before_underscore (stem n))
                           + 1)%nat]> (CreateCsv.lang_counts r0)))
      by (unfold CreateCsv.csv_row; rewrite Ed; reflexivity).
    rewrite Hrow, Hc in *. clear Hc.
    simpl in *. rewrite <- app_assoc. rewrite length_app in Hd. simpl in *.
    split; [reflexivity|]. split; [lia|]. split; [lia|]. split; [lia|].
    intros l. rewrite Hl. rewrite filter_cons. simpl.
    destruct (decide (CreateCsv.before_underscore (stem n) = l)) as [->|Hne].
    + rewrite lookup_insert_eq. simpl. lia.
    + rewrite lookup_insert_ne by exact Hne. lia.
  - assert (Hrow : CreateCsv.data_row show m n = None)
      by (unfold CreateCsv.data_row; rewrite Ed; reflexivity).
    assert (Hc : CreateCsv.csv_row show m n r0
                 = CreateCsv.Report (CreateCsv.rows r0)
                     (CreateCsv.processed_files r0)
                     (S (CreateCsv.failed_files r0))
                     (CreateCsv.durations r0) (CreateCsv.lang_counts r0))
      by (unfold CreateCsv.csv_row; rewrite Ed; reflexivity).
    rewrite Hrow, Hc in *. clear Hc. simpl in *.
    split; [reflexivity|]. split; [lia|]. split; [lia|]. split; [lia|].
    intros l. rewrite Hl. reflexivity.
Qed.

End Report.

(** X16: the report of [create_audio_duration_csv].  The rows are the
    header row followed, in listing order, by one row for each listed file
    whose duration is found; every listed file is counted once, as
    processed or as failed; the processed count, the number of data rows
    and the number of collected durations coincide; and the count kept for
    a language is the number of data rows carrying that language. *)
Theorem duration_report_accounts (show : Q -> string) (m : gmap string file)
    (wav_files : list string) (r : CreateCsv.report) :
  CreateCsv.create_audio_duration_csv show m wav_files = Some r ->
  CreateCsv.rows r
  = CreateCsv.header_row :: omap (CreateCsv.data_row show m) wav_files
  /\ length (CreateCsv.rows r) = S (CreateCsv.processed_files r)
  /\ (CreateCsv.processed_files r + CreateCsv.failed_files r
      = length wav_files)%nat
  /\ length (CreateCsv.durations r) = CreateCsv.processed_files r
  /\ forall l : string,
       default O (CreateCsv.lang_counts r !! l)
       = length (filter (fun row => snd row = l)
                   (omap (CreateCsv.data_row show m) wav_files)).
Proof.
  unfold CreateCsv.create_audio_duration_csv.
  destruct wav_files as [|w ws] eqn:E; [discriminate|]. rewrite <- E.
  intros [= <-].
  destruct (csv_fold show m wav_files
              (CreateCsv.Report [CreateCsv.header_row] 0 0 [] ∅))
    as (Hr & Hp & Ht & Hd & Hl).
  simpl in Hr, Hp, Ht, Hd.
  split; [exact Hr|]. split; [rewrite Hr, Hp; reflexivity|].
  split; [exact Ht|]. split; [rewrite Hd, Hp; reflexivity|].
  intros l. rewrite Hl. reflexivity.
Qed.

Lemma duration_report_accounts_witness :
  exists r,
    CreateCsv.create_audio_duration_csv (fun _ => "-"%string) float_and_pcm
      ["a.wav"; "missing.wav"; "b.wav"] = Some r
    /\ (CreateCsv.processed_files r + CreateCsv.failed_files r = 3)%nat.
Proof.
  set (o := CreateCsv.create_audio_duration_csv (fun _ => "-"%string)
              float_and_pcm ["a.wav"; "missing.wav"; "b.wav"]).
  destruct o as [r|] eqn:E; [|vm_compute in E; discriminate E].
  exists r. split; [reflexivity|].
  destruct (duration_report_accounts _ _ _ _ E) as (_ & _ & H & _).
  exact H.
Defined.

(** ** The range of parsed fields *)

Lemma le_value_bound (b : list byte) :
  0 <= le_value b < 256 ^ Z.of_nat (length b).
Proof.
  induction b as [|x b IH]; [simpl; lia|].
  cbn [le_value length]. rewrite Nat2Z.inj_succ, Z.pow_succ_r by lia.
  pose proof (Byte.to_N_bounded x) as Hx.
  assert (Hx' : 0 <= Z.of_N (Byte.to_N x) <= 255) by lia.
  lia.
Qed.

Lemma le_value_sized (n : nat) (b : list byte) :
  Nat.eqb (length b) n = true -> 0 <= le_value b < 256 ^ Z.of_nat n.
Proof.
  intros H. apply Nat.eqb_eq in H. subst n. apply le_value_bound.
Qed.

Lemma read_fmt_fields_range (fsz : Z) (s s1 : list byte) (f : wav_format) :
  read_fmt_fields fsz s = Done (f, s1) ->
  0 <= audio_format f < 65536 /\ 0 <= num_channels f < 65536
  /\ 0 <= sample_rate f < 4294967296 /\ 0 <= byte_rate f < 4294967296
  /\ 0 <= block_align f < 65536 /\ 0 <= bits_per_sample f < 65536
  /\ file_size f = fsz.
Proof.
  unfold read_fmt_fields, bind, read, unpack_H, unpack_I, unpack, ret, raise.
  repeat match goal with
         | |- context [Nat.eqb ?a ?b] =>
             let E := fresh "E" in
             destruct (Nat.eqb a b) eqn:E; [apply le_value_sized in E|]
         end; try discriminate.
  intros [= <- _]. simpl. repeat split; lia.
Qed.

Lemma all_loop_range (k : nat) (fsz : Z) :
  forall (s s' : list byte) (f : wav_format),
  InvestigateAll.chunk_loop k fsz s
  = Done (Some (InvestigateAll.Format f), s') ->
  0 <= audio_format f < 65536 /\ 0 <= num_channels f < 65536
  /\ 0 <= sample_rate f < 4294967296 /\ 0 <= byte_rate f < 4294967296
  /\ 0 <= block_align f < 65536 /\ 0 <= bits_per_sample f < 65536
  /\ file_size f = fsz.
Proof.
  induction k as [|k IH]; intros s s' f H; [discriminate|].
  rewrite all_step in H. destruct (is_empty s); [discriminate|].
  destruct (header_read s); [|discriminate].
  destruct (bytes_eqb (take 4 s) (bstr "fmt ")); [|eapply IH; exact H].
  unfold bind, ret in H.
  destruct (read_fmt_fields fsz (drop 8 s)) as [[g s1]| |] eqn:E;
    try discriminate.
  injection H as <- _. eapply read_fmt_fields_range. exact E.
Qed.

Lemma ieee_loop_range (k : nat) :
  forall (s s' : list byte) (a : Z),
  ConvertAllIeee.chunk_loop k s = Done (Some a, s') -> 0 <= a < 65536.
Proof.
  induction k as [|k IH]; intros s s' a H; [discriminate|].
  rewrite ieee_step in H. destruct (is_empty s); [discriminate|].
  destruct (header_read s); [|discriminate].
  destruct (bytes_eqb (take 4 s) (bstr "fmt ")); [|eapply IH; exact H].
  unfold bind, read, unpack_H, unpack, ret, raise in H.
  destruct (Nat.eqb (length (take 2 (drop 8 s))) 2) eqn:E; [|discriminate].
  apply le_value_sized in E. injection H as <- _. lia.
Qed.

(** X17: whatever bytes a probe is given, the fields of a format it
    returns lie in the range of their unsigned types: tag, channel count,
    block alignment and bit depth below 65536, sample rate, byte rate and
    size field below 2^32, none negative.  In particular a byte rate is
    positive as soon as it is not zero. *)
Theorem parsed_fields_in_range (wav : list byte) :
  (forall f,
     InvestigateAll.investigate_wav_format wav
     = Done (Some (InvestigateAll.Format f))
     \/ (exists d, CreateCsv.read_wav_header wav
                   = Done (Some (CreateCsv.HeaderInfo f d))) ->
     0 <= audio_format f < 65536 /\ 0 <= num_channels f < 65536
     /\ 0 <= sample_rate f < 4294967296 /\ 0 <= byte_rate f < 4294967296
     /\ 0 <= block_align f < 65536 /\ 0 <= bits_per_sample f < 65536
     /\ 0 <= file_size f < 4294967296)
  /\ (forall a,
        ConvertAllIeee.investigate_wav_format wav = Done (Some a) ->
        0 <= a < 65536).
Proof.
  split.
  - assert (Hall : forall f,
              InvestigateAll.investigate_wav_format wav
              = Done (Some (InvestigateAll.Format f)) ->
              0 <= audio_format f < 65536 /\ 0 <= num_channels f < 65536
              /\ 0 <= sample_rate f < 4294967296
              /\ 0 <= byte_rate f < 4294967296
              /\ 0 <= block_align f < 65536 /\ 0 <= bits_per_sample f < 65536
              /\ 0 <= file_size f < 4294967296).
    { intros f H. rewrite all_top in H.
      destruct (header_read wav) eqn:Hh; [|discriminate].
      destruct (InvestigateAll.chunk_loop _ _ _) as [[[r|] s']| |] eqn:E;
        try discriminate.
      injection H as ->.
      apply all_loop_range in E as (H1 & H2 & H3 & H4 & H5 & H6 & H7).
      repeat split; try lia; rewrite H7;
        pose proof (le_value_sized 4 _ Hh); lia. }
    intros f [H | [d H]]; [apply Hall; exact H|].
    apply Hall.
    pose proof (read_wav_header_no_duration wav _ H) as Hd. simpl in Hd.
    subst d. rewrite csv_top in H. rewrite all_top.
    destruct (negb _); [discriminate|].
    destruct (header_read wav); [|discriminate].
    destruct (negb _); [discriminate|].
    destruct (CreateCsv.chunk_loop _ _ _ _) as [[[r|] s']| |] eqn:E;
      try discriminate.
    injection H as ->. apply csv_loop_all_loop in E. rewrite E. reflexivity.
  - intros a H. rewrite ieee_top in H.
    destruct (header_read wav); [|discriminate].
    destruct (ConvertAllIeee.chunk_loop _ _) as [[[r|] s']| |] eqn:E;
      try discriminate.
    injection H as ->. eapply ieee_loop_range. exact E.
Qed.

Lemma parsed_fields_in_range_witness :
  0 <= 3 < 65536.
Proof.
  destruct (parsed_fields_in_range ieee_wav) as [_ H].
  apply (H 3). vm_compute. reflexivity.
Defined.

(** ** The survey of investigate_all_formats *)

Section Survey.

Import InvestigateAllMain.

Lemma investigate_all_done (wav : list byte) :
  exists r, InvestigateAll.investigate_wav_format wav = Done r.
Proof.
  rewrite all_top. destruct (header_read wav); [|eauto].
  destruct (InvestigateAll.chunk_loop _ _ _) as [[r s]|e|] eqn:E; eauto.
  exfalso. revert E. apply all_fuel. rewrite length_drop. lia.
Qed.

Lemma format_info_at_done (m : fs) (p : string) :
  exists r, format_info_at m p = Done r.
Proof.
  unfold format_info_at.
  destruct (m !! p); [apply investigate_all_done | eauto].
Qed.

Lemma in_error_cases (m : fs) (p : string) :
  (format_info_at m p = Done None
   /\ in_error (format_info_at m p) = Stopped TypeError)
  \/ exists i, format_info_at m p = Done (Some i)
               /\ in_error (format_info_at m p) = Finished i.
Proof.
  destruct (format_info_at_done m p) as [[i|] ->]; [right; eauto | left; auto].
Qed.

Lemma get_append_to (l l' n : string) (lf : list (string * list string)) :
  get l (append_to l' n lf)
  = if decide (l' = l) then get l lf ++ [n] else get l lf.
Proof.
  induction lf as [|[k files] lf IH]; simpl.
  - destruct (decide (l' = l)); reflexivity.
  - destruct (decide (k = l')) as [->|Hk]; simpl.
    + destruct (decide (l' = l)); reflexivity.
    + destruct (decide (k = l)) as [->|Hkl]; [|exact IH].
      destruct (decide (l' = l)); [congruence | reflexivity].
Qed.

Lemma elem_of_keys_append_to (l l' n : string)
    (lf : list (string * list string)) :
  l ∈ (append_to l' n lf).*1 <-> l = l' \/ l ∈ lf.*1.
Proof.
  induction lf as [|[k files] lf IH]; simpl.
  - rewrite elem_of_cons, elem_of_nil. tauto.
  - destruct (decide (k = l')) as [->|Hk]; simpl; rewrite !elem_of_cons;
      [tauto | rewrite IH; tauto].
Qed.

Lemma NoDup_keys_append_to (l' n : string) (lf : list (string * list string)) :
  NoDup lf.*1 -> NoDup (append_to l' n lf).*1.
Proof.
  induction lf as [|[k files] lf IH]; simpl; intros Hnd.
  - apply NoDup_singleton.
  - apply NoDup_cons in Hnd as [Hk Hnd].
    destruct (decide (k = l')) as [->|Hkl]; simpl.
    + apply NoDup_cons; auto.
    + apply NoDup_cons. split; [|auto].
      rewrite elem_of_keys_append_to. intros [?|?]; [congruence | tauto].
Qed.

Lemma get_not_key (l : string) (lf : list (string * list string)) :
  l ∉ lf.*1 -> get l lf = [].
Proof.
  induction lf as [|[k files] lf IH]; simpl; intros Hl; [reflexivity|].
  apply not_elem_of_cons in Hl as [Hne Hl].
  destruct (decide (k = l)); [congruence | auto].
Qed.

Lemma classify_spec (wav_files : list string) :
  NoDup (classify wav_files).*1
  /\ (forall l, get l (classify wav_files)
                = filter (fun n => lang_code n = l) wav_files)
  /\ (forall l, l ∈ (classify wav_files).*1
                <-> get l (classify wav_files) <> []).
Proof.
  induction wav_files as [|n files IH] using rev_ind.
  - split; [constructor|]. split; [reflexivity|].
    intros l. simpl. set_solver.
  - unfold classify in *. rewrite fold_left_app. simpl.
    destruct IH as (Hnd & Hget & Hkeys).
    split; [apply NoDup_keys_append_to; assumption|]. split.
    + intros l. rewrite get_append_to, filter_app, Hget, filter_cons, filter_nil.
      destruct (decide (lang_code n = l)); [reflexivity|].
      rewrite app_nil_r. reflexivity.
    + intros l. rewrite elem_of_keys_append_to, get_append_to, Hkeys.
      destruct (decide (lang_code n = l)) as [E|E].
      * split; [|auto]. intros _ H. apply app_eq_nil in H as [_ H].
        discriminate.
      * split; [intros [?|?]; [congruence | assumption] | auto].
Qed.

Lemma elem_of_sorted_keys (l : string) (lf : list (string * list string)) :
  l ∈ sorted_keys lf <-> l ∈ lf.*1.
Proof. unfold sorted_keys. rewrite merge_sort_Permutation. reflexivity. Qed.

Lemma tally_one_format (l' : string) (f : wav_format) (c : counts)
    (l : string) (fmt : Z) :
  format_count (tally_one l' (InvestigateAll.Format f) c) l fmt
  = (format_count c l fmt
     + if decide (l' = l /\ audio_format f = fmt) then 1 else 0)%nat
  /\ error_count (tally_one l' (InvestigateAll.Format f) c) l
     = error_count c l.
Proof.
  split; [|reflexivity].
  unfold format_count, tally_one. simpl.
  destruct (decide (l' = l)) as [->|Hl].
  - rewrite lookup_insert_eq. simpl.
    destruct (decide (audio_format f = fmt)) as [->|Hf].
    + rewrite lookup_insert_eq, decide_True by auto. simpl.
      unfold format_count. lia.
    + rewrite lookup_insert_ne, decide_False by tauto. lia.
  - rewrite lookup_insert_ne, decide_False by tauto. lia.
Qed.

Lemma tally_one_error (l' : string) (e : exn) (c : counts)
    (l : string) (fmt : Z) :
  format_count (tally_one l' (InvestigateAll.Error e) c) l fmt
  = format_count c l fmt
  /\ error_count (tally_one l' (InvestigateAll.Error e) c) l
     = (error_count c l + if decide (l' = l) then 1 else 0)%nat.
Proof.
  split; [reflexivity|].
  unfold error_count, tally_one. simpl.
  destruct (decide (l' = l)) as [->|Hl].
  - rewrite lookup_insert_eq. simpl. unfold error_count. lia.
  - rewrite lookup_insert_ne by assumption. lia.
Qed.

Lemma tally_one_positive (l' : string) (i : InvestigateAll.info) (c : counts) :
  positive_counts c -> positive_counts (tally_one l' i c).
Proof.
  intros Hc l per fmt k. destruct i as [f|e]; simpl; [|apply Hc].
  destruct (decide (l' = l)) as [->|Hl].
  - rewrite lookup_insert_eq. intros [= <-].
    destruct (decide (audio_format f = fmt)) as [->|Hf].
    + rewrite lookup_insert_eq. intros [= <-]. lia.
    + rewrite lookup_insert_ne by assumption.
      destruct (lang_format_counts c !! l) as [per|] eqn:E; simpl.
      * apply (Hc l per fmt k E).
      * rewrite lookup_empty. discriminate.
  - rewrite lookup_insert_ne by assumption. apply Hc.
Qed.

Lemma tag_at_info (m : fs) (n : string) (i : InvestigateAll.info) :
  format_info_at m (wav_path n) = Done (Some i) ->
  tag_at m n = match i with
               | InvestigateAll.Format f => Some (audio_format f)
               | InvestigateAll.Error _ => None
               end
  /\ error_at m n = match i with
                    | InvestigateAll.Format _ => false
                    | InvestigateAll.Error _ => true
                    end.
Proof.
  intros Hi. unfold tag_at, error_at. rewrite Hi.
  destruct i; split; reflexivity.
Qed.

Lemma files_loop_spec (m : fs) (l' : string) (files : list string) :
  forall c,
  (files_loop m l' files c = Stopped TypeError
   /\ exists n, n ∈ files /\ format_info_at m (wav_path n) = Done None)
  \/ (exists c', files_loop m l' files c = Finished c'
       /\ (forall n, n ∈ files -> format_info_at m (wav_path n) <> Done None)
       /\ (forall l fmt,
             format_count c' l fmt
             = (format_count c l fmt
                + if decide (l' = l)
                  then length (filter (fun n => tag_at m n = Some fmt) files)
                  else 0)%nat)
       /\ (forall l,
             error_count c' l
             = (error_count c l
                + if decide (l' = l)
                  then length (filter (fun n => error_at m n = true) files)
                  else 0)%nat)
       /\ (positive_counts c -> positive_counts c')).
Proof.
  induction files as [|n files IH]; intros c.
  - right. exists c. split; [reflexivity|]. split; [set_solver|].
    split; [|split; [|auto]]; intros; destruct (decide _); simpl; lia.
  - simpl files_loop.
    destruct (in_error_cases m (wav_path n)) as [[Hn ->]|(i & Hi & ->)].
    + left. split; [reflexivity|]. exists n. set_solver.
    + simpl rbind.
      destruct (IH (tally_one l' i c))
        as [[-> (n' & ? & ?)]|(c' & -> & Hnone & Hf & He & Hp)].
      * left. split; [reflexivity|]. exists n'. set_solver.
      * right. exists c'. split; [reflexivity|].
        split; [|split; [|split]].
        -- intros n0 [->|?]%elem_of_cons; [congruence | auto].
        -- intros l fmt. rewrite Hf, filter_cons.
           rewrite (proj1 (tag_at_info m n i Hi)). destruct i as [f|e].
           ++ rewrite (proj1 (tally_one_format l' f c l fmt)).
              destruct (decide (l' = l)) as [->|Hl].
              ** destruct (decide (Some (audio_format f) = Some fmt)) as [[= E]|E].
                 --- rewrite decide_True by auto. simpl. lia.
                 --- rewrite decide_False; [lia|]. intros [_ ?]. congruence.
              ** rewrite decide_False by tauto. lia.
           ++ rewrite (proj1 (tally_one_error l' e c l fmt)).
              rewrite (decide_False (P := None = Some fmt)) by done.
              reflexivity.
        -- intros l. rewrite He, filter_cons.
           rewrite (proj2 (tag_at_info m n i Hi)). destruct i as [f|e].
           ++ rewrite (proj2 (tally_one_format l' f c l 0)).
              rewrite (decide_False (P := false = true)) by done.
              reflexivity.
           ++ rewrite (proj2 (tally_one_error l' e c l 0)).
              rewrite (decide_True (P := true = true)) by reflexivity.
              destruct (decide (l' = l)); simpl; lia.
        -- intros Hc. apply Hp, tally_one_positive, Hc.
Qed.

Lemma langs_loop_spec (m : fs) (lf : list (string * list string)) :
  forall c, NoDup lf.*1 ->
  (langs_loop m lf c = Stopped TypeError
   /\ exists l n, n ∈ get l lf /\ format_info_at m (wav_path n) = Done None)
  \/ (exists c', langs_loop m lf c = Finished c'
       /\ (forall l n, n ∈ get l lf ->
                       format_info_at m (wav_path n) <> Done None)
       /\ (forall l fmt,
             format_count c' l fmt
             = (format_count c l fmt
                + length (filter (fun n => tag_at m n = Some fmt) (get l lf)))%nat)
       /\ (forall l,
             error_count c' l
             = (error_count c l
                + length (filter (fun n => error_at m n = true) (get l lf)))%nat)
       /\ (positive_counts c -> positive_counts c')).
Proof.
  induction lf as [|[k files] lf IH]; intros c Hnd.
  - right. exists c. split; [reflexivity|]. split; [set_solver|].
    split; [|split; [|auto]]; intros; simpl; lia.
  - simpl in Hnd. apply NoDup_cons in Hnd as [Hk Hnd]. simpl langs_loop.
    destruct (files_loop_spec m k files c)
      as [[-> (n & Hn & Hnone)]|(c1 & -> & H1none & H1f & H1e & H1p)].
    + left. split; [reflexivity|]. exists k, n. simpl.
      rewrite decide_True by reflexivity. auto.
    + simpl rbind.
      destruct (IH c1 Hnd)
        as [[-> (l & n & Hn & Hnone)]|(c' & -> & H2none & H2f & H2e & H2p)].
      * left. split; [reflexivity|]. exists l, n. split; [|assumption].
        simpl. destruct (decide (k = l)) as [->|]; [|assumption].
        rewrite get_not_key in Hn by assumption. set_solver.
      * right. exists c'. split; [reflexivity|].
        split; [|split; [|split]].
        -- intros l n. simpl. destruct (decide (k = l)); [apply H1none|apply H2none].
        -- intros l fmt. rewrite H2f, H1f. simpl get.
           destruct (decide (k = l)) as [->|]; [|lia].
           rewrite (get_not_key l lf) by assumption. simpl. lia.
        -- intros l. rewrite H2e, H1e. simpl get.
           destruct (decide (k = l)) as [->|]; [|lia].
           rewrite (get_not_key l lf) by assumption. simpl. lia.
        -- auto.
Qed.

Lemma sample_loop_spec (m : fs) (lf : list (string * list string))
    (langs : list string) :
  (forall l, l ∈ langs -> get l lf <> []) ->
  sample_loop m lf langs = Finished tt
  \/ (sample_loop m lf langs = Stopped TypeError
      /\ exists l n, n ∈ get l lf /\ format_info_at m (wav_path n) = Done None).
Proof.
  induction langs as [|l langs IH]; intros Hl; [left; reflexivity|].
  simpl. destruct (get l lf) as [|n rest] eqn:E.
  - exfalso. apply (Hl l); [set_solver | assumption].
  - destruct (in_error_cases m (wav_path n)) as [[Hn ->]|(i & Hi & ->)].
    + right. split; [reflexivity|]. exists l, n. rewrite E. set_solver.
    + simpl. apply IH. intros l0 H0. apply Hl. set_solver.
Qed.

Lemma percentages_ok (total : nat) (items : list (Z * nat)) :
  total <> 0%nat -> percentages total items = Finished tt.
Proof.
  intros Ht. induction items as [|x items IH]; [reflexivity|].
  simpl. destruct total; [congruence | assumption].
Qed.

Lemma summary_loop_ok (lf : list (string * list string)) (c : counts)
    (langs : list string) :
  (forall l, l ∈ langs -> get l lf <> []) ->
  summary_loop lf c langs = Finished tt.
Proof.
  induction langs as [|l langs IH]; intros Hl; [reflexivity|].
  simpl. rewrite percentages_ok.
  - simpl. apply IH. intros l0 H0. apply Hl. set_solver.
  - specialize (Hl l). destruct (get l lf); [exfalso; apply Hl; set_solver | discriminate].
Qed.

Lemma main_cases (m : fs) (wav_files : list string) :
  wav_files <> [] ->
  (main m wav_files = Stopped TypeError
   /\ exists n, n ∈ wav_files /\ format_info_at m (wav_path n) = Done None)
  \/ (exists c,
        main m wav_files
        = Finished (Some (Survey (classify wav_files) c
                            (problematic c (sorted_keys (classify wav_files)))))
        /\ (forall n, n ∈ wav_files ->
                      format_info_at m (wav_path n) <> Done None)
        /\ (forall l fmt,
              format_count c l fmt
              = length (filter (fun n => tag_at m n = Some fmt)
                          (filter (fun n => lang_code n = l) wav_files)))
        /\ (forall l,
              error_count c l
              = length (filter (fun n => error_at m n = true)
                          (filter (fun n => lang_code n = l) wav_files)))
        /\ positive_counts c).
Proof.
  intros Hne. destruct (classify_spec wav_files) as (Hnd & Hget & Hkeys).
  assert (Hin : forall l n, n ∈ get l (classify wav_files) -> n ∈ wav_files).
  { intros l n. rewrite Hget. intros [_ ?]%list_elem_of_filter. assumption. }
  assert (Hs : forall l, l ∈ sorted_keys (classify wav_files) ->
                         get l (classify wav_files) <> []).
  { intros l. rewrite elem_of_sorted_keys. apply Hkeys. }
  unfold main. destruct wav_files as [|w ws] eqn:Ew; [congruence|].
  rewrite <- Ew in *. clear Hne.
  destruct (sample_loop_spec m _ _ Hs) as [->|[-> (l & n & Hn & Hnone)]].
  2:{ left. split; [reflexivity|]. exists n. eauto. }
  simpl rbind.
  destruct (langs_loop_spec m (classify wav_files) (Counts ∅ ∅) Hnd)
    as [[-> (l & n & Hn & Hnone)]|(c & -> & Hnone & Hf & He & Hp)].
  { left. split; [reflexivity|]. exists n. eauto. }
  simpl rbind. rewrite (summary_loop_ok _ c _ Hs). simpl rbind.
  right. exists c. split; [reflexivity|]. split; [|split; [|split]].
  - intros n Hn. apply (Hnone (lang_code n)). rewrite Hget.
    apply list_elem_of_filter. auto.
  - intros l fmt. rewrite Hf, Hget. reflexivity.
  - intros l. rewrite He, Hget. reflexivity.
  - apply Hp. intros l per fmt k. simpl. rewrite lookup_empty. discriminate.
Qed.

Lemma bare_header_none (wav : list byte) :
  length wav = 12%nat -> InvestigateAll.investigate_wav_format wav = Done None.
Proof.
  intros H. do 12 (destruct wav as [|? wav]; [discriminate H|]).
  destruct wav; [reflexivity | discriminate H].
Qed.

Lemma count_pos {A : Type} (P Q : A -> Prop)
    `{!forall x, Decision (P x)} `{!forall x, Decision (Q x)} (l : list A) :
  (0 < length (filter P (filter Q l)))%nat <-> exists x, x ∈ l /\ Q x /\ P x.
Proof.
  split.
  - intros Hlen. destruct (filter P (filter Q l)) as [|x r] eqn:E;
      [simpl in Hlen; lia|].
    assert (Hx : x ∈ filter P (filter Q l)) by (rewrite E; left).
    apply list_elem_of_filter in Hx as [HP Hx].
    apply list_elem_of_filter in Hx as [HQ Hx]. eauto.
  - intros (x & Hx & HQ & HP).
    assert (Hin : x ∈ filter P (filter Q l)).
    { apply list_elem_of_filter. split; [assumption|].
      apply list_elem_of_filter. auto. }
    destruct (filter P (filter Q l)); [inversion Hin | simpl; lia].
Qed.

Lemma has_other_spec (c : counts) (l : string) :
  positive_counts c ->
  has_other c l = true
  <-> exists fmt, fmt <> 1 /\ fmt <> 3 /\ (0 < format_count c l fmt)%nat.
Proof.
  intros Hpos. unfold has_other. rewrite existsb_exists. split.
  - intros (fmt & Hin & Hb).
    apply in_map_iff in Hin as ([fmt' k] & <- & Hk).
    apply list_elem_of_In, elem_of_map_to_list in Hk. simpl in Hb.
    apply andb_true_iff in Hb as [H1 H3].
    apply negb_true_iff, Z.eqb_neq in H1. apply negb_true_iff, Z.eqb_neq in H3.
    exists fmt'. split; [assumption|]. split; [assumption|].
    unfold format_count. rewrite Hk. simpl.
    destruct (lang_format_counts c !! l) as [per|] eqn:E; simpl in Hk.
    + apply (Hpos l per fmt' k E Hk).
    + rewrite lookup_empty in Hk. discriminate.
  - intros (fmt & H1 & H3 & Hc). unfold format_count in Hc.
    destruct (default ∅ (lang_format_counts c !! l) !! fmt) as [k|] eqn:Hk;
      [|simpl in Hc; lia].
    exists fmt. split.
    + apply in_map_iff. exists (fmt, k).
      split; [reflexivity|]. apply list_elem_of_In, elem_of_map_to_list.
      exact Hk.
    + apply andb_true_iff. split; apply negb_true_iff, Z.eqb_neq; assumption.
Qed.

Lemma flags_spec (m : fs) (wav_files : list string) (c : counts) (l : string) :
  (forall l fmt,
     format_count c l fmt
     = length (filter (fun n => tag_at m n = Some fmt)
                 (filter (fun n => lang_code n = l) wav_files))) ->
  (forall l,
     error_count c l
     = length (filter (fun n => error_at m n = true)
                 (filter (fun n => lang_code n = l) wav_files))) ->
  positive_counts c ->
  (has_ieee c l = true
   <-> exists n, n ∈ wav_files /\ lang_code n = l /\ tag_at m n = Some 3)
  /\ (has_other c l = true
      <-> exists n fmt, n ∈ wav_files /\ lang_code n = l
                        /\ tag_at m n = Some fmt /\ fmt <> 1 /\ fmt <> 3)
  /\ (has_errors c l = true
      <-> exists n, n ∈ wav_files /\ lang_code n = l /\ error_at m n = true).
Proof.
  intros Hf He Hp. split; [|split].
  - unfold has_ieee. rewrite bool_decide_eq_true, Hf. apply count_pos.
  - rewrite (has_other_spec c l Hp). split.
    + intros (fmt & H1 & H3 & Hc). rewrite Hf in Hc.
      apply count_pos in Hc as (n & ? & ? & ?). exists n, fmt. auto.
    + intros (n & fmt & ? & ? & ? & ? & ?). exists fmt.
      split; [assumption|]. split; [assumption|].
      rewrite Hf. apply count_pos. eauto.
  - unfold has_errors. rewrite bool_decide_eq_true, He. apply count_pos.
Qed.

End Survey.

(** X18: [main] of investigate_all_formats ends in [TypeError] exactly when
    the probe returns [None] for some listed file, and otherwise runs to
    its end: no other exception can stop it.  In particular one listed
    file of exactly twelve bytes, an outer header with no chunk behind it,
    stops the whole survey. *)
Theorem survey_stops_where_probe_finds_nothing (m : gmap string file)
    (wav_files : list string) :
  (InvestigateAllMain.main m wav_files
   = InvestigateAllMain.Stopped InvestigateAllMain.TypeError
   <-> exists name, name ∈ wav_files
                    /\ InvestigateAllMain.format_info_at m (wav_path name)
                       = Done None)
  /\ (InvestigateAllMain.main m wav_files
      = InvestigateAllMain.Stopped InvestigateAllMain.TypeError
      \/ exists s, InvestigateAllMain.main m wav_files
                   = InvestigateAllMain.Finished s)
  /\ (forall name f,
        name ∈ wav_files -> m !! wav_path name = Some f ->
        length (content f) = 12%nat ->
        InvestigateAllMain.main m wav_files
        = InvestigateAllMain.Stopped InvestigateAllMain.TypeError).
Proof.
  assert (H : (InvestigateAllMain.main m wav_files
               = InvestigateAllMain.Stopped InvestigateAllMain.TypeError
               <-> exists name, name ∈ wav_files
                    /\ InvestigateAllMain.format_info_at m (wav_path name)
                       = Done None)
              /\ (InvestigateAllMain.main m wav_files
                  = InvestigateAllMain.Stopped InvestigateAllMain.TypeError
                  \/ exists s, InvestigateAllMain.main m wav_files
                               = InvestigateAllMain.Finished s)).
  { destruct wav_files as [|w ws] eqn:E.
    - split; [|right; eexists; reflexivity].
      split; [discriminate|]. intros (n & Hn & _). inversion Hn.
    - rewrite <- E.
      destruct (main_cases m wav_files) as [[Hm Hex]|(c & Hm & Hnone & _)];
        [rewrite E; discriminate | |].
      + split; [tauto | left; assumption].
      + split; [|right; eexists; exact Hm].
        rewrite Hm. split; [discriminate|].
        intros (n & Hn & Hnn). destruct (Hnone n Hn Hnn). }
  destruct H as [H1 H2]. split; [exact H1|]. split; [exact H2|].
  intros name f Hn Hf Hlen. apply H1. exists name. split; [assumption|].
  unfold InvestigateAllMain.format_info_at. rewrite Hf.
  apply bare_header_none, Hlen.
Qed.

(** X19: when [main] of investigate_all_formats runs to its end, every
    listed file gave a format or an error dictionary; the group of a
    language is the listed files with that language code, in listing
    order; the count kept for a language and a format tag is the number of
    those files with that tag, and the error count of the language is the
    number of those files whose probe gave an error dictionary. *)
Theorem survey_counts_listed_files (m : gmap string file)
    (wav_files : list string) (s : InvestigateAllMain.survey) :
  InvestigateAllMain.main m wav_files = InvestigateAllMain.Finished (Some s) ->
  (forall name, name ∈ wav_files ->
     InvestigateAllMain.error_at m name = true
     \/ exists fmt, InvestigateAllMain.tag_at m name = Some fmt)
  /\ forall lang,
       let files :=
         filter (fun n => InvestigateAllMain.lang_code n = lang) wav_files in
       InvestigateAllMain.get lang (InvestigateAllMain.lang_files s) = files
       /\ (forall fmt,
             InvestigateAllMain.format_count (InvestigateAllMain.tallies s)
               lang fmt
             = length (filter
                         (fun n => InvestigateAllMain.tag_at m n = Some fmt)
                         files))
       /\ InvestigateAllMain.error_count (InvestigateAllMain.tallies s) lang
          = length (filter (fun n => InvestigateAllMain.error_at m n = true)
                      files).
Proof.
  intros Hmain. destruct wav_files as [|w ws] eqn:E; [discriminate Hmain|].
  rewrite <- E in *.
  destruct (main_cases m wav_files) as [[Hm _]|(c & Hm & Hnone & Hf & He & _)];
    [rewrite E; discriminate | rewrite Hm in Hmain; discriminate Hmain |].
  rewrite Hm in Hmain. injection Hmain as <-. simpl. split.
  - intros name Hn. specialize (Hnone name Hn).
    destruct (format_info_at_done m (wav_path name)) as [[i|] Hi];
      [|contradiction].
    destruct (tag_at_info m name i Hi) as [Ht Her].
    destruct i; [right; eauto | left; assumption].
  - intros lang. split; [apply classify_spec|]. split; [intros fmt; apply Hf|].
    apply He.
Qed.

Lemma survey_counts_listed_files_witness :
  exists s,
    InvestigateAllMain.main mixed_languages ["de_1.wav"; "ru_1.wav"; "ru_2.wav"]
    = InvestigateAllMain.Finished (Some s)
    /\ InvestigateAllMain.get "ru" (InvestigateAllMain.lang_files s)
       = ["ru_1.wav"; "ru_2.wav"]
    /\ InvestigateAllMain.format_count (InvestigateAllMain.tallies s) "ru" 3
       = 1%nat.
Proof.
  set (o := InvestigateAllMain.main mixed_languages
              ["de_1.wav"; "ru_1.wav"; "ru_2.wav"]).
  destruct o as [[s|]|e|] eqn:E; try (vm_compute in E; discriminate E).
  exists s. split; [reflexivity|].
  destruct (survey_counts_listed_files _ _ _ E) as [_ H].
  destruct (H "ru"%string) as (Hg & Hf & _).
  split; [rewrite Hg; vm_compute; reflexivity|].
  rewrite Hf. vm_compute. reflexivity.
Defined.

(** X20: when [main] of investigate_all_formats runs to its end, a language
    is listed as problematic exactly when one of its listed files does not
    probe as PCM (tag 1), and the three flags of its entry say which kind
    of file it has: one with tag 3, one with a tag other than 1 and 3, one
    whose probe gave an error dictionary. *)
Theorem problematic_langs_are_the_non_pcm (m : gmap string file)
    (wav_files : list string) (s : InvestigateAllMain.survey) :
  InvestigateAllMain.main m wav_files = InvestigateAllMain.Finished (Some s) ->
  forall lang,
    ((exists hi ho he,
        (lang, hi, ho, he) ∈ InvestigateAllMain.problematic_langs s)
     <-> exists name, name ∈ wav_files
                      /\ InvestigateAllMain.lang_code name = lang
                      /\ InvestigateAllMain.tag_at m name <> Some 1)
    /\ forall hi ho he,
         (lang, hi, ho, he) ∈ InvestigateAllMain.problematic_langs s ->
         (hi = true
          <-> exists name, name ∈ wav_files
                           /\ InvestigateAllMain.lang_code name = lang
                           /\ InvestigateAllMain.tag_at m name = Some 3)
         /\ (ho = true
             <-> exists name fmt,
                   name ∈ wav_files
                   /\ InvestigateAllMain.lang_code name = lang
                   /\ InvestigateAllMain.tag_at m name = Some fmt
                   /\ fmt <> 1 /\ fmt <> 3)
         /\ (he = true
             <-> exists name, name ∈ wav_files
                              /\ InvestigateAllMain.lang_code name = lang
                              /\ InvestigateAllMain.error_at m name = true).
Proof.
  intros Hmain lang. destruct wav_files as [|w ws] eqn:E; [discriminate Hmain|].
  rewrite <- E in *.
  destruct (main_cases m wav_files) as [[Hm _]|(c & Hm & Hnone & Hf & He & Hp)];
    [rewrite E; discriminate | rewrite Hm in Hmain; discriminate Hmain |].
  rewrite Hm in Hmain. injection Hmain as <-. simpl.
  destruct (classify_spec wav_files) as (_ & Hget & Hkeys).
  pose proof (flags_spec m wav_files c lang Hf He Hp) as (Hi & Ho & Her).
  assert (Hentry : forall hi ho he,
            (lang, hi, ho, he)
              ∈ InvestigateAllMain.problematic c
                  (InvestigateAllMain.sorted_keys
                     (InvestigateAllMain.classify wav_files)) ->
            hi = InvestigateAllMain.has_ieee c lang
            /\ ho = InvestigateAllMain.has_other c lang
            /\ he = InvestigateAllMain.has_errors c lang
            /\ hi || ho || he = true).
  { intros hi ho he Hin. unfold InvestigateAllMain.problematic in Hin.
    apply list_elem_of_omap in Hin as (x & _ & Hx).
    destruct (InvestigateAllMain.has_ieee c x
              || InvestigateAllMain.has_other c x
              || InvestigateAllMain.has_errors c x) eqn:Hc; [|discriminate].
    injection Hx as -> <- <- <-. auto. }
  split.
  - split.
    + intros (hi & ho & he & Hin).
      destruct (Hentry hi ho he Hin) as (-> & -> & -> & Hc).
      apply orb_true_iff in Hc as [Hc|Hc];
        [apply orb_true_iff in Hc as [Hc|Hc]|].
      * apply Hi in Hc as (n & ? & ? & Ht). exists n.
        split; [assumption|]. split; [assumption|]. rewrite Ht. congruence.
      * apply Ho in Hc as (n & fmt & ? & ? & Ht & ? & ?). exists n.
        split; [assumption|]. split; [assumption|]. rewrite Ht. congruence.
      * apply Her in Hc as (n & Hn & ? & Ht). exists n.
        split; [assumption|]. split; [assumption|].
        unfold InvestigateAllMain.error_at in Ht.
        unfold InvestigateAllMain.tag_at.
        destruct (InvestigateAllMain.format_info_at m (wav_path n))
          as [[[f|e]|]|e|]; try discriminate Ht. discriminate.
    + intros (n & Hn & Hl & Ht).
      assert (Hc : InvestigateAllMain.has_ieee c lang
                   || InvestigateAllMain.has_other c lang
                   || InvestigateAllMain.has_errors c lang = true).
      { destruct (format_info_at_done m (wav_path n)) as [[i|] Hinfo];
          [|destruct (Hnone n Hn Hinfo)].
        destruct (tag_at_info m n i Hinfo) as [Htag Herr].
        destruct i as [f|e].
        - destruct (decide (audio_format f = 3)) as [E3|E3].
          + assert (InvestigateAllMain.has_ieee c lang = true) as ->;
              [|reflexivity].
            apply Hi. exists n. rewrite Htag, E3. auto.
          + assert (InvestigateAllMain.has_other c lang = true) as ->;
              [|apply orb_true_iff; left; apply orb_true_r].
            apply Ho. exists n, (audio_format f).
            split; [assumption|]. split; [assumption|].
            split; [assumption|]. split; [|assumption].
            intros E1. apply Ht. rewrite Htag, E1. reflexivity.
        - assert (InvestigateAllMain.has_errors c lang = true) as ->;
            [|apply orb_true_r].
          apply Her. exists n. auto. }
      exists (InvestigateAllMain.has_ieee c lang),
             (InvestigateAllMain.has_other c lang),
             (InvestigateAllMain.has_errors c lang).
      unfold InvestigateAllMain.problematic. apply list_elem_of_omap.
      exists lang. split.
      * apply elem_of_sorted_keys, Hkeys. rewrite Hget. intros Hnil.
        assert (Hin : n ∈ filter (fun n => InvestigateAllMain.lang_code n = lang)
                          wav_files)
          by (apply list_elem_of_filter; auto).
        rewrite Hnil in Hin. inversion Hin.
      * rewrite Hc. reflexivity.
  - intros hi ho he Hin.
    destruct (Hentry hi ho he Hin) as (-> & -> & -> & _). auto.
Qed.

Lemma problematic_langs_are_the_non_pcm_witness :
  exists s,
    InvestigateAllMain.main mixed_languages ["de_1.wav"; "ru_1.wav"; "ru_2.wav"]
    = InvestigateAllMain.Finished (Some s)
    /\ ~ (exists hi ho he,
            ("de"%string, hi, ho, he) ∈ InvestigateAllMain.problematic_langs s).
Proof.
  set (o := InvestigateAllMain.main mixed_languages
              ["de_1.wav"; "ru_1.wav"; "ru_2.wav"]).
  destruct o as [[s|]|e|] eqn:E; try (vm_compute in E; discriminate E).
  exists s. split; [reflexivity|].
  destruct (problematic_langs_are_the_non_pcm _ _ _ E "de"%string) as [H _].
  rewrite H. intros (n & Hn & Hl & Ht). apply Ht. clear Ht H E.
  repeat (apply elem_of_cons in Hn as [->|Hn]);
    [reflexivity | vm_compute in Hl; discriminate Hl
     | vm_compute in Hl; discriminate Hl | inversion Hn].
Defined.
